(** * calendar-ai: the conversational tool-calling orchestrator

    A shallow embedding of [src/app/actions.tsx]: the argument codec
    ([parseArgs]), the time range extractor, the clarification gate, the tool
    dispatcher ([executeCalendarTool]) and the orchestration loop of
    [submitMessage], followed by the properties the specification states
    about them; and of [src/hooks/use-events.tsx], the event store of the
    client, with the properties of both that the code shows besides.

    Conventions of the embedding.
    - A JavaScript string is the list of its UTF-16 code units; a number
      read from JSON is an IEEE binary64 value; [undefined], [null] and the
      truthiness of values are explicit.
    - An expression that may throw returns [Res]; [async] code that reads
      and writes the state of the process is a function from the state to
      a [Res] and a new state, with [try], [catch] and [finally] written
      out.  An [await] is a plain call: requests are served one at a time.
    - Everything outside the module is an interface the development is
      parametric in: the ECMAScript built-ins [JSON.parse], [Date] and
      [String], and the collaborators (completion service, calendar
      provider, session, files, clock, id generator), which answer from a
      state of their own and may fail at every call.
    - Objects that come from the typed SDKs (completions, listed events,
      error objects) have the shape their TypeScript types give them;
      tool-call arguments, which the model writes, are arbitrary JSON.
    - The requests sent to the collaborators are recorded in the state, as
      the entries written to the console are. *)

From Stdlib Require Import ZArith List String Ascii Bool Lia.
From Stdlib Require Import Floats.PrimFloat.
From Stdlib Require Import DecimalString.
From stdpp Require Import gmap list.
Import ListNotations.

Local Open Scope Z_scope.
Set Warnings "-register-all".

(* ===================================================================== *)
(** * JavaScript strings *)
(* ===================================================================== *)

(** A JavaScript string: its UTF-16 code units. *)
Abbreviation jsstring := (list Z).

(** The bytes of a source literal (the source file is UTF-8). *)
Definition bytes_of (s : string) : list Z :=
  map (fun a => Z.of_nat (nat_of_ascii a)) (list_ascii_of_string s).

(** One code point as UTF-16: itself in the basic plane, a surrogate pair
    above it. *)
Definition utf16_of_codepoint (cp : Z) : list Z :=
  if cp <? 65536 then [cp]
  else [55296 + Z.shiftr (cp - 65536) 10; 56320 + Z.land (cp - 65536) 1023].

(** UTF-8 bytes to UTF-16 code units. *)
Fixpoint utf8_to_utf16 (bs : list Z) : list Z :=
  match bs with
  | [] => []
  | b0 :: r0 =>
    if b0 <? 128 then b0 :: utf8_to_utf16 r0
    else match r0 with
    | [] => [65533]
    | b1 :: r1 =>
      if b0 <? 224 then
        (Z.shiftl (Z.land b0 31) 6 + Z.land b1 63) :: utf8_to_utf16 r1
      else match r1 with
      | [] => [65533]
      | b2 :: r2 =>
        if b0 <? 240 then
          (Z.shiftl (Z.land b0 15) 12 + Z.shiftl (Z.land b1 63) 6
             + Z.land b2 63) :: utf8_to_utf16 r2
        else match r2 with
        | [] => [65533]
        | b3 :: r3 =>
          utf16_of_codepoint
            (Z.shiftl (Z.land b0 7) 18 + Z.shiftl (Z.land b1 63) 12
               + Z.shiftl (Z.land b2 63) 6 + Z.land b3 63)
            ++ utf8_to_utf16 r3
        end
      end
    end
  end.

(** A string literal of the source as the JavaScript string it denotes. *)
Definition js (s : string) : list Z := utf8_to_utf16 (bytes_of s).

(** [===] on strings. *)
Fixpoint str_eqb (a b : list Z) : bool :=
  match a, b with
  | [], [] => true
  | x :: a', y :: b' => (x =? y) && str_eqb a' b'
  | _, _ => false
  end.

(** [Array.prototype.includes] on an array of strings. *)
Definition includes (l : list (list Z)) (s : list Z) : bool :=
  existsb (str_eqb s) l.

(** Decimal rendering of an integer-valued number, as a template literal
    prints it. *)
Definition decimal (z : Z) : list Z :=
  bytes_of (NilZero.string_of_int (Z.to_int z)).

(** [Array.prototype.join]. *)
Fixpoint join (sep : list Z) (parts : list (list Z)) : list Z :=
  match parts with
  | [] => []
  | [p] => p
  | p :: rest => p ++ sep ++ join sep rest
  end.

(* ===================================================================== *)
(** * Regular expressions *)
(* ===================================================================== *)

(** The fragment of the regular expression syntax the module uses: literal
    characters (with or without the [i] flag), the class [\s], sequence,
    alternation [(?:a|b)] and [+].  None of the patterns carries the [g] or
    [y] flag, so [RegExp.prototype.test] is a pure search for a match
    starting anywhere in the subject. *)
Module Regex.

Inductive regex : Type :=
| Empty                         (* matches nothing *)
| Eps                           (* matches the empty string *)
| Chr (c : Z)                   (* one code unit *)
| ChrI (c : Z)                  (* one code unit, under the [i] flag *)
| Space                         (* [\s] *)
| Cat (r1 r2 : regex)
| Alt (r1 r2 : regex)
| Star (r : regex).

Definition Plus (r : regex) : regex := Cat r (Star r).

(** Canonicalize of a pattern without the [u] flag, restricted to what it
    does to the ASCII letters: a code unit above 127 never canonicalizes to
    an ASCII one, so an ASCII pattern character matches exactly its two
    ASCII cases. *)
Definition canonicalize (c : Z) : Z :=
  if (97 <=? c) && (c <=? 122) then c - 32 else c.

(** WhiteSpace and LineTerminator code units. *)
Definition is_space (c : Z) : bool :=
  includes
    [[9]; [10]; [11]; [12]; [13]; [32]; [160]; [5760]; [8232]; [8233];
     [8239]; [8287]; [12288]; [65279]] [c]
  || ((8192 <=? c) && (c <=? 8202)).

Fixpoint nullable (r : regex) : bool :=
  match r with
  | Empty | Chr _ | ChrI _ | Space => false
  | Eps | Star _ => true
  | Cat r1 r2 => nullable r1 && nullable r2
  | Alt r1 r2 => nullable r1 || nullable r2
  end.

Definition cat (r1 r2 : regex) : regex :=
  match r1, r2 with
  | Empty, _ | _, Empty => Empty
  | Eps, _ => r2
  | _, _ => Cat r1 r2
  end.

Definition alt (r1 r2 : regex) : regex :=
  match r1, r2 with
  | Empty, _ => r2
  | _, Empty => r1
  | _, _ => Alt r1 r2
  end.

(** Brzozowski derivative: what remains to be matched after reading [c]. *)
Fixpoint deriv (c : Z) (r : regex) : regex :=
  match r with
  | Empty | Eps => Empty
  | Chr a => if c =? a then Eps else Empty
  | ChrI a => if canonicalize c =? canonicalize a then Eps else Empty
  | Space => if is_space c then Eps else Empty
  | Cat r1 r2 =>
    alt (cat (deriv c r1) r2) (if nullable r1 then deriv c r2 else Empty)
  | Alt r1 r2 => alt (deriv c r1) (deriv c r2)
  | Star r1 => cat (deriv c r1) (Star r1)
  end.

(** Some prefix of [s] matches [r]. *)
Fixpoint match_at (r : regex) (s : list Z) : bool :=
  nullable r ||
  match s with
  | [] => false
  | c :: s' => match_at (deriv c r) s'
  end.

(** [r.test(s)]: a match starts at some position of [s]. *)
Fixpoint test (r : regex) (s : list Z) : bool :=
  match_at r s ||
  match s with
  | [] => false
  | _ :: s' => test r s'
  end.

(** The strings a pattern matches in full. *)
Inductive matches : regex -> list Z -> Prop :=
| matches_eps : matches Eps []
| matches_chr c : matches (Chr c) [c]
| matches_chri a c : canonicalize c = canonicalize a -> matches (ChrI a) [c]
| matches_space c : is_space c = true -> matches Space [c]
| matches_cat r1 r2 s1 s2 :
    matches r1 s1 -> matches r2 s2 -> matches (Cat r1 r2) (s1 ++ s2)
| matches_alt_l r1 r2 s : matches r1 s -> matches (Alt r1 r2) s
| matches_alt_r r1 r2 s : matches r2 s -> matches (Alt r1 r2) s
| matches_star_nil r : matches (Star r) []
| matches_star_app r s1 s2 :
    matches r s1 -> matches (Star r) s2 -> matches (Star r) (s1 ++ s2).

(** A literal pattern [/abc/]. *)
Definition lit (p : list Z) : regex := fold_right (fun c r => Cat (Chr c) r) Eps p.

(** A literal pattern [/abc/i]. *)
Definition liti (p : list Z) : regex := fold_right (fun c r => Cat (ChrI c) r) Eps p.

(** [(?:a|b|...)] *)
Definition alts (rs : list regex) : regex := fold_right Alt Empty rs.

End Regex.

(* ===================================================================== *)
(** * Values, exceptions and the built-ins *)
(* ===================================================================== *)

(** What [JSON.parse] can return, and [undefined] for an absent property.
    An object is its own properties in insertion order, one entry per key. *)
Inductive JSValue : Type :=
| JUndefined
| JNull
| JBool (b : bool)
| JNum (x : float)
| JStr (s : jsstring)
| JArr (items : list JSValue)
| JObj (props : list (jsstring * JSValue)).

(** ToBoolean. *)
Definition truthy (v : JSValue) : bool :=
  match v with
  | JUndefined | JNull => false
  | JBool b => b
  | JNum x => negb (PrimFloat.eqb x 0%float) && PrimFloat.eqb x x
  | JStr s => match s with [] => false | _ => true end
  | JArr _ | JObj _ => true
  end.

(** The error object of a rejected provider or service request, with the
    fields [formatToolError] reads. *)
Record ApiErrorItem := {
  item_reason : option jsstring;
  item_message : option jsstring }.

Record ApiError := {
  api_code : option Z;
  api_message : option jsstring;
  api_status : option jsstring;
  api_errors : option (list ApiErrorItem) }.

Record ErrorResponse := {
  resp_status : option Z;
  resp_statusText : option jsstring;
  resp_data_error : option ApiError }.

Record ErrorObject := {
  err_message : option jsstring;
  err_code : option (jsstring + Z);
  err_status : option Z;
  err_response : option ErrorResponse }.

(** A thrown value: a built-in [TypeError], [RangeError] or [SyntaxError]
    with its message, an error object of a collaborator, or anything that
    is not an object. *)
Inductive Thrown : Type :=
| TypeError (msg : jsstring)
| RangeError (msg : jsstring)
| SyntaxError (msg : jsstring)
| ThrownObject (e : ErrorObject)
| ThrownPrimitive.

(** The outcome of an expression that may throw. *)
Inductive Res (A : Type) : Type :=
| Ok (a : A)
| Throw (e : Thrown).
Arguments Ok {A} a.
Arguments Throw {A} e.

#[global] Instance Res_ret : MRet Res := fun A a => Ok a.
#[global] Instance Res_bind : MBind Res := fun A B f m =>
  match m with Ok a => f a | Throw e => Throw e end.

(** The ECMAScript built-ins the module calls. *)
Class Builtins := {
  (** [JSON.parse]; [None] when it throws a [SyntaxError]. *)
  JSON_parse : jsstring -> option JSValue;
  (** [new Date(v).getTime()]: the time value in milliseconds, [None] for
      an invalid date ([NaN]); converting an object to a primitive may
      throw. *)
  Date_new : JSValue -> Res (option Z);
  (** [Date.prototype.toISOString] of a valid time value. *)
  toISOString : Z -> jsstring;
  (** [String(v)]. *)
  String_of : JSValue -> Res jsstring;
}.

(** Property read [v.k] for a key no prototype defines: [TypeError] on
    [null] and [undefined], the own property of an object, [undefined]
    otherwise. *)
Fixpoint lookup_prop (k : jsstring) (props : list (jsstring * JSValue)) : JSValue :=
  match props with
  | [] => JUndefined
  | (k', v) :: rest => if str_eqb k k' then v else lookup_prop k rest
  end.

Definition prop (v : JSValue) (k : jsstring) : Res JSValue :=
  match v with
  | JUndefined | JNull => Throw (TypeError (js "Cannot read properties of null"))
  | JObj props => Ok (lookup_prop k props)
  | _ => Ok JUndefined
  end.

(** [a && b] on values, with [b] evaluated only when [a] is truthy. *)
Definition and_then (a : Res JSValue) (b : Res JSValue) : Res JSValue :=
  x ← a; if truthy x then b else Ok x.

(** [Array.prototype.every], stopping at the first [false] or throw. *)
Fixpoint every {A} (f : A -> Res bool) (l : list A) : Res bool :=
  match l with
  | [] => Ok true
  | x :: l' => b ← f x; if b : bool then every f l' else Ok false
  end.

(* ===================================================================== *)
(** * Tool calls and the argument codec *)
(* ===================================================================== *)

Record FunctionCall := {
  fn_name : jsstring;
  fn_arguments : option jsstring }.

Record ToolCallLike := {
  tc_id : option jsstring;
  tc_function : FunctionCall }.

Record TimeRange := {
  range_start : jsstring;
  range_end : jsstring }.

Definition MAX_TOOL_ROUNDS : nat := 8.

Section Codec.
Context {B : Builtins}.

Definition parseArgs (args : option jsstring) : JSValue :=
  match args with
  | None | Some [] => JObj []
  | Some s =>
    match JSON_parse s with
    | Some v => v
    | None => JObj []
    end
  end.

End Codec.

(* ===================================================================== *)
(** * The clarification gate *)
(* ===================================================================== *)

Definition mutationTools : list jsstring :=
  [js "schedule_event"; js "edit_event"; js "delete_event"].

Definition noActionPatterns : list Regex.regex :=
  [ Regex.lit (js "先不要操作");
    Regex.lit (js "先别操作");
    Regex.lit (js "先不要安排");
    Regex.lit (js "先不要创建");
    Regex.lit (js "先不创建");
    Regex.lit (js "不要执行");
    Regex.lit (js "先和我互动");
    Regex.Cat (Regex.liti (js "don't"))
      (Regex.Cat (Regex.Plus Regex.Space)
         (Regex.alts
            (map Regex.liti
               [js "operate"; js "execute"; js "schedule"; js "book";
                js "create"]))) ].

Definition schedulingIntentPatterns : list Regex.regex :=
  [ Regex.lit (js "安排");
    Regex.lit (js "预约");
    Regex.liti (js "schedule");
    Regex.liti (js "book");
    Regex.lit (js "复习");
    Regex.lit (js "准备面试");
    Regex.lit (js "面试准备") ].

Definition ambiguousPatterns : list Regex.regex :=
  [ Regex.lit (js "左右");
    Regex.lit (js "最近");
    Regex.lit (js "未来这段时间");
    Regex.lit (js "这段时间");
    Regex.lit (js "有空");
    Regex.lit (js "抽时间");
    Regex.lit (js "大概");
    Regex.lit (js "差不多");
    Regex.liti (js "around");
    Regex.liti (js "sometime");
    Regex.liti (js "soon") ].

(** [patterns.some((p) => p.test(question))] *)
Definition some_test (patterns : list Regex.regex) (question : jsstring) : bool :=
  existsb (fun p => Regex.test p question) patterns.

Section Gate.
Context {B : Builtins}.

(** The callback of [executableToolCalls.every] in the gate. *)
Definition sufficientArgs (toolCall : ToolCallLike) : Res bool :=
  let name := fn_name (tc_function toolCall) in
  let args := parseArgs (fn_arguments (tc_function toolCall)) in
  if str_eqb name (js "schedule_event") then
    v ← and_then (and_then (prop args (js "start_time"))
                           (prop args (js "end_time")))
                 (prop args (js "summary"));
    Ok (truthy v)
  else if str_eqb name (js "edit_event") then
    v ← and_then (and_then (and_then (prop args (js "event_id"))
                                     (prop args (js "start_time")))
                           (prop args (js "end_time")))
                 (prop args (js "summary"));
    Ok (truthy v)
  else if str_eqb name (js "delete_event") then
    v ← prop args (js "event_id");
    Ok (truthy v)
  else Ok true.

Definition shouldAskClarificationBeforeMutation
    (question : jsstring) (extractedRange : option TimeRange)
    (executableToolCalls : list ToolCallLike) : Res bool :=
  let toolNames := map (fun call => fn_name (tc_function call)) executableToolCalls in
  let hasMutationTool := existsb (includes mutationTools) toolNames in
  if negb hasMutationTool then Ok false
  else if some_test noActionPatterns question then Ok true
  else
    hasSufficientMutationArgs ← every sufficientArgs executableToolCalls;
    if hasSufficientMutationArgs : bool then Ok false
    else
      let hasSchedulingIntent := some_test schedulingIntentPatterns question in
      let hasAmbiguousTime := some_test ambiguousPatterns question in
      Ok (hasSchedulingIntent
          && (hasAmbiguousTime
              || negb (match extractedRange with Some _ => true | None => false end))).

End Gate.

Definition buildClarificationPrompt : jsstring :=
  join [10]
    [ js "在我创建或修改日程之前，我先确认几个关键信息：";
      js "1. 计划从哪天开始，到哪天结束？";
      js "2. 每周准备几次？每次多长时间？";
      js "3. 你偏好的时间段是哪些（如工作日晚上、周末上午）？";
      js "4. 是否要避开已有日程并自动找空档？";
      js "5. 是否需要提前提醒（提前多久）？";
      js "你回复这些信息后，我再执行具体安排。" ].

(* ===================================================================== *)
(** * Messages, collaborators and the state of the process *)
(* ===================================================================== *)

(** An event as the calendar provider lists it. *)
Record EntryPoint := {
  entryPointType : option jsstring;
  entry_uri : option jsstring }.

Record ProviderEvent := {
  ev_id : option jsstring;
  ev_summary : option jsstring;
  ev_start_dateTime : option jsstring;
  ev_start_date : option jsstring;
  ev_end_dateTime : option jsstring;
  ev_end_date : option jsstring;
  ev_description : option jsstring;
  ev_attendees : option (list (option jsstring));
  ev_recurrence : option (list jsstring);
  ev_hangoutLink : option jsstring;
  ev_entryPoints : option (list EntryPoint);
  ev_status : option jsstring }.

(** The uniform shape [get_calendar] returns. *)
Record EventInput := {
  ei_id : option jsstring;
  ei_title : jsstring;
  ei_start : option jsstring;
  ei_end : option jsstring;
  ei_allDay : bool;
  ei_description : jsstring;
  ei_attendees : list (option jsstring);
  ei_recurrence : list jsstring;
  ei_hangoutLink : jsstring;
  ei_videoConferenceLink : jsstring;
  ei_responseStatus : option jsstring }.

(** The object a tool result serializes: [{ data: events }],
    [{ data: result.data }] or [{ error: detail }]. *)
Inductive ToolOutput : Type :=
| OutEvents (events : list EventInput)
| OutData (data : JSValue)
| OutError (detail : jsstring).

Record ToolResult := {
  output : ToolOutput;
  didMutate : bool }.

(** A chat message, by role. *)
Inductive Message : Type :=
| MSystem (content : jsstring)
| MUser (content : jsstring)
| MAssistant (content : jsstring) (tool_calls : option (list ToolCallLike))
    (function_call : option FunctionCall)
| MTool (tool_call_id : jsstring) (content : ToolOutput)
| MFunction (name : jsstring) (content : ToolOutput).

Record AssistantMessage := {
  am_content : option jsstring;
  am_tool_calls : option (list ToolCallLike);
  am_function_call : option FunctionCall }.

Record Choice := {
  choice_message : option AssistantMessage;
  finish_reason : option jsstring }.

Record ChatCompletion := { choices : list Choice }.

Inductive ModelName := TIME_RANGE_MODEL | ASSISTANT_MODEL.

(** The body and the options of [openai.chat.completions.create]. *)
Record ChatRequest := {
  req_model : ModelName;
  req_json_object : bool;              (* response_format json_object *)
  req_tools : option (list JSValue);   (* with tool_choice 'auto' *)
  req_messages : list Message;
  req_fail_fast : bool                 (* timeout set, maxRetries 0 *) }.

Record EventTime := {
  et_dateTime : JSValue;
  et_date : JSValue;
  et_timeZone : JSValue }.

Record EventBody := {
  body_summary : JSValue;
  body_description : JSValue;
  body_start : EventTime;
  body_end : EventTime;
  body_attendees : option (list JSValue);
  body_recurrence : JSValue }.

(** A request sent to a collaborator. *)
Inductive Outbound : Type :=
| ChatCreate (req : ChatRequest)
| CalendarsGet (calendarId : jsstring)
| EventsList (calendarId : JSValue) (timeMin timeMax : jsstring)
| EventsInsert (calendarId : jsstring) (requestBody : EventBody)
| EventsUpdate (calendarId : jsstring) (eventId : JSValue) (requestBody : EventBody)
| EventsDelete (calendarId : jsstring) (eventId : JSValue)
| ReadFile (path : jsstring).

Record Session := {
  accessToken : option jsstring;
  user_name : option jsstring;
  user_email : option jsstring }.

(** The collaborators: the completion service, the calendar provider, the
    session, the files of the assistant configuration, the clock and the
    id generator.  Each answers from a state of its own, may answer
    differently every time, and may fail. *)
Class Collaborators := {
  World : Type;
  chat_completions_create : ChatRequest -> World -> Res ChatCompletion * World;
  calendars_get : jsstring -> World -> Res (option jsstring) * World;
  events_list : JSValue -> jsstring -> jsstring -> World ->
                Res (option (list ProviderEvent)) * World;
  events_insert : jsstring -> EventBody -> World -> Res JSValue * World;
  events_update : jsstring -> JSValue -> EventBody -> World -> Res JSValue * World;
  events_delete : jsstring -> JSValue -> World -> Res JSValue * World;
  readFile : jsstring -> World -> Res jsstring * World;
  getServerSession : World -> Res (option Session) * World;
  generateId : World -> jsstring * World;
  Date_now : World -> Z * World;
}.

Record AssistantConfig := {
  instructions : jsstring;
  tools : list JSValue }.

(** What [actionTranslated[name] || 'Process'] evaluates to: a text, or the
    member of [Object.prototype] that the lookup of an inherited key
    finds, a function or, for [__proto__], the prototype itself. *)
Inductive ProgressVerb : Type :=
| VerbText (text : jsstring)
| VerbInherited (key : jsstring).

(** What the progress stream [gui] shows. *)
Inductive GuiNode : Type :=
| GuiProgress (verb : ProgressVerb)       (* {verb}ing events *)
| GuiConsulted
| GuiScheduled (htmlLink : option JSValue)
| GuiEdited
| GuiDeleted
| GuiUnsupported (name : jsstring)
| GuiFailed (detail : option jsstring).

Inductive GuiOp : Type :=
| GuiAppend (node : GuiNode)
| GuiUpdate (node : GuiNode).

(** The entries of [logAIInteraction], by stage, and the two direct writes
    to the console. *)
Inductive LogEntry : Type :=
| LogRequestStart (threadId : jsstring)
| LogRangeExtractStart
| LogRangeExtractFailed
| LogRangeExtractSuccess (extracted : TimeRange)
| LogRangeExtractInvalidJson
| LogRangeExtracted (extractedRange : option TimeRange)
| LogAssistantConfigLoaded
| LogModelEmptyResponse (round : nat)
| LogModelResponse (round : nat)
| LogFinalResponse (round : nat)
| LogClarificationRequired (round : nat) (toolNames : list jsstring)
| LogToolCallStart (round : nat) (toolName : jsstring)
| LogToolCallResult (round : nat) (toolName : jsstring) (didMutate : bool)
    (outputError : option jsstring)
| LogRequestComplete (historyCount : nat)
| LogRequestError
| ConsoleToolDispatch (round : nat) (toolCalls : list jsstring)
    (legacyFunctionCall : option jsstring)
| ConsoleToolError (detail : jsstring).

(** A streamable value or UI: what was emitted so far, oldest first, and
    whether [done()] was called. *)
Record Stream (A : Type) := {
  emitted : list A;
  closed : bool }.
Arguments emitted {A} _.
Arguments closed {A} _.

Definition createStreamable {A} (initial : list A) : Stream A :=
  {| emitted := initial; closed := false |}.
Definition emit {A} (x : A) (s : Stream A) : Stream A :=
  {| emitted := emitted s ++ [x]; closed := closed s |}.
Definition finish {A} (s : Stream A) : Stream A :=
  {| emitted := emitted s; closed := true |}.

(** The streams of one request. *)
Record Streams := {
  status : Stream jsstring;
  textStream : Stream jsstring;
  textUIStream : Stream unit;
  gui : Stream GuiOp;
  threadIdStream : Stream jsstring;
  refetchJobsStream : Stream Z;
  refetchRangeStream : Stream (option TimeRange) }.

Section Process.
Context {B : Builtins} {C : Collaborators}.

(** The state of the process: the collaborators, the module-level
    [conversationStore] and [assistantConfigPromise], the console, the
    streams of the request in flight, and the requests sent so far. *)
Record St := {
  world : World;
  conversationStore : gmap jsstring (list Message);
  assistantConfigPromise : option AssistantConfig;
  console : list LogEntry;
  streams : Streams;
  sent : list Outbound }.

Definition set_world (w : World) (s : St) : St :=
  {| world := w; conversationStore := conversationStore s;
     assistantConfigPromise := assistantConfigPromise s;
     console := console s; streams := streams s; sent := sent s |}.
Definition set_conversationStore (m : gmap jsstring (list Message)) (s : St) : St :=
  {| world := world s; conversationStore := m;
     assistantConfigPromise := assistantConfigPromise s;
     console := console s; streams := streams s; sent := sent s |}.
Definition set_assistantConfigPromise (c : option AssistantConfig) (s : St) : St :=
  {| world := world s; conversationStore := conversationStore s;
     assistantConfigPromise := c;
     console := console s; streams := streams s; sent := sent s |}.
Definition set_console (l : list LogEntry) (s : St) : St :=
  {| world := world s; conversationStore := conversationStore s;
     assistantConfigPromise := assistantConfigPromise s;
     console := l; streams := streams s; sent := sent s |}.
Definition set_streams (x : Streams) (s : St) : St :=
  {| world := world s; conversationStore := conversationStore s;
     assistantConfigPromise := assistantConfigPromise s;
     console := console s; streams := x; sent := sent s |}.
Definition set_sent (l : list Outbound) (s : St) : St :=
  {| world := world s; conversationStore := conversationStore s;
     assistantConfigPromise := assistantConfigPromise s;
     console := console s; streams := streams s; sent := l |}.

(** Computations on the state that may throw. *)
Definition M (A : Type) : Type := St -> Res A * St.

#[global] Instance M_ret : MRet M := fun A a s => (Ok a, s).
#[global] Instance M_bind : MBind M := fun A B f m s =>
  match m s with
  | (Ok a, s') => f a s'
  | (Throw e, s') => (Throw e, s')
  end.

Definition throw {A} (e : Thrown) : M A := fun s => (Throw e, s).
Definition lift {A} (r : Res A) : M A := fun s => (r, s).
Definition modify (f : St -> St) : M unit := fun s => (Ok tt, f s).

(** [try { body } catch (error) { handler }] *)
Definition try_catch {A} (body : M A) (handler : Thrown -> M A) : M A :=
  fun s =>
    match body s with
    | (Ok a, s') => (Ok a, s')
    | (Throw e, s') => handler e s'
    end.

(** [try { body } finally { cleanup }] for a cleanup that cannot throw. *)
Definition try_finally {A} (body : M A) (cleanup : St -> St) : M A :=
  fun s => let '(r, s') := body s in (r, cleanup s').

(** A request to a collaborator: recorded, then answered. *)
Definition request {A} (o : Outbound) (f : World -> Res A * World) : M A :=
  fun s =>
    let '(r, w) := f (world s) in
    (r, set_world w (set_sent (sent s ++ [o]) s)).

Definition logAIInteraction (e : LogEntry) : M unit :=
  modify (fun s => set_console (console s ++ [e]) s).

Definition now : M Z :=
  fun s => let '(t, w) := Date_now (world s) in (Ok t, set_world w s).

Definition request_session : M (option Session) :=
  fun s => let '(r, w) := getServerSession (world s) in (r, set_world w s).

Definition fresh_id : M jsstring :=
  fun s => let '(i, w) := generateId (world s) in (Ok i, set_world w s).

Definition on_streams (f : Streams -> Streams) : M unit :=
  modify (fun s => set_streams (f (streams s)) s).

Definition status_update (label : jsstring) : M unit :=
  on_streams (fun x =>
    {| status := emit label (status x); textStream := textStream x;
       textUIStream := textUIStream x; gui := gui x;
       threadIdStream := threadIdStream x;
       refetchJobsStream := refetchJobsStream x;
       refetchRangeStream := refetchRangeStream x |}).

Definition textStream_append (text : jsstring) : M unit :=
  on_streams (fun x =>
    {| status := status x; textStream := emit text (textStream x);
       textUIStream := textUIStream x; gui := gui x;
       threadIdStream := threadIdStream x;
       refetchJobsStream := refetchJobsStream x;
       refetchRangeStream := refetchRangeStream x |}).

Definition gui_emit (op : GuiOp) : M unit :=
  on_streams (fun x =>
    {| status := status x; textStream := textStream x;
       textUIStream := textUIStream x; gui := emit op (gui x);
       threadIdStream := threadIdStream x;
       refetchJobsStream := refetchJobsStream x;
       refetchRangeStream := refetchRangeStream x |}).

Definition refetchJobsStream_update (n : Z) : M unit :=
  on_streams (fun x =>
    {| status := status x; textStream := textStream x;
       textUIStream := textUIStream x; gui := gui x;
       threadIdStream := threadIdStream x;
       refetchJobsStream := emit n (refetchJobsStream x);
       refetchRangeStream := refetchRangeStream x |}).

Definition refetchRangeStream_update (r : option TimeRange) : M unit :=
  on_streams (fun x =>
    {| status := status x; textStream := textStream x;
       textUIStream := textUIStream x; gui := gui x;
       threadIdStream := threadIdStream x;
       refetchJobsStream := refetchJobsStream x;
       refetchRangeStream := emit r (refetchRangeStream x) |}).

(** The [finally] block of the request: every stream is completed. *)
Definition streams_done (x : Streams) : Streams :=
  {| status := finish (status x); textStream := finish (textStream x);
     textUIStream := finish (textUIStream x); gui := finish (gui x);
     threadIdStream := finish (threadIdStream x);
     refetchJobsStream := finish (refetchJobsStream x);
     refetchRangeStream := finish (refetchRangeStream x) |}.

(** The streams [submitMessage] creates, with their initial values. *)
Definition streams_created (normalizedThreadId : jsstring) : Streams :=
  {| status := createStreamable [js "conversation.init"];
     textStream := createStreamable [[]];
     textUIStream := createStreamable [tt];
     gui := createStreamable [];
     threadIdStream := createStreamable [normalizedThreadId];
     refetchJobsStream := createStreamable [0];
     refetchRangeStream := createStreamable [None] |}.

End Process.

(* ===================================================================== *)
(** * The tool dispatcher *)
(* ===================================================================== *)

(** An optional string as a value: [undefined] when absent. *)
Definition optional_string (o : option jsstring) : JSValue :=
  match o with Some s => JStr s | None => JUndefined end.

(** Truthiness of an optional string, and [a || b] on optional strings. *)
Definition str_truthy (o : option jsstring) : bool :=
  match o with Some (_ :: _) => true | _ => false end.
Definition num_truthy (o : option Z) : bool :=
  match o with Some z => negb (z =? 0) | None => false end.
Definition str_or (a : option jsstring) (b : jsstring) : jsstring :=
  match a with Some ((_ :: _) as s) => s | _ => b end.
Definition opt_or (a b : option jsstring) : option jsstring :=
  if str_truthy a then a else b.

(** A thrown value as [formatToolError] reads it; [None] when it is not an
    object. *)
Definition as_error_object (error : Thrown) : option ErrorObject :=
  match error with
  | TypeError m | RangeError m | SyntaxError m =>
    Some {| err_message := Some m; err_code := None; err_status := None;
            err_response := None |}
  | ThrownObject e => Some e
  | ThrownPrimitive => None
  end.

Definition formatToolError (error : Thrown) : jsstring :=
  let fallback := js "Tool execution failed" in
  match as_error_object error with
  | None => fallback
  | Some maybeError =>
    let response := err_response maybeError in
    let status :=
      match response ≫= resp_status with
      | Some st => Some st
      | None => err_status maybeError
      end in
    let statusText := response ≫= resp_statusText in
    let apiError := response ≫= resp_data_error in
    let reasons :=
      match apiError ≫= api_errors with
      | Some items =>
        join (js ", ")
          (omap (fun item =>
                   match opt_or (item_reason item) (item_message item) with
                   | Some ((_ :: _) as r) => Some r
                   | _ => None
                   end) items)
      | None => []
      end in
    let parts :=
      [ match status with
        | Some st =>
          if st =? 0 then []
          else js "HTTP " ++ decimal st
               ++ (if str_truthy statusText
                   then js " " ++ str_or statusText [] else [])
        | None => []
        end;
        (if str_truthy (apiError ≫= api_status)
         then js "status=" ++ str_or (apiError ≫= api_status) [] else []);
        (if num_truthy (apiError ≫= api_code)
         then js "code=" ++ decimal (default 0 (apiError ≫= api_code)) else []);
        match err_code maybeError with
        | Some (inl (_ :: _ as c)) => js "err=" ++ c
        | Some (inr z) => if z =? 0 then [] else js "err=" ++ decimal z
        | _ => []
        end;
        str_or (apiError ≫= api_message)
          (str_or (err_message maybeError) fallback);
        match reasons with [] => [] | _ => js "reason=" ++ reasons end ] in
    join (js " | ") (filter (fun p => p ≠ []) parts)
  end.

(** The code points of a string, each as a string: what spreading a string
    into an array yields. *)
Fixpoint code_points (s : jsstring) : list jsstring :=
  match s with
  | [] => []
  | h :: t =>
    match t with
    | l :: t' =>
      if (55296 <=? h) && (h <=? 56319) && (56320 <=? l) && (l <=? 57343)
      then [h; l] :: code_points t'
      else [h] :: code_points t
    | [] => [[h]]
    end
  end.

(** [s.includes('T') ? s.split('T')[0] : s] *)
Fixpoint before_T (s : jsstring) : jsstring :=
  match s with
  | [] => []
  | c :: s' => if c =? 84 then [] else c :: before_T s'
  end.

(** [[...v]] *)
Definition spread (v : JSValue) : Res (list JSValue) :=
  match v with
  | JArr items => Ok items
  | JStr s => Ok (map JStr (code_points s))
  | _ => Throw (TypeError (js "attendees is not iterable"))
  end.

(** [v?.length], as a condition. *)
Definition has_length (v : JSValue) : bool :=
  match v with
  | JArr items => match items with [] => false | _ => true end
  | JStr s => match s with [] => false | _ => true end
  | JObj props => truthy (lookup_prop (js "length") props)
  | _ => false
  end.

(** [attendees?.length ? [...attendees, userEmail].filter(Boolean) : []] *)
Definition attendeesWithSelf (attendees userEmail : JSValue) : Res (list JSValue) :=
  if has_length attendees then
    l ← spread attendees; Ok (filter (fun v => truthy v = true) (l ++ [userEmail]))
  else Ok [].

(** [attendees?.map((email) => ({ email }))] *)
Definition attendees_map (attendees : JSValue) : Res (option (list JSValue)) :=
  match attendees with
  | JUndefined | JNull => Ok None
  | JArr items => Ok (Some items)
  | _ => Throw (TypeError (js "attendees.map is not a function"))
  end.

Definition normalizeEvent (event : ProviderEvent) : EventInput :=
  {| ei_id := ev_id event;
     ei_title := str_or (ev_summary event) (js "Busy");
     ei_start := opt_or (ev_start_dateTime event) (ev_start_date event);
     ei_end := opt_or (ev_end_dateTime event) (ev_end_date event);
     ei_allDay := negb (str_truthy (ev_start_dateTime event));
     ei_description := str_or (ev_description event) [];
     ei_attendees := default [] (ev_attendees event);
     ei_recurrence := default [] (ev_recurrence event);
     ei_hangoutLink := str_or (ev_hangoutLink event) [];
     ei_videoConferenceLink :=
       str_or
         (eps ← ev_entryPoints event;
          ep ← List.find (fun ep =>
                  match entryPointType ep with
                  | Some t => str_eqb t (js "video")
                  | None => false
                  end) eps;
          entry_uri ep) [];
     ei_responseStatus := ev_status event |}.

(** The keys every object literal inherits from [Object.prototype]
    (ECMA-262, 20.1.3 and B.2.2).  The value found under each of them is
    truthy. *)
Definition objectPrototypeKeys : list jsstring :=
  [ js "constructor"; js "hasOwnProperty"; js "isPrototypeOf";
    js "propertyIsEnumerable"; js "toLocaleString"; js "toString";
    js "valueOf"; js "__proto__"; js "__defineGetter__";
    js "__defineSetter__"; js "__lookupGetter__"; js "__lookupSetter__" ].

(** [actionTranslated[name]]: the lookup of [name] on the object literal,
    which answers with one of its four texts, with what it inherits, or
    with [undefined]. *)
Definition actionTranslated (name : jsstring) : option ProgressVerb :=
  if str_eqb name (js "schedule_event") then Some (VerbText (js "Schedul"))
  else if str_eqb name (js "edit_event") then Some (VerbText (js "Edit"))
  else if str_eqb name (js "delete_event") then Some (VerbText (js "Delet"))
  else if str_eqb name (js "get_calendar") then Some (VerbText (js "Consult"))
  else if includes objectPrototypeKeys name then Some (VerbInherited name)
  else None.

Section Dispatcher.
Context {B : Builtins} {C : Collaborators}.

(** [new Date(v).toISOString()]; a [RangeError] on an invalid date. *)
Definition date_iso (v : JSValue) : Res jsstring :=
  t ← Date_new v;
  match t with
  | Some ms => Ok (toISOString ms)
  | None => Throw (RangeError (js "Invalid time value"))
  end.

Definition resolvePrimaryCalendarTimeZone : M jsstring :=
  try_catch
    (primary ← request (CalendarsGet (js "primary")) (calendars_get (js "primary"));
     mret (str_or primary (js "UTC")))
    (fun _ => mret (js "UTC")).

(** The body of the [try] block of [executeCalendarTool]. *)
Definition executeCalendarTool_try (name : jsstring) (args userEmail : JSValue)
  : M ToolResult :=
  if str_eqb name (js "get_calendar") then
    start_time ← lift (prop args (js "start_time"));
    end_time ← lift (prop args (js "end_time"));
    calendar_id ← lift (prop args (js "calendar_id"));
    start ← lift (date_iso start_time);
    end_ ← lift (date_iso end_time);
    let calendarId := if truthy calendar_id then calendar_id else JStr (js "primary") in
    response ← request (EventsList calendarId start end_)
                 (events_list calendarId start end_);
    let events := map normalizeEvent (default [] response) in
    gui_emit (GuiUpdate GuiConsulted);;
    mret {| output := OutEvents events; didMutate := false |}
  else if str_eqb name (js "schedule_event") then
    start_time ← lift (prop args (js "start_time"));
    end_time ← lift (prop args (js "end_time"));
    summary ← lift (prop args (js "summary"));
    description ← lift (prop args (js "description"));
    all_day ← lift (prop args (js "all_day"));
    attendees ← lift (prop args (js "attendees"));
    recurrence ← lift (prop args (js "recurrence"));
    time_zone ← lift (prop args (js "time_zone"));
    eventTimeZone ←
      (if truthy time_zone then mret time_zone
       else tz ← resolvePrimaryCalendarTimeZone; mret (JStr tz));
    start ← lift (String_of start_time);
    end_ ← lift (String_of end_time);
    let startDateOnly := before_T start in
    let endDateOnly := before_T end_ in
    withSelf ← lift (attendeesWithSelf attendees userEmail);
    let requestBody :=
      {| body_summary := summary;
         body_description := description;
         body_start :=
           {| et_dateTime := if truthy all_day then JUndefined else JStr start;
              et_date := if truthy all_day then JStr startDateOnly else JUndefined;
              et_timeZone := eventTimeZone |};
         body_end :=
           {| et_dateTime := if truthy all_day then JUndefined else JStr end_;
              et_date := if truthy all_day then JStr endDateOnly else JUndefined;
              et_timeZone := eventTimeZone |};
         body_attendees := Some withSelf;
         body_recurrence := recurrence |} in
    data ← request (EventsInsert (js "primary") requestBody)
             (events_insert (js "primary") requestBody);
    htmlLink ← lift (prop data (js "htmlLink"));
    gui_emit (GuiUpdate (GuiScheduled
                (if truthy htmlLink then Some htmlLink else None)));;
    mret {| output := OutData data; didMutate := true |}
  else if str_eqb name (js "edit_event") then
    start_time ← lift (prop args (js "start_time"));
    end_time ← lift (prop args (js "end_time"));
    summary ← lift (prop args (js "summary"));
    description ← lift (prop args (js "description"));
    all_day ← lift (prop args (js "all_day"));
    attendees ← lift (prop args (js "attendees"));
    recurrence ← lift (prop args (js "recurrence"));
    event_id ← lift (prop args (js "event_id"));
    eventTimeZone ← resolvePrimaryCalendarTimeZone;
    start ← (if truthy start_time
             then s ← lift (String_of start_time); mret (Some s)
             else mret None);
    end_ ← (if truthy end_time
            then s ← lift (String_of end_time); mret (Some s)
            else mret None);
    let startDateOnly := before_T <$> start in
    let endDateOnly := before_T <$> end_ in
    mapped ← lift (attendees_map attendees);
    let requestBody :=
      {| body_summary := summary;
         body_description := description;
         body_start :=
           {| et_dateTime := if truthy all_day then JUndefined
                             else optional_string start;
              et_date := if truthy all_day then optional_string startDateOnly
                         else JUndefined;
              et_timeZone := JStr eventTimeZone |};
         body_end :=
           {| et_dateTime := if truthy all_day then JUndefined
                             else optional_string end_;
              et_date := if truthy all_day then optional_string endDateOnly
                         else JUndefined;
              et_timeZone := JStr eventTimeZone |};
         body_attendees := mapped;
         body_recurrence := recurrence |} in
    data ← request (EventsUpdate (js "primary") event_id requestBody)
             (events_update (js "primary") event_id requestBody);
    gui_emit (GuiUpdate GuiEdited);;
    mret {| output := OutData data; didMutate := true |}
  else if str_eqb name (js "delete_event") then
    event_id ← lift (prop args (js "event_id"));
    data ← request (EventsDelete (js "primary") event_id)
             (events_delete (js "primary") event_id);
    gui_emit (GuiUpdate GuiDeleted);;
    mret {| output := OutData data; didMutate := true |}
  else
    gui_emit (GuiUpdate (GuiUnsupported name));;
    mret {| output := OutError (js "Unsupported tool: " ++ name);
            didMutate := false |}.

Definition executeCalendarTool (toolCall : ToolCallLike) (userEmail : JSValue)
  : M ToolResult :=
  let fn := tc_function toolCall in
  let name := fn_name fn in
  let args := parseArgs (fn_arguments fn) in
  gui_emit (GuiAppend (GuiProgress (default (VerbText (js "Process")) (actionTranslated name))));;
  try_catch
    (executeCalendarTool_try name args userEmail)
    (fun error =>
       let detail := formatToolError error in
       logAIInteraction (ConsoleToolError detail);;
       gui_emit (GuiUpdate (GuiFailed (Some detail)));;
       mret {| output := OutError detail; didMutate := false |}).

End Dispatcher.

(* ===================================================================== *)
(** * The time range extractor and the assistant configuration *)
(* ===================================================================== *)

Definition quoted (s : jsstring) : jsstring := [34] ++ s ++ [34].

Definition extractionInstruction : jsstring :=
  js "Extract a calendar time range from user text. Return JSON only with { "
  ++ quoted (js "start") ++ js ": ISO8601 string, " ++ quoted (js "end")
  ++ js ": ISO8601 string } when a time range is clearly inferable. If unclear or absent, return { "
  ++ quoted (js "start") ++ js ": null, " ++ quoted (js "end")
  ++ js ": null }. Use UTC ISO8601 format and ensure end is after start.".

(** [history.slice(-n)]: the last [n] elements. *)
Definition slice_last {A} (n : nat) (l : list A) : list A :=
  drop (length l - n) l.

Section Extractor.
Context {B : Builtins} {C : Collaborators}.

Definition rangeRequest (nowIso question : jsstring) : ChatRequest :=
  {| req_model := TIME_RANGE_MODEL;
     req_json_object := true;
     req_tools := None;
     req_messages :=
       [ MSystem extractionInstruction;
         MUser (js "Now: " ++ nowIso ++ [10] ++ js "User text: " ++ question) ];
     req_fail_fast := true |}.

(** [response.choices[0]?.message?.content] *)
Definition first_content (response : ChatCompletion) : option jsstring :=
  (head (choices response) ≫= choice_message) ≫= am_content.

(** The second [try] block of the extractor: parse, validate, convert. *)
Definition validateRange (content : jsstring) : M (option TimeRange) :=
  parsed ← lift (match JSON_parse content with
                 | Some v => Ok v
                 | None => Throw (SyntaxError (js "Unexpected token"))
                 end);
  start ← lift (prop parsed (js "start"));
  if negb (truthy start) then mret None else
  end_ ← lift (prop parsed (js "end"));
  if negb (truthy end_) then mret None else
  startDate ← lift (Date_new start);
  endDate ← lift (Date_new end_);
  match startDate, endDate with
  | Some startTime, Some endTime =>
    if endTime <=? startTime then mret None
    else
      let extracted := {| range_start := toISOString startTime;
                          range_end := toISOString endTime |} in
      logAIInteraction (LogRangeExtractSuccess extracted);;
      mret (Some extracted)
  | _, _ => mret None
  end.

Definition extractTimeRangeFromQuestion (question : jsstring) : M (option TimeRange) :=
  t ← now;
  let nowIso := toISOString t in
  logAIInteraction LogRangeExtractStart;;
  let req := rangeRequest nowIso question in
  response ← try_catch
                (r ← request (ChatCreate req) (chat_completions_create req);
                 mret (Some r))
                (fun _ => logAIInteraction LogRangeExtractFailed;; mret None);
  match response with
  | None => mret None
  | Some response =>
    match first_content response with
    | Some ((_ :: _) as content) =>
      try_catch (validateRange content)
        (fun _ => logAIInteraction LogRangeExtractInvalidJson;; mret None)
    | _ => mret None
    end
  end.

Definition functionFiles : list jsstring :=
  [ js "get_calendar.json"; js "schedule_event.json"; js "edit_event.json";
    js "delete_event.json" ].

(** [Promise.all] over the reads: every read is issued, and the first
    failure, if any, is the failure of the whole. *)
Fixpoint readAll (paths : list jsstring) : M (list (Res jsstring)) :=
  match paths with
  | [] => mret []
  | p :: rest =>
    r ← try_catch (c ← request (ReadFile p) (readFile p); mret (Ok c))
                  (fun e => mret (Throw e));
    rs ← readAll rest;
    mret (r :: rs)
  end.

Fixpoint all_ok {A} (rs : list (Res A)) : Res (list A) :=
  match rs with
  | [] => Ok []
  | r :: rest => a ← r; l ← all_ok rest; Ok (a :: l)
  end.

Definition loadAssistantConfig : M AssistantConfig :=
  fun s =>
    match assistantConfigPromise s with
    | Some cfg => (Ok cfg, s)
    | None =>
      try_catch
        (texts ← (rs ← readAll (js "assistant/instruction.txt"
                     :: map (fun f => js "assistant/functions/" ++ f) functionFiles);
                  lift (all_ok rs));
         match texts with
         | instructions :: functions =>
           tools ← lift (all_ok (map (fun fn =>
                     match JSON_parse fn with
                     | Some v => Ok v
                     | None => Throw (SyntaxError (js "Unexpected token"))
                     end) functions));
           let cfg := {| instructions := instructions; tools := tools |} in
           modify (set_assistantConfigPromise (Some cfg));;
           mret cfg
         | [] => throw (TypeError (js "undefined is not iterable"))
         end)
        (fun error =>
           modify (set_assistantConfigPromise None);; throw error)
        s
    end.

End Extractor.

(* ===================================================================== *)
(** * The orchestration loop *)
(* ===================================================================== *)

(** The local variables of the request the loop updates. *)
Record Locals := {
  history : list Message;
  refetchJobs : Z }.

(** How a round ends: the [for] loop goes on, or [break]. *)
Inductive Flow : Type :=
| Continue (l : Locals)
| Break (l : Locals).

(** What [submitMessage] returns to its caller. *)
Inductive ClientMessage : Type :=
| NotAuthenticated (id : jsstring)   (* status '', text 'Not authenticated', gui null *)
| Streaming (id : jsstring)          (* the values of the streams *)
| FailedToSubmit (id : jsstring) (text : option jsstring).

(** [error?.message] *)
Definition error_message (error : Thrown) : option jsstring :=
  as_error_object error ≫= err_message.

(** [parsed?.error || null] of a serialized tool output. *)
Definition outputError_of (o : ToolOutput) : option jsstring :=
  match o with
  | OutError ((_ :: _) as detail) => Some detail
  | _ => None
  end.

Section Loop.
Context {B : Builtins} {C : Collaborators}.

Definition assistantRequest (cfg : AssistantConfig) (session : Session)
    (nowIso : jsstring) (history : list Message) : ChatRequest :=
  {| req_model := ASSISTANT_MODEL;
     req_json_object := false;
     req_tools := Some (tools cfg);
     req_messages :=
       MSystem (instructions cfg ++ [10] ++ js "<current_time>" ++ nowIso
                ++ js "</current_time><current_user>"
                ++ default (js "undefined") (user_name session)
                ++ js "</current_user>")
       :: history;
     req_fail_fast := true |}.

(** The body of [for (const toolCall of executableToolCalls) { ... }]. *)
Definition runToolCall (round : nat) (modern : bool) (session : Session)
    (toolCall : ToolCallLike) (l : Locals) : M Locals :=
  let name := fn_name (tc_function toolCall) in
  logAIInteraction (LogToolCallStart (round + 1) name);;
  result ← executeCalendarTool toolCall (optional_string (user_email session));
  logAIInteraction
    (LogToolCallResult (round + 1) name (didMutate result)
       (outputError_of (output result)));;
  jobs ← (if didMutate result
          then refetchJobsStream_update (refetchJobs l + 1);;
               mret (refetchJobs l + 1)
          else mret (refetchJobs l));
  message ← (if modern
             then id ← match tc_id toolCall with
                       | Some ((_ :: _) as i) => mret i
                       | _ => fresh_id
                       end;
                  mret (MTool id (output result))
             else mret (MFunction name (output result)));
  mret {| history := history l ++ [message]; refetchJobs := jobs |}.

(** [for (const toolCall of executableToolCalls) { ... }] *)
Fixpoint runToolCalls (round : nat) (modern : bool) (session : Session)
    (executableToolCalls : list ToolCallLike) (l : Locals) : M Locals :=
  match executableToolCalls with
  | [] => mret l
  | toolCall :: rest =>
    l' ← runToolCall round modern session toolCall l;
    runToolCalls round modern session rest l'
  end.

(** The head of a round: the status label, then the completion request. *)
Definition askModel (cfg : AssistantConfig) (session : Session) (round : nat)
    (l : Locals) : M ChatCompletion :=
  status_update (js "conversation.model_round_" ++ decimal (Z.of_nat round + 1));;
  t ← now;
  let req := assistantRequest cfg session (toISOString t) (history l) in
  request (ChatCreate req) (chat_completions_create req).

(** [toolCalls.length ? toolCalls : legacyFunctionCall ? [{ function:
    legacyFunctionCall }] : []] *)
Definition executableToolCallsOf (assistantMessage : AssistantMessage)
  : list ToolCallLike :=
  match default [] (am_tool_calls assistantMessage) with
  | (_ :: _) as toolCalls => toolCalls
  | [] =>
    match am_function_call assistantMessage with
    | Some fc => [{| tc_id := None; tc_function := fc |}]
    | None => []
    end
  end.

(** The rest of a round: what the loop does with the completion. *)
Definition react (question : jsstring) (extractedRange : option TimeRange)
    (session : Session) (round : nat) (l : Locals) (completion : ChatCompletion)
  : M Flow :=
  match head (choices completion) ≫= choice_message with
  | None =>
    textStream_append (js "No response from model.");;
    logAIInteraction (LogModelEmptyResponse (round + 1));;
    mret (Break l)
  | Some assistantMessage =>
    let toolCalls := default [] (am_tool_calls assistantMessage) in
    let legacyFunctionCall := am_function_call assistantMessage in
    logAIInteraction (LogModelResponse (round + 1));;
    logAIInteraction
      (ConsoleToolDispatch (round + 1)
         (map (fun t => fn_name (tc_function t)) toolCalls)
         (fn_name <$> legacyFunctionCall));;
    match toolCalls, legacyFunctionCall with
    | [], None =>
      let content := str_or (am_content assistantMessage)
                       (js "No response from model.") in
      textStream_append content;;
      logAIInteraction (LogFinalResponse (round + 1));;
      mret (Break {| history := history l ++ [MAssistant content None None];
                     refetchJobs := refetchJobs l |})
    | _, _ =>
      let executableToolCalls := executableToolCallsOf assistantMessage in
      let executableToolNames :=
        map (fun call => fn_name (tc_function call)) executableToolCalls in
      defer ← lift (shouldAskClarificationBeforeMutation question extractedRange
                      executableToolCalls);
      if defer : bool then
        let clarificationPrompt := buildClarificationPrompt in
        textStream_append clarificationPrompt;;
        logAIInteraction (LogClarificationRequired (round + 1) executableToolNames);;
        mret (Break {| history := history l
                                  ++ [MAssistant clarificationPrompt None None];
                       refetchJobs := refetchJobs l |})
      else
        let content := str_or (am_content assistantMessage) [] in
        let modern := match toolCalls with _ :: _ => true | [] => false end in
        let recorded :=
          if modern then MAssistant content (Some toolCalls) None
          else MAssistant content None legacyFunctionCall in
        l' ← runToolCalls round modern session executableToolCalls
               {| history := history l ++ [recorded];
                  refetchJobs := refetchJobs l |};
        mret (Continue l')
    end
  end.

(** One iteration of [for (let round = 0; round < MAX_TOOL_ROUNDS; round++)]. *)
Definition round_body (question : jsstring) (extractedRange : option TimeRange)
    (cfg : AssistantConfig) (session : Session) (round : nat) (l : Locals)
  : M Flow :=
  completion ← askModel cfg session round l;
  react question extractedRange session round l completion.

(** The [for] loop with [n] iterations left, the next being [round]. *)
Fixpoint rounds (question : jsstring) (extractedRange : option TimeRange)
    (cfg : AssistantConfig) (session : Session) (n round : nat) (l : Locals)
  : M Locals :=
  match n with
  | O => mret l
  | S n' =>
    flow ← round_body question extractedRange cfg session round l;
    match flow with
    | Break l' => mret l'
    | Continue l' =>
      rounds question extractedRange cfg session n' (S round) l'
    end
  end.

(** [conversationStore.get(normalizedThreadId)] *)
Definition store_get (normalizedThreadId : jsstring) : M (option (list Message)) :=
  fun s => (Ok (conversationStore s !! normalizedThreadId), s).

(** The [try] block of the detached task up to the loop: the extracted
    range, the assistant configuration and the history of the thread with
    the question appended. *)
Definition prepare (question normalizedThreadId : jsstring)
  : M (option TimeRange * AssistantConfig * list Message) :=
  logAIInteraction (LogRequestStart normalizedThreadId);;
  status_update (js "conversation.extract_range");;
  extractedRange ← extractTimeRangeFromQuestion question;
  refetchRangeStream_update extractedRange;;
  logAIInteraction (LogRangeExtracted extractedRange);;
  cfg ← loadAssistantConfig;
  logAIInteraction LogAssistantConfigLoaded;;
  stored ← store_get normalizedThreadId;
  mret (extractedRange, cfg, default [] stored ++ [MUser question]).

(** [conversationStore.set(normalizedThreadId, history.slice(-30))] and the
    closing log entry. *)
Definition persist (normalizedThreadId : jsstring) (l : Locals) : M unit :=
  modify (fun s =>
    set_conversationStore
      (<[normalizedThreadId := slice_last 30 (history l)]> (conversationStore s)) s);;
  logAIInteraction (LogRequestComplete (length (history l))).

(** The [try] block of the detached task. *)
Definition conversation (question normalizedThreadId : jsstring)
    (session : Session) : M unit :=
  '(extractedRange, cfg, history0) ← prepare question normalizedThreadId;
  l ← rounds question extractedRange cfg session MAX_TOOL_ROUNDS 0
        {| history := history0; refetchJobs := 0 |};
  persist normalizedThreadId l.

(** The [catch] block of the detached task. *)
Definition conversation_failed (error : Thrown) : M unit :=
  status_update (js "conversation.error");;
  logAIInteraction LogRequestError;;
  textStream_append
    (js "Error: " ++ str_or (error_message error) (js "Failed to process the request.")).

(** The detached task: [try], [catch], [finally]. *)
Definition detached (question normalizedThreadId : jsstring) (session : Session)
  : M unit :=
  try_finally
    (try_catch (conversation question normalizedThreadId session)
               conversation_failed)
    (fun s => set_streams (streams_done (streams s)) s).

(** [submitMessage], with the detached task run to its end before the
    result is handed back: one request at a time. *)
Definition submitMessage (question threadId : jsstring) : M ClientMessage :=
  try_catch
    (session ← request_session;
     match session with
     | Some sess =>
       if str_truthy (accessToken sess) then
         normalizedThreadId ← (match threadId with
                               | _ :: _ => mret threadId
                               | [] => fresh_id
                               end);
         modify (set_streams (streams_created normalizedThreadId));;
         try_catch (detached question normalizedThreadId sess)
                   (fun _ => mret tt);;
         id ← fresh_id;
         mret (Streaming id)
       else id ← fresh_id; mret (NotAuthenticated id)
     | None => id ← fresh_id; mret (NotAuthenticated id)
     end)
    (fun error => id ← fresh_id; mret (FailedToSubmit id (error_message error))).

End Loop.

(* ===================================================================== *)
(** * The earlier variant of the module *)
(* ===================================================================== *)

(** The second copy of [actions.tsx]: no clarification gate, no structured
    log, no request options, and an extractor whose request is not
    guarded.  Only what differs from the current module is defined
    again. *)
Module Legacy.
Section Legacy.
Context {B : Builtins} {C : Collaborators}.

Definition rangeRequest (nowIso question : jsstring) : ChatRequest :=
  {| req_model := TIME_RANGE_MODEL;
     req_json_object := true;
     req_tools := None;
     req_messages :=
       [ MSystem extractionInstruction;
         MUser (js "Now: " ++ nowIso ++ [10] ++ js "User text: " ++ question) ];
     req_fail_fast := false |}.

Definition validateRange (content : jsstring) : M (option TimeRange) :=
  parsed ← lift (match JSON_parse content with
                 | Some v => Ok v
                 | None => Throw (SyntaxError (js "Unexpected token"))
                 end);
  start ← lift (prop parsed (js "start"));
  if negb (truthy start) then mret None else
  end_ ← lift (prop parsed (js "end"));
  if negb (truthy end_) then mret None else
  startDate ← lift (Date_new start);
  endDate ← lift (Date_new end_);
  match startDate, endDate with
  | Some startTime, Some endTime =>
    if endTime <=? startTime then mret None
    else mret (Some {| range_start := toISOString startTime;
                       range_end := toISOString endTime |})
  | _, _ => mret None
  end.

Definition extractTimeRangeFromQuestion (question : jsstring) : M (option TimeRange) :=
  t ← now;
  let req := rangeRequest (toISOString t) question in
  response ← request (ChatCreate req) (chat_completions_create req);
  match first_content response with
  | Some ((_ :: _) as content) =>
    try_catch (validateRange content) (fun _ => mret None)
  | _ => mret None
  end.

(** [v.split('T')[0]] on a value: a [TypeError] unless it is a string. *)
Definition split_T (v : JSValue) : Res JSValue :=
  match v with
  | JStr s => Ok (JStr (before_T s))
  | _ => Throw (TypeError (js "Cannot read properties of undefined"))
  end.

(** [v && new Date(v).toISOString()] *)
Definition date_iso_if (v : JSValue) : Res JSValue :=
  if truthy v then iso ← date_iso v; Ok (JStr iso) else Ok v.

Definition executeCalendarTool_try (name : jsstring) (args userEmail : JSValue)
  : M ToolResult :=
  if str_eqb name (js "get_calendar") then
    start_time ← lift (prop args (js "start_time"));
    end_time ← lift (prop args (js "end_time"));
    calendar_id ← lift (prop args (js "calendar_id"));
    start ← lift (date_iso start_time);
    end_ ← lift (date_iso end_time);
    let calendarId := if truthy calendar_id then calendar_id else JStr (js "primary") in
    response ← request (EventsList calendarId start end_)
                 (events_list calendarId start end_);
    let events := map normalizeEvent (default [] response) in
    gui_emit (GuiUpdate GuiConsulted);;
    mret {| output := OutEvents events; didMutate := false |}
  else if str_eqb name (js "schedule_event") then
    start_time ← lift (prop args (js "start_time"));
    end_time ← lift (prop args (js "end_time"));
    summary ← lift (prop args (js "summary"));
    description ← lift (prop args (js "description"));
    all_day ← lift (prop args (js "all_day"));
    attendees ← lift (prop args (js "attendees"));
    recurrence ← lift (prop args (js "recurrence"));
    time_zone ← lift (prop args (js "time_zone"));
    let eventTimeZone :=
      if truthy time_zone then time_zone else JStr (js "America/Los_Angeles") in
    start ← lift (date_iso start_time);
    end_ ← lift (date_iso end_time);
    withSelf ← lift (attendeesWithSelf attendees userEmail);
    let requestBody :=
      {| body_summary := summary;
         body_description := description;
         body_start :=
           {| et_dateTime := if truthy all_day then JUndefined else JStr start;
              et_date := if truthy all_day then JStr (before_T start) else JUndefined;
              et_timeZone := eventTimeZone |};
         body_end :=
           {| et_dateTime := if truthy all_day then JUndefined else JStr end_;
              et_date := if truthy all_day then JStr (before_T end_) else JUndefined;
              et_timeZone := eventTimeZone |};
         body_attendees := Some withSelf;
         body_recurrence := recurrence |} in
    data ← request (EventsInsert (js "primary") requestBody)
             (events_insert (js "primary") requestBody);
    gui_emit (GuiUpdate (GuiScheduled None));;
    mret {| output := OutData data; didMutate := true |}
  else if str_eqb name (js "edit_event") then
    start_time ← lift (prop args (js "start_time"));
    end_time ← lift (prop args (js "end_time"));
    summary ← lift (prop args (js "summary"));
    description ← lift (prop args (js "description"));
    all_day ← lift (prop args (js "all_day"));
    attendees ← lift (prop args (js "attendees"));
    recurrence ← lift (prop args (js "recurrence"));
    event_id ← lift (prop args (js "event_id"));
    start ← lift (date_iso_if start_time);
    end_ ← lift (date_iso_if end_time);
    startDate ← (if truthy all_day then lift (split_T start) else mret JUndefined);
    endDate ← (if truthy all_day then lift (split_T end_) else mret JUndefined);
    mapped ← lift (attendees_map attendees);
    let requestBody :=
      {| body_summary := summary;
         body_description := description;
         body_start :=
           {| et_dateTime := if truthy all_day then JUndefined else start;
              et_date := startDate;
              et_timeZone := JUndefined |};
         body_end :=
           {| et_dateTime := if truthy all_day then JUndefined else end_;
              et_date := endDate;
              et_timeZone := JUndefined |};
         body_attendees := mapped;
         body_recurrence := recurrence |} in
    data ← request (EventsUpdate (js "primary") event_id requestBody)
             (events_update (js "primary") event_id requestBody);
    gui_emit (GuiUpdate GuiEdited);;
    mret {| output := OutData data; didMutate := true |}
  else if str_eqb name (js "delete_event") then
    event_id ← lift (prop args (js "event_id"));
    data ← request (EventsDelete (js "primary") event_id)
             (events_delete (js "primary") event_id);
    gui_emit (GuiUpdate GuiDeleted);;
    mret {| output := OutData data; didMutate := true |}
  else
    gui_emit (GuiUpdate (GuiUnsupported name));;
    mret {| output := OutError (js "Unsupported tool: " ++ name);
            didMutate := false |}.

Definition executeCalendarTool (toolCall : ToolCallLike) (userEmail : JSValue)
  : M ToolResult :=
  let fn := tc_function toolCall in
  let name := fn_name fn in
  let args := parseArgs (fn_arguments fn) in
  gui_emit (GuiAppend (GuiProgress (default (VerbText (js "Process")) (actionTranslated name))));;
  try_catch
    (executeCalendarTool_try name args userEmail)
    (fun error =>
       gui_emit (GuiUpdate (GuiFailed None));;
       mret {| output := OutError (str_or (error_message error)
                                      (js "Tool execution failed"));
               didMutate := false |}).

Definition assistantRequest (cfg : AssistantConfig) (session : Session)
    (nowIso : jsstring) (history : list Message) : ChatRequest :=
  {| req_model := ASSISTANT_MODEL;
     req_json_object := false;
     req_tools := Some (tools cfg);
     req_messages :=
       MSystem (instructions cfg ++ [10] ++ js "<current_time>" ++ nowIso
                ++ js "</current_time><current_user>"
                ++ default (js "undefined") (user_name session)
                ++ js "</current_user>")
       :: history;
     req_fail_fast := false |}.

Definition runToolCall (modern : bool) (session : Session)
    (toolCall : ToolCallLike) (l : Locals) : M Locals :=
  let name := fn_name (tc_function toolCall) in
  result ← executeCalendarTool toolCall (optional_string (user_email session));
  jobs ← (if didMutate result
          then refetchJobsStream_update (refetchJobs l + 1);;
               mret (refetchJobs l + 1)
          else mret (refetchJobs l));
  message ← (if modern
             then id ← match tc_id toolCall with
                       | Some ((_ :: _) as i) => mret i
                       | _ => fresh_id
                       end;
                  mret (MTool id (output result))
             else mret (MFunction name (output result)));
  mret {| history := history l ++ [message]; refetchJobs := jobs |}.

Fixpoint runToolCalls (modern : bool) (session : Session)
    (executableToolCalls : list ToolCallLike) (l : Locals) : M Locals :=
  match executableToolCalls with
  | [] => mret l
  | toolCall :: rest =>
    l' ← runToolCall modern session toolCall l;
    runToolCalls modern session rest l'
  end.

Definition round_body (cfg : AssistantConfig) (session : Session) (round : nat)
    (l : Locals) : M Flow :=
  status_update (js "conversation.model_round_" ++ decimal (Z.of_nat round + 1));;
  t ← now;
  let req := assistantRequest cfg session (toISOString t) (history l) in
  completion ← request (ChatCreate req) (chat_completions_create req);
  match head (choices completion) ≫= choice_message with
  | None =>
    textStream_append (js "No response from model.");;
    mret (Break l)
  | Some assistantMessage =>
    let toolCalls := default [] (am_tool_calls assistantMessage) in
    let legacyFunctionCall := am_function_call assistantMessage in
    logAIInteraction
      (ConsoleToolDispatch (round + 1)
         (map (fun t => fn_name (tc_function t)) toolCalls)
         (fn_name <$> legacyFunctionCall));;
    match toolCalls, legacyFunctionCall with
    | [], None =>
      let content := str_or (am_content assistantMessage)
                       (js "No response from model.") in
      textStream_append content;;
      mret (Break {| history := history l ++ [MAssistant content None None];
                     refetchJobs := refetchJobs l |})
    | _, _ =>
      let content := str_or (am_content assistantMessage) [] in
      let modern := match toolCalls with _ :: _ => true | [] => false end in
      let recorded :=
        if modern then MAssistant content (Some toolCalls) None
        else MAssistant content None legacyFunctionCall in
      l' ← runToolCalls modern session (executableToolCallsOf assistantMessage)
             {| history := history l ++ [recorded];
                refetchJobs := refetchJobs l |};
      mret (Continue l')
    end
  end.

Fixpoint rounds (cfg : AssistantConfig) (session : Session) (n round : nat)
    (l : Locals) : M Locals :=
  match n with
  | O => mret l
  | S n' =>
    flow ← round_body cfg session round l;
    match flow with
    | Break l' => mret l'
    | Continue l' => rounds cfg session n' (S round) l'
    end
  end.

Definition conversation (question normalizedThreadId : jsstring)
    (session : Session) : M unit :=
  status_update (js "conversation.extract_range");;
  extractedRange ← extractTimeRangeFromQuestion question;
  refetchRangeStream_update extractedRange;;
  cfg ← loadAssistantConfig;
  stored ← store_get normalizedThreadId;
  l ← rounds cfg session MAX_TOOL_ROUNDS 0
        {| history := default [] stored ++ [MUser question]; refetchJobs := 0 |};
  modify (fun s =>
    set_conversationStore
      (<[normalizedThreadId := slice_last 30 (history l)]> (conversationStore s)) s).

Definition conversation_failed (error : Thrown) : M unit :=
  status_update (js "conversation.error");;
  textStream_append
    (js "Error: " ++ str_or (error_message error) (js "Failed to process the request.")).

Definition detached (question normalizedThreadId : jsstring) (session : Session)
  : M unit :=
  try_finally
    (try_catch (conversation question normalizedThreadId session)
               conversation_failed)
    (fun s => set_streams (streams_done (streams s)) s).

Definition submitMessage (question threadId : jsstring) : M ClientMessage :=
  try_catch
    (session ← request_session;
     match session with
     | Some sess =>
       if str_truthy (accessToken sess) then
         normalizedThreadId ← (match threadId with
                               | _ :: _ => mret threadId
                               | [] => fresh_id
                               end);
         modify (set_streams (streams_created normalizedThreadId));;
         try_catch (detached question normalizedThreadId sess)
                   (fun _ => mret tt);;
         id ← fresh_id;
         mret (Streaming id)
       else id ← fresh_id; mret (NotAuthenticated id)
     | None => id ← fresh_id; mret (NotAuthenticated id)
     end)
    (fun error => id ← fresh_id; mret (FailedToSubmit id (error_message error))).

Fixpoint serve (requests : list (jsstring * jsstring)) (s : St) : St :=
  match requests with
  | [] => s
  | (question, threadId) :: rest =>
    serve rest (snd (submitMessage question threadId s))
  end.

End Legacy.
End Legacy.

(* ===================================================================== *)
(** * The vocabulary of the specification *)
(* ===================================================================== *)

(** A mutating tool call: schedule, edit or delete. *)
Definition isMutating (call : ToolCallLike) : bool :=
  includes mutationTools (fn_name (tc_function call)).

(** The fields a tool needs before it can run. *)
Definition requiredFields (name : jsstring) : list jsstring :=
  if str_eqb name (js "schedule_event")
  then [js "start_time"; js "end_time"; js "summary"]
  else if str_eqb name (js "edit_event")
  then [js "event_id"; js "start_time"; js "end_time"; js "summary"]
  else if str_eqb name (js "delete_event")
  then [js "event_id"]
  else [].

(** The key [k] exists in the payload. *)
Definition fieldPresent (args : JSValue) (k : jsstring) : bool :=
  match args with
  | JObj props => existsb (fun kv => str_eqb k (fst kv)) props
  | _ => false
  end.

(** The key [k] exists in the payload and its value is truthy. *)
Definition fieldTruthy (args : JSValue) (k : jsstring) : bool :=
  match args with
  | JObj props => truthy (lookup_prop k props)
  | _ => false
  end.

Section Vocabulary.
Context {B : Builtins}.

(** Every required key of the call exists in its argument payload. *)
Definition argsPresent (call : ToolCallLike) : bool :=
  forallb (fieldPresent (parseArgs (fn_arguments (tc_function call))))
          (requiredFields (fn_name (tc_function call))).

(** Every required field of the call has a truthy value. *)
Definition argsComplete (call : ToolCallLike) : bool :=
  forallb (fieldTruthy (parseArgs (fn_arguments (tc_function call))))
          (requiredFields (fn_name (tc_function call))).

(** The payload of the call parses to something a property can be read
    from (anything but [null]). *)
Definition argsReadable (call : ToolCallLike) : bool :=
  match parseArgs (fn_arguments (tc_function call)) with
  | JNull | JUndefined => false
  | _ => true
  end.

End Vocabulary.

(** Requests served one after the other, each [(question, threadId)]. *)
Section Serving.
Context {B : Builtins} {C : Collaborators}.

Fixpoint serve (requests : list (jsstring * jsstring)) (s : St) : St :=
  match requests with
  | [] => s
  | (question, threadId) :: rest =>
    serve rest (snd (submitMessage question threadId s))
  end.

(** No stream of the request is completed. *)
Definition all_open (x : Streams) : Prop :=
  closed (status x) = false /\ closed (textStream x) = false /\
  closed (textUIStream x) = false /\ closed (gui x) = false /\
  closed (threadIdStream x) = false /\ closed (refetchJobsStream x) = false /\
  closed (refetchRangeStream x) = false.

(** Every stream of the request is completed. *)
Definition all_closed (x : Streams) : Prop :=
  closed (status x) = true /\ closed (textStream x) = true /\
  closed (textUIStream x) = true /\ closed (gui x) = true /\
  closed (threadIdStream x) = true /\ closed (refetchJobsStream x) = true /\
  closed (refetchRangeStream x) = true.

End Serving.

(** The requests of the orchestration loop among the requests sent. *)
Definition is_assistant_request (o : Outbound) : bool :=
  match o with
  | ChatCreate req =>
    match req_model req with ASSISTANT_MODEL => true | TIME_RANGE_MODEL => false end
  | _ => false
  end.

(** The requests sent to the calendar provider. *)
Definition is_provider_request (o : Outbound) : bool :=
  match o with
  | CalendarsGet _ | EventsList _ _ _ | EventsInsert _ _ | EventsUpdate _ _ _
  | EventsDelete _ _ => true
  | _ => false
  end.

(** The console entries that report the result of an executed tool call. *)
Definition is_tool_result (e : LogEntry) : bool :=
  match e with LogToolCallResult _ _ _ _ => true | _ => false end.

(** The entries that record the start of a tool execution. *)
Definition is_tool_start (e : LogEntry) : bool :=
  match e with LogToolCallStart _ _ => true | _ => false end.

(** The results that report a mutation. *)
Definition reports_mutation (e : LogEntry) : bool :=
  match e with LogToolCallResult _ _ d _ => d | _ => false end.

(** The messages of a history that carry tool-call requests or answer
    one. *)
Definition is_tool_traffic (m : Message) : bool :=
  match m with
  | MAssistant _ (Some _) _ | MAssistant _ _ (Some _) => true
  | MTool _ _ | MFunction _ _ => true
  | _ => false
  end.

(* ===================================================================== *)
(** * Judgements on computations *)
(* ===================================================================== *)

Definition knownTools : list jsstring :=
  [js "get_calendar"; js "schedule_event"; js "edit_event"; js "delete_event"].

(** What the [try] block of the dispatcher returns, when it returns: the
    flag is consistent with the output and the name. *)
Definition well_flagged (name : jsstring) (r : ToolResult) : Prop :=
  (forall detail, output r = OutError detail -> didMutate r = false)
  /\ (didMutate r = true -> includes mutationTools name = true)
  /\ (includes knownTools name = false ->
      r = {| output := OutError (js "Unsupported tool: " ++ name);
             didMutate := false |}).

Section Judgements.
Context {B : Builtins} {C : Collaborators}.

(** Whatever the start state and the outcome, [m] ends in a state related
    to the start state by [R]. *)
Definition keeps (R : St -> St -> Prop) {A} (m : M A) : Prop :=
  forall s, R s (snd (m s)).

(** Whenever [m] returns, what it returns satisfies [Q]. *)
Definition returns {A} (m : M A) (Q : A -> Prop) : Prop :=
  forall s a s', m s = (Ok a, s') -> Q a.

(** [m] never throws. *)
Definition total {A} (m : M A) : Prop :=
  forall s, exists a, fst (m s) = Ok a.

End Judgements.

Section Invariants.
Context {B : Builtins} {C : Collaborators}.

(** The bound of the thread store: no stored history is longer than 30. *)
Definition store_bounded (s : St) : Prop :=
  forall tid h, conversationStore s !! tid = Some h -> (length h <= 30)%nat.

(** The bound of the store, if it held before, holds after. *)
Definition bound_kept (s s' : St) : Prop := store_bounded s -> store_bounded s'.

(** The completion flags of the streams of a request. *)
Definition flags (x : Streams) : list bool :=
  [ closed (status x); closed (textStream x); closed (textUIStream x);
    closed (gui x); closed (threadIdStream x); closed (refetchJobsStream x);
    closed (refetchRangeStream x) ].

(** The thread store is left as it was. *)
Definition same_store (s s' : St) : Prop :=
  conversationStore s' = conversationStore s.

(** No stream is completed or reopened. *)
Definition same_flags (s s' : St) : Prop :=
  flags (streams s') = flags (streams s).

(** Requests were sent, at most [k] of them by the orchestration loop. *)
Definition sent_more (k : nat) (s s' : St) : Prop :=
  exists extra, sent s' = sent s ++ extra
    /\ (length (filter (fun o => is_assistant_request o = true) extra) <= k)%nat.

(** The mutation counter was not touched and no tool result was
    reported. *)
Definition same_jobs (s s' : St) : Prop :=
  emitted (refetchJobsStream (streams s')) = emitted (refetchJobsStream (streams s))
  /\ exists extra, console s' = console s ++ extra
       /\ filter (fun e => is_tool_result e = true) extra = [].

(** The number of reported results that flag a mutation. *)
Definition mutations (entries : list LogEntry) : nat :=
  length (filter (fun e => reports_mutation e = true) entries).

(** A reported result flags a mutation only for a mutating tool and never
    together with an error. *)
Definition honest (e : LogEntry) : Prop :=
  match e with
  | LogToolCallResult _ name d err =>
    d = true -> err = None /\ includes mutationTools name = true
  | _ => True
  end.

(** The values [0, 1, ..., k]. *)
Definition counting (k : nat) : list Z := map Z.of_nat (seq 0 (S k)).

(** Since the console read [c0], the mutation counter emitted one value
    per result that flags a mutation, counting up from 0. *)
Definition counter_agrees (c0 : list LogEntry) (s : St) : Prop :=
  exists entries,
    console s = c0 ++ entries
    /\ emitted (refetchJobsStream (streams s)) = counting (mutations entries)
    /\ Forall honest entries.

(** The same, and the local counter holds the last value emitted. *)
Definition locals_agree (c0 : list LogEntry) (l : Locals) (s : St) : Prop :=
  exists entries,
    console s = c0 ++ entries
    /\ emitted (refetchJobsStream (streams s)) = counting (mutations entries)
    /\ Forall honest entries
    /\ refetchJobs l = Z.of_nat (mutations entries).

(** Nothing was asked of the calendar provider, no tool was started and
    the progress stream did not move. *)
Definition no_tool_activity (s s' : St) : Prop :=
  gui (streams s') = gui (streams s)
  /\ refetchJobsStream (streams s') = refetchJobsStream (streams s)
  /\ (exists extra, sent s' = sent s ++ extra
        /\ filter (fun o => is_provider_request o = true) extra = [])
  /\ (exists extra, console s' = console s ++ extra
        /\ filter (fun e => is_tool_start e = true) extra = []).

End Invariants.

(** Every recorded tool-call request is answered: an assistant message
    that carries requests is followed at once by one result for each of
    them.  [pending] is the number of results still awaited. *)
Fixpoint awaiting (pending : nat) (h : list Message) : bool :=
  match h with
  | [] => Nat.eqb pending 0
  | m :: rest =>
    match m with
    | MTool _ _ | MFunction _ _ => awaiting (pred pending) rest
    | MAssistant _ (Some toolCalls) _ =>
      Nat.eqb pending 0 && awaiting (length toolCalls) rest
    | MAssistant _ None (Some _) => Nat.eqb pending 0 && awaiting 1 rest
    | _ => Nat.eqb pending 0 && awaiting 0 rest
    end
  end.

Definition answered (h : list Message) : bool := awaiting 0 h.

(* ===================================================================== *)
(** * A concrete platform for the examples *)
(* ===================================================================== *)

(** Built-ins and collaborators that answer as the real ones do on the
    inputs the examples use: the JSON texts of a few flat objects, two
    ISO-8601 dates, a scripted completion service and a calendar that
    accepts every request except the deletion of event [E404].  The
    examples convert no number and no array to a date or to a string. *)
Module Demo.

(** The JSON text of a flat object with string values. *)
Definition json_text (fields : list (jsstring * jsstring)) : jsstring :=
  js "{" ++ join (js ",")
              (map (fun kv => quoted (fst kv) ++ js ":" ++ quoted (snd kv)) fields)
  ++ js "}".

Definition json_value (fields : list (jsstring * jsstring)) : JSValue :=
  JObj (map (fun kv => (fst kv, JStr (snd kv))) fields).

Definition known_objects : list (list (jsstring * jsstring)) :=
  [ [];
    [(js "event_id", js "E123")];
    [(js "event_id", js "E404")];
    [(js "event_id", js "")];
    [(js "start_time", js "2025-06-01T00:00:00.000Z");
     (js "end_time", js "2025-06-08T00:00:00.000Z");
     (js "summary", js "Review")];
    [(js "start_time", js "2025-06-01T00:00:00.000Z");
     (js "end_time", js "2025-06-08T00:00:00.000Z");
     (js "summary", js "")];
    [(js "start_time", js "2025-06-01T00:00:00.000Z");
     (js "end_time", js "2025-06-08T00:00:00.000Z")];
    [(js "start", js "2025-06-01T00:00:00.000Z");
     (js "end", js "2025-06-08T00:00:00.000Z")];
    [(js "start", js "2025-06-08T00:00:00.000Z");
     (js "end", js "2025-06-01T00:00:00.000Z")] ].

Definition parse (text : jsstring) : option JSValue :=
  if str_eqb text (js "null") then Some JNull
  else json_value <$> List.find (fun o => str_eqb text (json_text o)) known_objects.

Definition known_dates : list (jsstring * Z) :=
  [ (js "2025-06-01T00:00:00.000Z", 1748736000000);
    (js "2025-06-08T00:00:00.000Z", 1749340800000) ].

Definition date_new (v : JSValue) : Res (option Z) :=
  match v with
  | JStr s => Ok (snd <$> List.find (fun d => str_eqb s (fst d)) known_dates)
  | JNull | JBool false => Ok (Some 0)
  | JBool true => Ok (Some 1)
  | _ => Ok None
  end.

Definition to_iso (t : Z) : jsstring :=
  default (js "1970-01-01T00:00:00.000Z")
          (fst <$> List.find (fun d => snd d =? t) known_dates).

Definition string_of (v : JSValue) : Res jsstring :=
  match v with
  | JStr s => Ok s
  | JUndefined => Ok (js "undefined")
  | JNull => Ok (js "null")
  | JBool true => Ok (js "true")
  | JBool false => Ok (js "false")
  | _ => Ok (js "[object Object]")
  end.

#[export] Instance builtins : Builtins :=
  {| JSON_parse := parse; Date_new := date_new; toISOString := to_iso;
     String_of := string_of |}.

(** The answers the completion service will give, in order, and a counter
    for the generated ids. *)
Record DemoWorld := {
  script : list (Res ChatCompletion);
  ticks : Z }.

Definition connection_error : Thrown :=
  ThrownObject {| err_message := Some (js "Connection error.");
                  err_code := None; err_status := None; err_response := None |}.

Definition not_found : Thrown :=
  ThrownObject
    {| err_message := Some (js "Not Found");
       err_code := Some (inr 404);
       err_status := Some 404;
       err_response :=
         Some {| resp_status := Some 404;
                 resp_statusText := Some (js "Not Found");
                 resp_data_error :=
                   Some {| api_code := Some 404;
                           api_message := Some (js "Not Found");
                           api_status := None;
                           api_errors :=
                             Some [ {| item_reason := Some (js "notFound");
                                       item_message := Some (js "Not Found") |} ] |} |} |}.

Definition the_session : Session :=
  {| accessToken := Some (js "token"); user_name := Some (js "Ada");
     user_email := Some (js "ada@example.com") |}.

#[export] Instance collaborators : Collaborators :=
  {| World := DemoWorld;
     chat_completions_create := fun _ w =>
       match script w with
       | [] => (Throw connection_error, w)
       | r :: rest => (r, {| script := rest; ticks := ticks w |})
       end;
     calendars_get := fun _ w => (Ok (Some (js "Asia/Shanghai")), w);
     events_list := fun _ _ _ w => (Ok (Some []), w);
     events_insert := fun _ _ w =>
       (Ok (JObj [(js "id", JStr (js "ev1"));
                  (js "htmlLink", JStr (js "https://calendar.example/ev1"))]), w);
     events_update := fun _ _ _ w => (Ok (JObj [(js "id", JStr (js "ev1"))]), w);
     events_delete := fun _ eventId w =>
       match eventId with
       | JStr i => if str_eqb i (js "E404") then (Throw not_found, w)
                   else (Ok (JStr []), w)
       | _ => (Throw not_found, w)
       end;
     readFile := fun path w =>
       (Ok (if str_eqb path (js "assistant/instruction.txt")
            then js "You manage the calendar of the user." else js "{}"), w);
     getServerSession := fun w => (Ok (Some the_session), w);
     generateId := fun w =>
       (js "id-" ++ decimal (ticks w),
        {| script := script w; ticks := ticks w + 1 |});
     Date_now := fun w => (1748736000000, w) |}.

(** The state of a process that has served nothing yet. *)
Definition boot (answers : list (Res ChatCompletion)) : St :=
  {| world := {| script := answers; ticks := 0 |};
     conversationStore := ∅;
     assistantConfigPromise := None;
     console := [];
     streams := streams_created [];
     sent := [] |}.

Definition call (name : jsstring) (arguments : option jsstring) : ToolCallLike :=
  {| tc_id := Some (js "call_1");
     tc_function := {| fn_name := name; fn_arguments := arguments |} |}.

(** A completion whose single choice requests the given tool calls. *)
Definition requests_tools (calls : list ToolCallLike) : Res ChatCompletion :=
  Ok {| choices :=
          [ {| choice_message :=
                 Some {| am_content := None; am_tool_calls := Some calls;
                         am_function_call := None |};
               finish_reason := Some (js "tool_calls") |} ] |}.

(** A completion whose single choice is a text. *)
Definition says (text : jsstring) : Res ChatCompletion :=
  Ok {| choices :=
          [ {| choice_message :=
                 Some {| am_content := Some text; am_tool_calls := None;
                         am_function_call := None |};
               finish_reason := Some (js "stop") |} ] |}.

(** The answer of the range extractor when nothing can be inferred. *)
Definition no_range : Res ChatCompletion := says (js "{}").

End Demo.

(* ===================================================================== *)
(** * The event store of the client *)
(* ===================================================================== *)

(** [src/hooks/use-events.tsx]: the store behind the calendar view, with
    the events shown, the window on display and the ranges fetched so far.
    The store is read and written by one call at a time; the events route
    is a collaborator that answers each [fetch] with a response or fails,
    and a body that parses carries events of the shape [get_calendar]
    returns, an event id being a string or absent. *)
Module UseEvents.

Record State := {
  events : list EventInput;
  currentStart : jsstring;
  currentEnd : jsstring;
  cachedRanges : list TimeRange }.

(** The store as [create] builds it. *)
Definition initialState : State :=
  {| events := []; currentStart := []; currentEnd := []; cachedRanges := [] |}.

Definition setCurrentStart (v : jsstring) (st : State) : State :=
  {| events := events st; currentStart := v; currentEnd := currentEnd st;
     cachedRanges := cachedRanges st |}.
Definition setCurrentEnd (v : jsstring) (st : State) : State :=
  {| events := events st; currentStart := currentStart st; currentEnd := v;
     cachedRanges := cachedRanges st |}.
Definition setEvents (v : list EventInput) (st : State) : State :=
  {| events := v; currentStart := currentStart st; currentEnd := currentEnd st;
     cachedRanges := cachedRanges st |}.
Definition setCachedRanges (v : list TimeRange) (st : State) : State :=
  {| events := events st; currentStart := currentStart st;
     currentEnd := currentEnd st; cachedRanges := v |}.

(** [a <= b] on strings: the code units compared in order. *)
Fixpoint str_leb (a b : jsstring) : bool :=
  match a, b with
  | [], _ => true
  | _ :: _, [] => false
  | x :: a', y :: b' => (x <? y) || ((x =? y) && str_leb a' b')
  end.

(** [a === b] on two ids, each a string or [undefined]. *)
Definition id_eqb (a b : option jsstring) : bool :=
  match a, b with
  | None, None => true
  | Some x, Some y => str_eqb x y
  | _, _ => false
  end.

(** [Array.prototype.findIndex], with [None] for [-1]. *)
Fixpoint findIndex {A} (p : A -> bool) (l : list A) : option nat :=
  match l with
  | [] => None
  | x :: l' => if p x then Some O else S <$> findIndex p l'
  end.

(** The body of [newEvents.forEach]: the event replaces the first one with
    its id, or is added at the end. *)
Definition upsert (updatedEvents : list EventInput) (newEvent : EventInput)
  : list EventInput :=
  match findIndex (fun e => id_eqb (ei_id e) (ei_id newEvent)) updatedEvents with
  | Some index => <[index := newEvent]> updatedEvents
  | None => updatedEvents ++ [newEvent]
  end.

(** The first [set] of [refetchEvents]. *)
Definition mergeEvents (events newEvents : list EventInput) : list EventInput :=
  fold_left upsert newEvents events.

(** The second [set] of [refetchEvents]. *)
Definition rememberRange (start end_ : jsstring) (updatedRanges : list TimeRange)
  : list TimeRange :=
  if existsb (fun range => str_eqb (range_start range) start
                           && str_eqb (range_end range) end_) updatedRanges
  then updatedRanges
  else updatedRanges ++ [{| range_start := start; range_end := end_ |}].

Definition isRangeCached (start end_ : jsstring) (st : State) : bool :=
  existsb (fun range => str_leb (range_start range) start
                        && str_leb end_ (range_end range)) (cachedRanges st).

(** [start && end ? [{ start, end }] : cachedRanges.length > 0 ?
    cachedRanges : [{ start: currentStart, end: currentEnd }]] *)
Definition rangesToFetch (start end_ : option jsstring) (st : State)
  : list TimeRange :=
  match start, end_ with
  | Some ((_ :: _) as s), Some ((_ :: _) as e) =>
    [{| range_start := s; range_end := e |}]
  | _, _ =>
    match cachedRanges st with
    | _ :: _ => cachedRanges st
    | [] => [{| range_start := currentStart st; range_end := currentEnd st |}]
    end
  end.

Definition eventsUrl (range : TimeRange) : jsstring :=
  js "/api/calendar/events?start=" ++ range_start range
  ++ js "&end=" ++ range_end range.

(** What [fetch] resolves to: the status line, and what reading the body
    as text and as JSON gives.  [json] holds [data.events] when it can be
    spread, [None] when it cannot. *)
Record Response := {
  ok : bool;
  url : jsstring;
  status : Z;
  statusText : jsstring;
  text : Res jsstring;
  json : Res (option (list EventInput)) }.

(** The events route. *)
Class Network := {
  Net : Type;
  fetch : jsstring -> Net -> Res Response * Net }.

(** What [console.error] receives. *)
Inductive ConsoleError : Type :=
| FailedResponse (url : jsstring) (status : Z) (statusText body : jsstring)
    (requestedRange : TimeRange)
| FailedWith (error : Thrown).

Section Hook.
Context {N : Network}.

(** The page: the store, the network, the addresses fetched so far, the
    console and the toasts shown. *)
Record Page := {
  store : State;
  net : Net;
  fetched : list jsstring;
  consoleErrors : list ConsoleError;
  toasts : list jsstring }.

Definition set_store (st : State) (p : Page) : Page :=
  {| store := st; net := net p; fetched := fetched p;
     consoleErrors := consoleErrors p; toasts := toasts p |}.
Definition console_error (e : ConsoleError) (p : Page) : Page :=
  {| store := store p; net := net p; fetched := fetched p;
     consoleErrors := consoleErrors p ++ [e]; toasts := toasts p |}.
Definition toast (message : jsstring) (p : Page) : Page :=
  {| store := store p; net := net p; fetched := fetched p;
     consoleErrors := consoleErrors p; toasts := toasts p ++ [message] |}.

(** [await fetch(address)] *)
Definition do_fetch (address : jsstring) (p : Page) : Res Response * Page :=
  let '(r, n) := fetch address (net p) in
  (r, {| store := store p; net := n; fetched := fetched p ++ [address];
         consoleErrors := consoleErrors p; toasts := toasts p |}).

(** The [for] loop of [refetchEvents] over the ranges left, with the
    events collected so far: [Ok (Some newEvents)] at its end, [Ok None]
    when it returns from the function, [Throw] when it throws. *)
Fixpoint fetchRanges (ranges : list TimeRange) (newEvents : list EventInput)
    (p : Page) : Res (option (list EventInput)) * Page :=
  match ranges with
  | [] => (Ok (Some newEvents), p)
  | range :: rest =>
    match do_fetch (eventsUrl range) p with
    | (Throw error, p1) => (Throw error, p1)
    | (Ok response, p1) =>
      if negb (ok response) then
        let errorBody :=
          match text response with
          | Ok body => body
          | Throw _ => js "<failed to read response body>"
          end in
        (Ok None,
         toast (js "Failed to fetch events (" ++ decimal (status response) ++ js ")")
           (console_error
              (FailedResponse (url response) (status response)
                 (statusText response) errorBody range) p1))
      else
        match json response with
        | Throw error => (Throw error, p1)
        | Ok None => (Throw (TypeError (js "data.events is not iterable")), p1)
        | Ok (Some fetchedEvents) => fetchRanges rest (newEvents ++ fetchedEvents) p1
        end
    end
  end.

(** The route answers each of the ranges, in order and starting from the
    given network, with a response that is [ok] and whose body holds
    events: these bodies, and the network afterwards. *)
Inductive answers_all
  : list TimeRange -> Net -> list (list EventInput) -> Net -> Prop :=
| answers_none n : answers_all [] n [] n
| answers_next range rest n response n1 body bodies n2 :
    fetch (eventsUrl range) n = (Ok response, n1) ->
    ok response = true ->
    json response = Ok (Some body) ->
    answers_all rest n1 bodies n2 ->
    answers_all (range :: rest) n (body :: bodies) n2.

Definition refetchEvents (start end_ : option jsstring) (p : Page) : Page :=
  match fetchRanges (rangesToFetch start end_ (store p)) [] p with
  | (Throw error, p1) =>
    toast (js "Failed to fetch events") (console_error (FailedWith error) p1)
  | (Ok None, p1) => p1
  | (Ok (Some newEvents), p1) =>
    let p2 := set_store (setEvents (mergeEvents (events (store p1)) newEvents)
                           (store p1)) p1 in
    match start, end_ with
    | Some ((_ :: _) as s), Some ((_ :: _) as e) =>
      set_store (setCachedRanges (rememberRange s e (cachedRanges (store p2)))
                   (store p2)) p2
    | _, _ => p2
    end
  end.

End Hook.

End UseEvents.

(** An events route for the examples: it answers from a script, one
    response for each request, and fails when the script is used up. *)
Module DemoClient.
Import UseEvents.

#[export] Instance network : Network :=
  {| Net := list (Res Response);
     fetch := fun _ script =>
       match script with
       | [] => (Throw Demo.connection_error, [])
       | r :: rest => (r, rest)
       end |}.

Definition event (id title : jsstring) : EventInput :=
  {| ei_id := Some id; ei_title := title;
     ei_start := Some (js "2025-06-01T09:00:00.000Z");
     ei_end := Some (js "2025-06-01T10:00:00.000Z");
     ei_allDay := false; ei_description := []; ei_attendees := [];
     ei_recurrence := []; ei_hangoutLink := []; ei_videoConferenceLink := [];
     ei_responseStatus := Some (js "confirmed") |}.

(** A response with status 200 whose body holds the given events. *)
Definition answers (fetchedEvents : list EventInput) : Res Response :=
  Ok {| ok := true; url := js "/api/calendar/events"; status := 200;
        statusText := js "OK"; text := Ok [];
        json := Ok (Some fetchedEvents) |}.

(** A response with status 401 and no readable body. *)
Definition refuses : Res Response :=
  Ok {| ok := false; url := js "/api/calendar/events"; status := 401;
        statusText := js "Unauthorized"; text := Throw ThrownPrimitive;
        json := Throw (SyntaxError (js "Unexpected end of JSON input")) |}.

Definition page (st : State) (script : list (Res Response)) : Page :=
  {| store := st; net := script; fetched := []; consoleErrors := [];
     toasts := [] |}.

Definition june : TimeRange :=
  {| range_start := js "2025-06-01"; range_end := js "2025-07-01" |}.
Definition july : TimeRange :=
  {| range_start := js "2025-07-01"; range_end := js "2025-08-01" |}.

End DemoClient.


(* ===================================================================== *)
(** * Further vocabulary *)
(* ===================================================================== *)

(** The requests that change the calendar. *)
Definition is_write_request (o : Outbound) : bool :=
  match o with
  | EventsInsert _ _ | EventsUpdate _ _ _ | EventsDelete _ _ => true
  | _ => false
  end.

(** The start or the end of an event as a request should carry it: a time
    zone, and not both a moment and a day. *)
Definition well_timed (t : EventTime) : Prop :=
  truthy (et_timeZone t) = true
  /\ (et_dateTime t = JUndefined \/ et_date t = JUndefined).

(** The same, with one of the two given, as a string. *)
Definition timed (t : EventTime) : Prop :=
  truthy (et_timeZone t) = true
  /\ ((et_dateTime t = JUndefined /\ exists day, et_date t = JStr day)
      \/ (et_date t = JUndefined /\ exists moment, et_dateTime t = JStr moment)).

Section Requests.
Context {B : Builtins}.

(** What a request to the calendar provider should look like. *)
Definition well_formed (o : Outbound) : Prop :=
  match o with
  | CalendarsGet calendarId => calendarId = js "primary"
  | EventsList calendarId timeMin timeMax =>
    truthy calendarId = true
    /\ exists t0 t1, timeMin = toISOString t0 /\ timeMax = toISOString t1
  | EventsInsert calendarId requestBody =>
    calendarId = js "primary"
    /\ timed (body_start requestBody) /\ timed (body_end requestBody)
    /\ et_timeZone (body_start requestBody) = et_timeZone (body_end requestBody)
    /\ exists attendees, body_attendees requestBody = Some attendees
         /\ Forall (fun a => truthy a = true) attendees
  | EventsUpdate calendarId _ requestBody =>
    calendarId = js "primary"
    /\ well_timed (body_start requestBody) /\ well_timed (body_end requestBody)
    /\ et_timeZone (body_start requestBody) = et_timeZone (body_end requestBody)
  | EventsDelete calendarId _ => calendarId = js "primary"
  | ChatCreate _ | ReadFile _ => False
  end.

End Requests.

(** The thread id announced to the client is left as it was. *)
Definition same_thread {B : Builtins} {C : Collaborators} (s s' : St) : Prop :=
  emitted (threadIdStream (streams s')) = emitted (threadIdStream (streams s)).

(** The platform of the examples when nobody is signed in. *)
Module DemoSignedOut.

#[export] Instance collaborators : Collaborators :=
  {| World := Demo.DemoWorld;
     chat_completions_create := @chat_completions_create Demo.collaborators;
     calendars_get := @calendars_get Demo.collaborators;
     events_list := @events_list Demo.collaborators;
     events_insert := @events_insert Demo.collaborators;
     events_update := @events_update Demo.collaborators;
     events_delete := @events_delete Demo.collaborators;
     readFile := @readFile Demo.collaborators;
     getServerSession := fun w => (Ok None, w);
     generateId := @generateId Demo.collaborators;
     Date_now := @Date_now Demo.collaborators |}.

Definition boot : St :=
  {| world := {| Demo.script := []; Demo.ticks := 0 |};
     conversationStore := ∅;
     assistantConfigPromise := None;
     console := [];
     streams := streams_created [];
     sent := [] |}.

End DemoSignedOut.

(** The platform of the examples when the lookup of the primary calendar
    fails. *)
Module DemoLookupFails.

#[export] Instance collaborators : Collaborators :=
  {| World := Demo.DemoWorld;
     chat_completions_create := @chat_completions_create Demo.collaborators;
     calendars_get := fun _ w => (Throw Demo.not_found, w);
     events_list := @events_list Demo.collaborators;
     events_insert := @events_insert Demo.collaborators;
     events_update := @events_update Demo.collaborators;
     events_delete := @events_delete Demo.collaborators;
     readFile := @readFile Demo.collaborators;
     getServerSession := @getServerSession Demo.collaborators;
     generateId := @generateId Demo.collaborators;
     Date_now := @Date_now Demo.collaborators |}.

Definition boot : St :=
  {| world := {| Demo.script := []; Demo.ticks := 0 |};
     conversationStore := ∅;
     assistantConfigPromise := None;
     console := [];
     streams := streams_created [];
     sent := [] |}.

End DemoLookupFails.

Section Answers.
Context {C : Collaborators}.

(** The error with which a collaborator answers a request in a given
    world, when it fails it. *)
Definition failure_of (o : Outbound) (w : World) : option Thrown :=
  let failed {A} (r : Res A) : option Thrown :=
    match r with Throw e => Some e | Ok _ => None end in
  match o with
  | ChatCreate req => failed (fst (chat_completions_create req w))
  | CalendarsGet calendarId => failed (fst (calendars_get calendarId w))
  | EventsList calendarId timeMin timeMax =>
    failed (fst (events_list calendarId timeMin timeMax w))
  | EventsInsert calendarId requestBody =>
    failed (fst (events_insert calendarId requestBody w))
  | EventsUpdate calendarId eventId requestBody =>
    failed (fst (events_update calendarId eventId requestBody w))
  | EventsDelete calendarId eventId =>
    failed (fst (events_delete calendarId eventId w))
  | ReadFile path => failed (fst (readFile path w))
  end.

(** The world after a collaborator has answered a request. *)
Definition served (w : World) (o : Outbound) : World :=
  match o with
  | ChatCreate req => snd (chat_completions_create req w)
  | CalendarsGet calendarId => snd (calendars_get calendarId w)
  | EventsList calendarId timeMin timeMax =>
    snd (events_list calendarId timeMin timeMax w)
  | EventsInsert calendarId requestBody =>
    snd (events_insert calendarId requestBody w)
  | EventsUpdate calendarId eventId requestBody =>
    snd (events_update calendarId eventId requestBody w)
  | EventsDelete calendarId eventId => snd (events_delete calendarId eventId w)
  | ReadFile path => snd (readFile path w)
  end.

(** The world after the requests of a list, answered in order. *)
Definition world_after (requests : list Outbound) (w : World) : World :=
  fold_left served requests w.

End Answers.

(** The locals a round ends with, whichever way it ends. *)
Definition locals_of (flow : Flow) : Locals :=
  match flow with Continue l | Break l => l end.

(** The messages that carry the result of a tool call. *)
Definition is_result (m : Message) : bool :=
  match m with MTool _ _ | MFunction _ _ => true | _ => false end.

Section Conversations.
Context {B : Builtins} {C : Collaborators}.

(** Every request the loop sent to the model carries, after the system
    message, a history of which [P] holds. *)
Definition asks_with (P : list Message -> Prop) (s s' : St) : Prop :=
  exists extra,
    sent s' = sent s ++ extra
    /\ Forall (fun o => forall req,
                 o = ChatCreate req -> req_model req = ASSISTANT_MODEL ->
                 exists system h, req_messages req = MSystem system :: h /\ P h)
              extra.

(** Nothing was appended to the text stream. *)
Definition same_text (s s' : St) : Prop :=
  emitted (textStream (streams s')) = emitted (textStream (streams s)).

End Conversations.

(** In every stored history each request for tools is answered. *)
Definition store_answered {B : Builtins} {C : Collaborators} (s : St) : Prop :=
  forall tid h, conversationStore s !! tid = Some h -> answered h = true.

(** Requests were sent, exactly [k] of them to the assistant model. *)
Definition asked {B : Builtins} {C : Collaborators} (k : nat) (s s' : St) : Prop :=
  exists extra,
    sent s' = sent s ++ extra
    /\ length (List.filter is_assistant_request extra) = k.

(** A step without a word to the user or to the assistant model. *)
Definition silent {B : Builtins} {C : Collaborators} (s s' : St) : Prop :=
  same_text s s' /\ asked 0 s s'.

(** The range announced to the client is left as it was. *)
Definition same_range {C : Collaborators} (s s' : St) : Prop :=
  emitted (refetchRangeStream (streams s')) = emitted (refetchRangeStream (streams s)).

(** Nothing but the console and the collaborators has changed. *)
Definition only_logged {C : Collaborators} (s s' : St) : Prop :=
  sent s' = sent s /\ streams s' = streams s
  /\ conversationStore s' = conversationStore s
  /\ assistantConfigPromise s' = assistantConfigPromise s.

(* ===================================================================== *)
(** * Properties of the clarification gate *)
(* ===================================================================== *)

Arguments js : simpl never.
Arguments buildClarificationPrompt : simpl never.

Section GateFacts.
Context {B : Builtins}.

Lemma truthy_and (a b : JSValue) :
  truthy (if truthy a then b else a) = truthy a && truthy b.
Proof. destruct (truthy a) eqn:E; simpl; congruence. Qed.

Lemma and_then_ok (a b : JSValue) :
  and_then (Ok a) (Ok b) = Ok (if truthy a then b else a).
Proof. unfold and_then, mbind, Res_bind. destruct (truthy a); reflexivity. Qed.

(** The callback of the gate computes completeness whenever the payload
    can be read. *)
Lemma sufficientArgs_readable call :
  argsReadable call = true -> sufficientArgs call = Ok (argsComplete call).
Proof.
  unfold argsReadable, sufficientArgs, argsComplete, requiredFields.
  set (args := parseArgs _). set (name := fn_name _).
  intros Hr.
  pose (get := fun k => match args with
                        | JObj props => lookup_prop k props
                        | _ => JUndefined
                        end).
  assert (Hp : forall k, prop args k = Ok (get k)).
  { intros k. unfold get. destruct args; simpl in *; try discriminate; reflexivity. }
  assert (Ht : forall k, fieldTruthy args k = truthy (get k)).
  { intros k. unfold get. destruct args; simpl in *; try discriminate; reflexivity. }
  clearbody get.
  destruct (str_eqb name (js "schedule_event")).
  { rewrite !Hp, !and_then_ok. simpl. rewrite !Ht, !truthy_and, andb_true_r, andb_assoc.
    reflexivity. }
  destruct (str_eqb name (js "edit_event")).
  { rewrite !Hp, !and_then_ok. simpl. rewrite !Ht, !truthy_and, andb_true_r, !andb_assoc.
    reflexivity. }
  destruct (str_eqb name (js "delete_event")).
  { rewrite !Hp. simpl. rewrite !Ht, andb_true_r. reflexivity. }
  reflexivity.
Qed.

(** A call that is not a mutation is never inspected. *)
Lemma sufficientArgs_not_mutating call :
  isMutating call = false -> sufficientArgs call = Ok true.
Proof.
  unfold isMutating, includes, mutationTools, sufficientArgs. simpl.
  intros H. repeat (apply orb_false_elim in H; destruct H as [? H]).
  repeat match goal with E : str_eqb _ _ = false |- _ => rewrite E; clear E end.
  reflexivity.
Qed.

Lemma argsComplete_readable call :
  isMutating call = true -> argsComplete call = true -> argsReadable call = true.
Proof.
  unfold isMutating, includes, mutationTools, argsComplete, argsReadable, requiredFields.
  simpl. intros Hm.
  destruct (str_eqb _ (js "schedule_event")); [|
  destruct (str_eqb _ (js "edit_event")); [|
  destruct (str_eqb _ (js "delete_event")); [| discriminate Hm]]];
  destruct (parseArgs _); simpl; congruence.
Qed.

Lemma every_sufficient_true calls :
  Forall (fun c => isMutating c = true -> argsComplete c = true) calls ->
  every sufficientArgs calls = Ok true.
Proof.
  induction 1 as [| c calls Hc _ IH]; [reflexivity |].
  simpl. destruct (isMutating c) eqn:Em.
  - rewrite sufficientArgs_readable by (apply argsComplete_readable; auto).
    rewrite Hc by reflexivity. exact IH.
  - rewrite sufficientArgs_not_mutating by assumption. exact IH.
Qed.

Lemma every_sufficient_false pre c post :
  Forall (fun c' => argsReadable c' = true) pre ->
  argsReadable c = true -> argsComplete c = false ->
  every sufficientArgs (pre ++ c :: post) = Ok false.
Proof.
  intros Hpre Hr Hc. induction Hpre as [| c' pre Hc' _ IH]; simpl.
  - rewrite sufficientArgs_readable by assumption. rewrite Hc. reflexivity.
  - rewrite sufficientArgs_readable by assumption.
    destruct (argsComplete c'); simpl; [exact IH | reflexivity].
Qed.

(** A mutating call whose required keys all exist has a payload that can
    be read. *)
Lemma argsPresent_readable call :
  isMutating call = true -> argsPresent call = true -> argsReadable call = true.
Proof.
  unfold isMutating, includes, mutationTools, argsPresent, argsReadable, requiredFields.
  simpl. intros Hm.
  destruct (str_eqb _ (js "schedule_event")); [|
  destruct (str_eqb _ (js "edit_event")); [|
  destruct (str_eqb _ (js "delete_event")); [| discriminate Hm]]];
  destruct (parseArgs _); simpl; congruence.
Qed.

Lemma hasMutationTool_spec calls :
  existsb (includes mutationTools)
          (map (fun call => fn_name (tc_function call)) calls)
  = existsb isMutating calls.
Proof. induction calls; simpl; [reflexivity | rewrite IHcalls; reflexivity]. Qed.

End GateFacts.

(** C1. A question that matches one of the no-action phrases defers every
    list of requested tool calls that contains a mutating call, whatever
    the arguments of the calls and whatever range was extracted; a list
    without a mutating call is never deferred, even for such a question. *)
Theorem gate_no_action_phrase `{Builtins} question extractedRange calls :
  some_test noActionPatterns question = true ->
  (Exists (fun c => isMutating c = true) calls ->
   shouldAskClarificationBeforeMutation question extractedRange calls = Ok true)
  /\ (Forall (fun c => isMutating c = false) calls ->
      shouldAskClarificationBeforeMutation question extractedRange calls = Ok false).
Proof.
  intros Hq. unfold shouldAskClarificationBeforeMutation.
  rewrite hasMutationTool_spec, Hq. split; intros Hc.
  - assert (E : existsb isMutating calls = true).
    { apply existsb_exists. apply List.Exists_exists in Hc. exact Hc. }
    rewrite E. reflexivity.
  - assert (E : existsb isMutating calls = false).
    { apply not_true_is_false. intros E. apply existsb_exists in E.
      destruct E as (c & Hin & Hm). rewrite List.Forall_forall in Hc.
      rewrite (Hc c Hin) in Hm. discriminate. }
    rewrite E. reflexivity.
Qed.

Lemma gate_no_action_phrase_witness :
  shouldAskClarificationBeforeMutation (B := Demo.builtins)
    (js "先不要操作，帮我安排复习") None
    [Demo.call (js "delete_event") (Some (Demo.json_text [(js "event_id", js "E123")]))]
  = Ok true
  /\ shouldAskClarificationBeforeMutation (B := Demo.builtins)
       (js "先不要操作，帮我安排复习") None
       [Demo.call (js "get_calendar") None]
     = Ok false.
Proof.
  split.
  - apply (proj1 (gate_no_action_phrase (js "先不要操作，帮我安排复习") None _ eq_refl)).
    constructor. reflexivity.
  - apply (proj2 (gate_no_action_phrase (js "先不要操作，帮我安排复习") None _ eq_refl)).
    constructor; [reflexivity | constructor].
Defined.

(** C2, as amended. When the question matches no no-action phrase and every
    mutating call carries a truthy value for each of its required fields,
    the gate does not defer, whatever else the question says and whatever
    range was extracted. *)
Theorem gate_complete_arguments_execute `{Builtins} question extractedRange calls :
  some_test noActionPatterns question = false ->
  Forall (fun c => isMutating c = true -> argsComplete c = true) calls ->
  shouldAskClarificationBeforeMutation question extractedRange calls = Ok false.
Proof.
  intros Hq Hc. unfold shouldAskClarificationBeforeMutation.
  rewrite Hq, (every_sufficient_true calls Hc).
  destruct (negb _); reflexivity.
Qed.

Lemma gate_complete_arguments_execute_witness :
  shouldAskClarificationBeforeMutation (B := Demo.builtins)
    (js "schedule the review sometime soon") None
    [Demo.call (js "schedule_event")
       (Some (Demo.json_text
                [(js "start_time", js "2025-06-01T00:00:00.000Z");
                 (js "end_time", js "2025-06-08T00:00:00.000Z");
                 (js "summary", js "Review")]))]
  = Ok false.
Proof.
  apply gate_complete_arguments_execute; [reflexivity |].
  constructor; [reflexivity | constructor].
Defined.

(** C2 as stated fails twice: a no-action phrase defers a deletion whose
    identifier is given, and a scheduling request whose fields are all
    present is deferred because its summary is the empty string. *)
Lemma gate_complete_arguments_counterexample :
  (let calls := [Demo.call (js "delete_event")
                   (Some (Demo.json_text [(js "event_id", js "E123")]))] in
   Forall (fun c => isMutating c = true ->
                    argsPresent (B := Demo.builtins) c = true
                    /\ argsComplete (B := Demo.builtins) c = true) calls
   /\ shouldAskClarificationBeforeMutation (B := Demo.builtins)
        (js "don't execute anything yet") None calls = Ok true)
  /\ (let calls := [Demo.call (js "schedule_event")
                      (Some (Demo.json_text
                               [(js "start_time", js "2025-06-01T00:00:00.000Z");
                                (js "end_time", js "2025-06-08T00:00:00.000Z");
                                (js "summary", js "")]))] in
      Forall (fun c => isMutating c = true ->
                       argsPresent (B := Demo.builtins) c = true) calls
      /\ some_test noActionPatterns (js "schedule the review sometime soon") = false
      /\ shouldAskClarificationBeforeMutation (B := Demo.builtins)
           (js "schedule the review sometime soon") None calls = Ok true).
Proof.
  split; cbv zeta.
  - split; [| reflexivity]. constructor; [| constructor]. intros _. split; reflexivity.
  - split; [| split; reflexivity]. constructor; [| constructor]. reflexivity.
Qed.

(** C10. Sufficiency is truthiness, not presence: a mutating call whose
    required keys all exist but one of whose values is falsy is classified
    as insufficient, and with a question that expresses scheduling intent
    and either an ambiguous time or no extracted range, a list that
    contains it is deferred (the payloads of the calls before it being
    readable, so that the gate gets to it). *)
Theorem gate_truthiness_not_presence `{Builtins} question extractedRange pre c post :
  isMutating c = true ->
  argsPresent c = true ->
  argsComplete c = false ->
  Forall (fun c' => argsReadable c' = true) pre ->
  some_test schedulingIntentPatterns question = true ->
  some_test ambiguousPatterns question = true \/ extractedRange = None ->
  sufficientArgs c = Ok false
  /\ shouldAskClarificationBeforeMutation question extractedRange (pre ++ c :: post)
     = Ok true.
Proof.
  intros Hm Hp Hc Hpre Hi Ha.
  pose proof (argsPresent_readable c Hm Hp) as Hr.
  split.
  - rewrite sufficientArgs_readable by assumption. rewrite Hc. reflexivity.
  - unfold shouldAskClarificationBeforeMutation.
    rewrite hasMutationTool_spec.
    assert (E : existsb isMutating (pre ++ c :: post) = true).
    { apply existsb_exists. exists c. split; [| exact Hm].
      apply in_or_app. right. left. reflexivity. }
    rewrite E. simpl negb. cbv iota.
    destruct (some_test noActionPatterns question); [reflexivity |].
    rewrite (every_sufficient_false pre c post Hpre Hr Hc).
    unfold mbind, Res_bind. rewrite Hi.
    destruct Ha as [-> | ->]; cbn [negb andb orb]; [reflexivity |].
    rewrite orb_true_r. reflexivity.
Qed.

Lemma gate_truthiness_not_presence_witness :
  sufficientArgs (B := Demo.builtins)
    (Demo.call (js "delete_event")
       (Some (Demo.json_text [(js "event_id", js "")]))) = Ok false
  /\ shouldAskClarificationBeforeMutation (B := Demo.builtins)
       (js "安排一下复习") None
       [Demo.call (js "get_calendar") None;
        Demo.call (js "schedule_event")
          (Some (Demo.json_text
                   [(js "start_time", js "2025-06-01T00:00:00.000Z");
                    (js "end_time", js "2025-06-08T00:00:00.000Z");
                    (js "summary", js "")]));
        Demo.call (js "delete_event") (Some (js "null"))]
     = Ok true.
Proof.
  split.
  - set (c := Demo.call (js "delete_event") _).
    apply (proj1 (gate_truthiness_not_presence (H := Demo.builtins)
                    (js "book it") None [] c []
                    eq_refl eq_refl eq_refl (List.Forall_nil _) eq_refl
                    (or_intror eq_refl))).
  - set (c := Demo.call (js "schedule_event") _).
    apply (proj2 (gate_truthiness_not_presence (H := Demo.builtins)
                    (js "安排一下复习") None
                    [Demo.call (js "get_calendar") None] c
                    [Demo.call (js "delete_event") (Some (js "null"))]
                    eq_refl eq_refl eq_refl
                    (List.Forall_cons _ (Demo.call (js "get_calendar") None) [] eq_refl
                       (List.Forall_nil _)) eq_refl
                    (or_intror eq_refl))).
Defined.

(** The payload [null] of a mutating call makes the gate throw when it
    gets to it: [args.event_id] is read from [null]. *)
Lemma gate_throws_on_null_payload :
  shouldAskClarificationBeforeMutation (B := Demo.builtins)
    (js "book it") None [Demo.call (js "delete_event") (Some (js "null"))]
  = Throw (TypeError (js "Cannot read properties of null")).
Proof. reflexivity. Qed.

(* ===================================================================== *)
(** * Frames: what a computation leaves alone *)
(* ===================================================================== *)

(** A relation between the state before and the state after, closed under
    sequencing, is kept by a computation as soon as its primitive steps
    keep it; the lemmas of this section carry that through the dispatcher,
    the extractor, the configuration cache and the loop. *)
Section Frame.
Context {B : Builtins} {C : Collaborators}.
Variable R : St -> St -> Prop.
Hypothesis R_refl : forall s, R s s.
Hypothesis R_trans : forall s1 s2 s3, R s1 s2 -> R s2 s3 -> R s1 s3.

Lemma keeps_ret {A} (a : A) : keeps R (mret a).
Proof. intros s. apply R_refl. Qed.

Lemma keeps_lift {A} (r : Res A) : keeps R (lift r).
Proof. intros s. apply R_refl. Qed.

Lemma keeps_throw {A} (e : Thrown) : keeps R (throw (A := A) e).
Proof. intros s. apply R_refl. Qed.

Lemma keeps_bind {A A'} (m : M A) (f : A -> M A') :
  keeps R m -> (forall a, keeps R (f a)) -> keeps R (m ≫= f).
Proof.
  intros Hm Hf s. unfold mbind, M_bind. specialize (Hm s).
  destruct (m s) as [[a | e] s']; simpl in *; [| exact Hm].
  eapply R_trans; [exact Hm | apply Hf].
Qed.

Lemma keeps_try_catch {A} (m : M A) (h : Thrown -> M A) :
  keeps R m -> (forall e, keeps R (h e)) -> keeps R (try_catch m h).
Proof.
  intros Hm Hh s. unfold try_catch. specialize (Hm s).
  destruct (m s) as [[a | e] s']; simpl in *; [exact Hm |].
  eapply R_trans; [exact Hm | apply Hh].
Qed.

Lemma keeps_try_finally {A} (m : M A) (cleanup : St -> St) :
  keeps R m -> (forall s, R s (cleanup s)) -> keeps R (try_finally m cleanup).
Proof.
  intros Hm Hc s. unfold try_finally. specialize (Hm s).
  destruct (m s) as [r s']; simpl in *. eapply R_trans; [exact Hm | apply Hc].
Qed.

Hypothesis R_world : forall s w, R s (set_world w s).
Hypothesis R_cfg : forall s c, R s (set_assistantConfigPromise c s).
Hypothesis R_request : forall o s w,
  is_assistant_request o = false ->
  R s (set_world w (set_sent (sent s ++ [o]) s)).
Hypothesis R_log : forall e s,
  is_tool_result e = false -> R s (set_console (console s ++ [e]) s).
Hypothesis R_status : forall label, keeps R (status_update label).
Hypothesis R_text : forall text, keeps R (textStream_append text).
Hypothesis R_gui : forall op, keeps R (gui_emit op).
Hypothesis R_range : forall r, keeps R (refetchRangeStream_update r).

Lemma keeps_request {A} (o : Outbound) (f : World -> Res A * World) :
  is_assistant_request o = false -> keeps R (request o f).
Proof.
  intros Ho s. unfold request. destruct (f (world s)) as [r w]. simpl.
  apply R_request, Ho.
Qed.

Lemma keeps_log (e : LogEntry) : is_tool_result e = false -> keeps R (logAIInteraction e).
Proof. intros He s. apply R_log, He. Qed.

Lemma keeps_now : keeps R now.
Proof. intros s. unfold now. destruct (Date_now (world s)). apply R_world. Qed.

Lemma keeps_fresh_id : keeps R fresh_id.
Proof. intros s. unfold fresh_id. destruct (generateId (world s)). apply R_world. Qed.

Lemma keeps_request_session : keeps R request_session.
Proof.
  intros s. unfold request_session. destruct (getServerSession (world s)).
  apply R_world.
Qed.

Lemma keeps_store_get tid : keeps R (store_get tid).
Proof. intros s. apply R_refl. Qed.

Lemma keeps_set_cfg c : keeps R (modify (set_assistantConfigPromise c)).
Proof. intros s. apply R_cfg. Qed.

Ltac keep_step :=
  first
    [ apply keeps_ret | apply keeps_lift | apply keeps_throw
    | apply keeps_now | apply keeps_fresh_id | apply keeps_request_session
    | apply keeps_store_get | apply keeps_set_cfg
    | apply R_status | apply R_text | apply R_gui | apply R_range
    | apply keeps_request; reflexivity
    | apply keeps_log; reflexivity
    | apply keeps_bind; [| intros ?]
    | apply keeps_try_catch; [| intros ?]
    | match goal with
      | |- keeps R (if ?b then _ else _) => destruct b
      | |- keeps R (match ?x with _ => _ end) => destruct x
      end ].

Ltac keep := cbv zeta; repeat keep_step.

Lemma keeps_resolvePrimaryCalendarTimeZone : keeps R resolvePrimaryCalendarTimeZone.
Proof. unfold resolvePrimaryCalendarTimeZone. keep. Qed.

Lemma keeps_executeCalendarTool_try name args userEmail :
  keeps R (executeCalendarTool_try name args userEmail).
Proof.
  unfold executeCalendarTool_try.
  repeat first [ apply keeps_resolvePrimaryCalendarTimeZone | keep_step ].
Qed.

Lemma keeps_executeCalendarTool toolCall userEmail :
  keeps R (executeCalendarTool toolCall userEmail).
Proof.
  unfold executeCalendarTool.
  repeat first [ apply keeps_executeCalendarTool_try | keep_step ].
Qed.

Lemma keeps_validateRange content : keeps R (validateRange content).
Proof. unfold validateRange. keep. Qed.

Lemma keeps_extractTimeRangeFromQuestion question :
  keeps R (extractTimeRangeFromQuestion question).
Proof.
  unfold extractTimeRangeFromQuestion.
  repeat first [ apply keeps_validateRange | keep_step ].
Qed.

Lemma keeps_readAll paths : keeps R (readAll paths).
Proof. induction paths; simpl; repeat first [ apply IHpaths | keep_step ]. Qed.

Lemma keeps_loadAssistantConfig : keeps R loadAssistantConfig.
Proof.
  intros s. unfold loadAssistantConfig.
  destruct (assistantConfigPromise s); [apply R_refl |].
  revert s. change (keeps R (try_catch
    (texts ← (rs ← readAll (js "assistant/instruction.txt"
                 :: map (fun f => js "assistant/functions/" ++ f) functionFiles);
              lift (all_ok rs));
     match texts with
     | instructions :: functions =>
       tools ← lift (all_ok (map (fun fn =>
                 match JSON_parse fn with
                 | Some v => Ok v
                 | None => Throw (SyntaxError (js "Unexpected token"))
                 end) functions));
       let cfg := {| instructions := instructions; tools := tools |} in
       modify (set_assistantConfigPromise (Some cfg));;
       mret cfg
     | [] => throw (TypeError (js "undefined is not iterable"))
     end)
    (fun error => modify (set_assistantConfigPromise None);; throw error))).
  repeat first [ apply keeps_readAll | keep_step ].
Qed.

Lemma keeps_prepare question tid : keeps R (prepare question tid).
Proof.
  unfold prepare.
  repeat first [ apply keeps_extractTimeRangeFromQuestion
               | apply keeps_loadAssistantConfig | keep_step ].
Qed.

Lemma keeps_conversation_failed error : keeps R (conversation_failed error).
Proof. unfold conversation_failed. keep. Qed.

(** The steps only the loop takes: the completion request of a round, the
    report of a tool result and the update of the mutation counter. *)
Hypothesis R_assistant_request : forall o s w,
  is_assistant_request o = true ->
  R s (set_world w (set_sent (sent s ++ [o]) s)).
Hypothesis R_tool_result : forall e s, R s (set_console (console s ++ [e]) s).
Hypothesis R_jobs : forall n, keeps R (refetchJobsStream_update n).

Lemma keeps_askModel cfg session round l : keeps R (askModel cfg session round l).
Proof.
  unfold askModel. repeat keep_step.
  intros s. unfold request. destruct (chat_completions_create _ _). simpl.
  apply R_assistant_request. reflexivity.
Qed.

Lemma keeps_runToolCall round modern session toolCall l :
  keeps R (runToolCall round modern session toolCall l).
Proof.
  unfold runToolCall. cbv zeta.
  repeat first [ apply keeps_executeCalendarTool | apply R_jobs
               | (intros s; apply R_tool_result) | keep_step ].
Qed.

Lemma keeps_runToolCalls round modern session calls :
  forall l, keeps R (runToolCalls round modern session calls l).
Proof.
  induction calls as [| c calls IH]; intros l; simpl; [apply keeps_ret |].
  apply keeps_bind; [apply keeps_runToolCall | intros l'; apply IH].
Qed.

Lemma keeps_react question range session round l completion :
  keeps R (react question range session round l completion).
Proof.
  unfold react.
  repeat first [ apply keeps_runToolCalls | keep_step ].
Qed.

Lemma keeps_rounds question range cfg session n :
  forall round l, keeps R (rounds question range cfg session n round l).
Proof.
  induction n as [| n IH]; intros round l; simpl; [apply keeps_ret |].
  unfold round_body.
  repeat first [ apply IH | apply keeps_askModel | apply keeps_react | keep_step ].
Qed.

(** The steps only a whole request takes: the creation and the completion
    of the streams, and the write to the thread store. *)
Hypothesis R_created : forall tid, keeps R (modify (set_streams (streams_created tid))).
Hypothesis R_done : forall s, R s (set_streams (streams_done (streams s)) s).
Hypothesis R_persist : forall tid l, keeps R (persist tid l).

Lemma keeps_conversation question tid session :
  keeps R (conversation question tid session).
Proof.
  unfold conversation.
  repeat first [ apply keeps_prepare | apply keeps_rounds | apply R_persist
               | keep_step ].
Qed.

Lemma keeps_detached question tid session :
  keeps R (detached question tid session).
Proof.
  unfold detached. apply keeps_try_finally; [| apply R_done].
  apply keeps_try_catch; [apply keeps_conversation | apply keeps_conversation_failed].
Qed.

Lemma keeps_submitMessage question threadId :
  keeps R (submitMessage question threadId).
Proof.
  unfold submitMessage.
  repeat first [ apply keeps_detached | apply R_created | keep_step ].
Qed.

End Frame.

(* ===================================================================== *)
(** * Properties of the tool dispatcher *)
(* ===================================================================== *)

Section ReturnRules.
Context {B : Builtins} {C : Collaborators}.

Lemma returns_ret {A} (a : A) (Q : A -> Prop) : Q a -> returns (mret a) Q.
Proof. intros H s a' s' E. injection E as <- _. exact H. Qed.

Lemma returns_bind {A A'} (m : M A) (f : A -> M A') (Q : A' -> Prop) :
  (forall a, returns (f a) Q) -> returns (m ≫= f) Q.
Proof.
  intros Hf s a' s'. unfold mbind, M_bind.
  destruct (m s) as [[a | e] s1]; [apply Hf | discriminate].
Qed.

Lemma total_ret {A} (a : A) : total (mret a).
Proof. intros s. exists a. reflexivity. Qed.

Lemma total_bind {A A'} (m : M A) (f : A -> M A') :
  total m -> (forall a, total (f a)) -> total (m ≫= f).
Proof.
  intros Hm Hf s. unfold mbind, M_bind. destruct (Hm s) as [a Ha].
  destruct (m s) as [r s1]. simpl in Ha. subst r. apply Hf.
Qed.

Lemma total_try_catch {A} (m : M A) (h : Thrown -> M A) :
  (forall e, total (h e)) -> total (try_catch m h).
Proof.
  intros Hh s. unfold try_catch.
  destruct (m s) as [[a | e] s1]; [exists a; reflexivity | apply Hh].
Qed.

Lemma total_modify (f : St -> St) : total (modify f).
Proof. intros s. exists tt. reflexivity. Qed.

Lemma total_fresh_id : total fresh_id.
Proof. intros s. unfold fresh_id. destruct (generateId (world s)). eexists. reflexivity. Qed.

Lemma executeCalendarTool_try_flags name args userEmail :
  returns (executeCalendarTool_try name args userEmail) (well_flagged name).
Proof.
  unfold executeCalendarTool_try, well_flagged, includes, knownTools, mutationTools.
  cbn [existsb].
  destruct (str_eqb name (js "get_calendar")) eqn:E1;
  [| destruct (str_eqb name (js "schedule_event")) eqn:E2;
  [| destruct (str_eqb name (js "edit_event")) eqn:E3;
  [| destruct (str_eqb name (js "delete_event")) eqn:E4]]];
  repeat (apply returns_bind; intros ?); apply returns_ret; cbn;
  repeat split; intros; try discriminate; try reflexivity.
Qed.

(** An unknown name reaches the end of the [try] block. *)
Lemma executeCalendarTool_try_unsupported name args userEmail s :
  includes knownTools name = false ->
  fst (executeCalendarTool_try name args userEmail s)
  = Ok {| output := OutError (js "Unsupported tool: " ++ name); didMutate := false |}.
Proof.
  unfold includes, knownTools, executeCalendarTool_try. cbn [existsb].
  intros H. repeat (apply orb_false_elim in H; destruct H as [? H]).
  repeat match goal with E : str_eqb _ _ = false |- _ => rewrite E; clear E end.
  reflexivity.
Qed.

(** The dispatcher never throws. *)
Lemma executeCalendarTool_never_throws toolCall userEmail :
  total (executeCalendarTool toolCall userEmail).
Proof.
  unfold executeCalendarTool. cbv zeta.
  apply total_bind; [apply total_modify | intros _].
  apply total_try_catch. intros e.
  apply total_bind; [apply total_modify | intros _].
  apply total_bind; [apply total_modify | intros _].
  apply total_ret.
Qed.

(** What the dispatcher returns: always a result, whose flag is set only
    on the data of a mutating tool. *)
Lemma executeCalendarTool_result toolCall userEmail s :
  exists r s', executeCalendarTool toolCall userEmail s = (Ok r, s')
    /\ (forall detail, output r = OutError detail -> didMutate r = false)
    /\ (didMutate r = true -> isMutating toolCall = true).
Proof.
  unfold executeCalendarTool. cbv zeta.
  unfold mbind at 1, M_bind at 1. cbn [gui_emit on_streams modify].
  set (s0 := set_streams _ s). unfold try_catch.
  pose proof (executeCalendarTool_try_flags (fn_name (tc_function toolCall))
                (parseArgs (fn_arguments (tc_function toolCall))) userEmail s0) as Hflag.
  destruct (executeCalendarTool_try _ _ _ s0) as [[r | e] s1].
  - exists r, s1. destruct (Hflag r s1 eq_refl) as (He & Hm & _).
    split; [reflexivity |]. split; [exact He | exact Hm].
  - eexists; eexists. split; [reflexivity |]. cbn [output didMutate].
    split; [reflexivity | discriminate].
Qed.

Lemma bind_run {A A'} (m : M A) (f : A -> M A') s a s1 :
  m s = (Ok a, s1) -> (m ≫= f) s = f a s1.
Proof. intros E. unfold mbind, M_bind. rewrite E. reflexivity. Qed.

(** The message that records a tool result: the id of the call, or a
    generated one, in the modern form. *)
Lemma message_run (modern : bool) toolCall (o : ToolOutput) s :
  exists id s',
    ((if modern
      then id ← (match tc_id toolCall with
                 | Some ((_ :: _) as i) => mret i
                 | _ => fresh_id
                 end : M jsstring);
           mret (MTool id o)
      else mret (MFunction (fn_name (tc_function toolCall)) o)) : M Message) s
    = (Ok (if modern then MTool id o
           else MFunction (fn_name (tc_function toolCall)) o), s')
    /\ console s' = console s /\ streams s' = streams s.
Proof.
  destruct modern; [| exists [], s; repeat split].
  destruct (tc_id toolCall) as [[| c0 i] |].
  2:{ exists (c0 :: i), s. repeat split. }
  all: destruct (generateId (world s)) as [i w] eqn:Eg.
  all: exists i, (set_world w s).
  all: unfold mbind, M_bind, fresh_id; rewrite Eg; repeat split.
Qed.

(** One tool call of a round: executed, reported and recorded, without a
    throw. *)
Lemma runToolCall_run round (modern : bool) session toolCall l s :
  exists r s1 id s2,
    executeCalendarTool toolCall (optional_string (user_email session))
      (set_console (console s ++ [LogToolCallStart (round + 1)
                                    (fn_name (tc_function toolCall))]) s)
    = (Ok r, s1)
    /\ (forall detail, output r = OutError detail -> didMutate r = false)
    /\ (didMutate r = true -> isMutating toolCall = true)
    /\ runToolCall round modern session toolCall l s
       = (Ok {| history := history l
                           ++ [if modern then MTool id (output r)
                               else MFunction (fn_name (tc_function toolCall)) (output r)];
                refetchJobs := if didMutate r then refetchJobs l + 1
                               else refetchJobs l |}, s2)
    /\ console s2
       = console s1 ++ [LogToolCallResult (round + 1) (fn_name (tc_function toolCall))
                          (didMutate r) (outputError_of (output r))]
    /\ emitted (refetchJobsStream (streams s2))
       = emitted (refetchJobsStream (streams s1))
         ++ (if didMutate r then [refetchJobs l + 1] else []).
Proof.
  destruct (executeCalendarTool_result toolCall (optional_string (user_email session))
              (set_console (console s ++ [LogToolCallStart (round + 1)
                                            (fn_name (tc_function toolCall))]) s))
    as (r & s1 & Er & He & Hm).
  set (s_c := set_console
                (console s1 ++ [LogToolCallResult (round + 1)
                                  (fn_name (tc_function toolCall)) (didMutate r)
                                  (outputError_of (output r))]) s1).
  set (s_d := if didMutate r
              then snd (refetchJobsStream_update (refetchJobs l + 1) s_c)
              else s_c).
  destruct (message_run modern toolCall (output r) s_d) as (id & s2 & Em & Hc & Hs).
  exists r, s1, id, s2.
  split; [exact Er |]. split; [exact He |]. split; [exact Hm |].
  split; [| split].
  - unfold runToolCall. cbv zeta.
    erewrite bind_run by reflexivity.
    erewrite bind_run by exact Er.
    erewrite bind_run by reflexivity.
    fold s_c.
    rewrite (bind_run _ _ s_c (if didMutate r then refetchJobs l + 1 else refetchJobs l) s_d)
      by (subst s_d; destruct (didMutate r); reflexivity).
    rewrite (bind_run _ _ s_d _ s2 Em). reflexivity.
  - rewrite Hc. subst s_d. destruct (didMutate r); reflexivity.
  - rewrite Hs. subst s_d. destruct (didMutate r); cbn; [reflexivity |].
    rewrite app_nil_r. reflexivity.
Qed.

(** The tools of a round are all executed: the loop over them never
    throws and records one message for each. *)
Lemma runToolCalls_records_all round modern session calls :
  forall l s, exists l',
    fst (runToolCalls round modern session calls l s) = Ok l'
    /\ length (history l') = (length (history l) + length calls)%nat.
Proof.
  induction calls as [| c calls IH]; intros l s; simpl.
  - exists l. split; [reflexivity | lia].
  - destruct (runToolCall_run round modern session c l s)
      as (r & s1 & id & s2 & _ & _ & _ & Erun & _).
    erewrite bind_run by exact Erun.
    match goal with |- context [runToolCalls _ _ _ calls ?l1 s2] =>
      destruct (IH l1 s2) as (l' & Hl' & Hlen) end.
    exists l'. split; [exact Hl' |].
    rewrite Hlen. cbn [history]. rewrite length_app. simpl. lia.
Qed.

End ReturnRules.

(* ===================================================================== *)
(** * Properties of the time range extractor *)
(* ===================================================================== *)

Section ExtractorFacts.
Context {B : Builtins} {C : Collaborators}.

(** The validation either gives up or returns a range whose instants are
    in order; what it throws is for the caller to catch. *)
Lemma validateRange_sound content s range s' :
  validateRange content s = (Ok (Some range), s') ->
  exists parsed start end_ t0 t1,
    JSON_parse content = Some parsed
    /\ prop parsed (js "start") = Ok start /\ truthy start = true
    /\ prop parsed (js "end") = Ok end_ /\ truthy end_ = true
    /\ Date_new start = Ok (Some t0) /\ Date_new end_ = Ok (Some t1)
    /\ t0 < t1
    /\ range = {| range_start := toISOString t0; range_end := toISOString t1 |}.
Proof.
  unfold validateRange, mbind, M_bind, lift.
  destruct (JSON_parse content) as [parsed |]; [| discriminate].
  destruct (prop parsed (js "start")) as [start |] eqn:Es; [| discriminate].
  destruct (truthy start) eqn:Ets; cbn [negb]; [| discriminate].
  destruct (prop parsed (js "end")) as [end_ |] eqn:Ee; [| discriminate].
  destruct (truthy end_) eqn:Ete; cbn [negb]; [| discriminate].
  destruct (Date_new start) as [[t0 |] |] eqn:Ds;
    destruct (Date_new end_) as [[t1 |] |] eqn:De; try discriminate.
  destruct (t1 <=? t0) eqn:Ele; [discriminate |].
  cbn. intros E. injection E as <- _.
  exists parsed, start, end_, t0, t1.
  apply Z.leb_gt in Ele. repeat split; auto.
Qed.

End ExtractorFacts.

(** The extractor never throws, whatever the completion
    service does; and it returns a range only when the request succeeded,
    the content of the first choice is a non-empty text that parses as
    JSON, the [start] and [end] of the parsed value are truthy and convert
    to valid dates, and the end is after the start.  In every other case
    (a timeout or a transport failure of the request, no content,
    malformed JSON, a missing or null field, an invalid date, an end that
    is not after the start) it returns null. *)
Lemma extract_returns `{Builtins} `{Collaborators} question s :
  exists r s', extractTimeRangeFromQuestion question s = (Ok r, s')
    /\ forall range, r = Some range ->
       exists response content parsed start end_ t0 t1,
         fst (chat_completions_create
                (rangeRequest (toISOString (fst (Date_now (world s)))) question)
                (snd (Date_now (world s)))) = Ok response
         /\ first_content response = Some content /\ content <> []
         /\ JSON_parse content = Some parsed
         /\ prop parsed (js "start") = Ok start /\ truthy start = true
         /\ prop parsed (js "end") = Ok end_ /\ truthy end_ = true
         /\ Date_new start = Ok (Some t0) /\ Date_new end_ = Ok (Some t1)
         /\ t0 < t1
         /\ range = {| range_start := toISOString t0;
                       range_end := toISOString t1 |}.
Proof.
  unfold extractTimeRangeFromQuestion.
  unfold mbind at 1, M_bind at 1, now.
  destruct (Date_now (world s)) as [t w1]. cbn [fst snd].
  unfold mbind at 1, M_bind at 1. cbn [logAIInteraction modify].
  unfold mbind at 1, M_bind at 1, try_catch at 1.
  unfold mbind at 1, M_bind at 1, request.
  cbn [world set_world set_console sent].
  destruct (chat_completions_create _ w1) as [[response | e] w2]; cbn [fst].
  2:{ eexists; eexists. split; [reflexivity | discriminate]. }
  cbn [mret M_ret].
  destruct (first_content response) as [[| c0 content] |] eqn:Ec;
    try (eexists; eexists; split; [reflexivity | discriminate]).
  unfold try_catch.
  destruct (validateRange (c0 :: content) _) as [[[range |] | e] s1] eqn:Ev;
    try (eexists; eexists; split; [reflexivity | discriminate]).
  eexists; eexists. split; [reflexivity |].
  intros range' E. injection E as <-.
  destruct (validateRange_sound _ _ _ _ Ev)
    as (parsed & start & end_ & t0 & t1 & H1 & H2 & H3 & H4 & H5 & H6 & H7 & H8 & H9).
  exists response, (c0 :: content), parsed, start, end_, t0, t1.
  repeat split; auto.
Qed.

(* ===================================================================== *)
(** * Properties of the thread store *)
(* ===================================================================== *)

Lemma length_slice_last {A} (n : nat) (l : list A) :
  (length (slice_last n l) <= n)%nat.
Proof. unfold slice_last. rewrite length_drop. lia. Qed.

Lemma slice_last_short {A} (n : nat) (l : list A) :
  (length l <= n)%nat -> slice_last n l = l.
Proof.
  intros H. unfold slice_last. replace (length l - n)%nat with 0%nat by lia.
  reflexivity.
Qed.

Section StoreFacts.
Context {B : Builtins} {C : Collaborators}.

Lemma keeps_run (R : St -> St -> Prop) {A} (m : M A) s r s' :
  keeps R m -> m s = (r, s') -> R s s'.
Proof. intros H E. specialize (H s). rewrite E in H. exact H. Qed.

Ltac same_store_frame :=
  unfold keeps, same_store; intros; solve [reflexivity | congruence].

Lemma same_store_extract question :
  keeps same_store (extractTimeRangeFromQuestion question).
Proof. apply keeps_extractTimeRangeFromQuestion; same_store_frame. Qed.

Lemma same_store_load : keeps same_store loadAssistantConfig.
Proof. apply keeps_loadAssistantConfig; same_store_frame. Qed.

Lemma same_store_prepare question tid : keeps same_store (prepare question tid).
Proof. apply keeps_prepare; same_store_frame. Qed.

Lemma same_store_rounds question range cfg session n round l :
  keeps same_store (rounds question range cfg session n round l).
Proof. apply keeps_rounds; same_store_frame. Qed.

Lemma same_store_failed error : keeps same_store (conversation_failed error).
Proof. apply keeps_conversation_failed; same_store_frame. Qed.

(** The history the loop starts from: what the store holds for the thread,
    then the question. *)
Lemma prepare_history question tid s range cfg h0 sa :
  prepare question tid s = (Ok (range, cfg, h0), sa) ->
  h0 = default [] (conversationStore s !! tid) ++ [MUser question].
Proof.
  unfold prepare.
  repeat match goal with
  | |- (?m ≫= ?f) ?s0 = _ -> _ =>
    change ((m ≫= f) s0)
      with (match m s0 with
            | (Ok a, s') => f a s'
            | (Throw e, s') => (Throw e, s')
            end);
    let E := fresh "E" in
    destruct (m s0) as [[? | ?] ?] eqn:E; [| discriminate]
  end.
  intros H. injection H as _ _ <- _.
  unfold store_get in *.
  repeat match goal with
  | E : (_, _) = (_, _) |- _ => injection E as ? ?; subst
  end.
  repeat match goal with
  | E : ?m ?s0 = (_, _) |- _ =>
    apply (keeps_run same_store m) in E;
      [| solve [ apply same_store_extract | apply same_store_load
               | same_store_frame ] ]
  end.
  unfold same_store in *.
  repeat match goal with
  | E : conversationStore _ = conversationStore _ |- _ => rewrite E; clear E
  end.
  reflexivity.
Qed.

(** What a request does to the store: the [try] block either throws and
    leaves it alone, or comes out of the loop and writes the last 30
    messages of the history under the thread id. *)
Lemma conversation_store question tid session s :
  match conversation question tid session s with
  | (Throw _, s1) => conversationStore s1 = conversationStore s
  | (Ok _, s1) =>
    exists range cfg h0 sa l sb,
      prepare question tid s = (Ok (range, cfg, h0), sa)
      /\ rounds question range cfg session MAX_TOOL_ROUNDS 0
           {| history := h0; refetchJobs := 0 |} sa = (Ok l, sb)
      /\ conversationStore s1
         = <[tid := slice_last 30 (history l)]> (conversationStore s)
      /\ same_flags sb s1
  end.
Proof.
  unfold conversation. unfold mbind at 1, M_bind at 1.
  destruct (prepare question tid s) as [[[[range cfg] h0] | e] sa] eqn:Ep.
  2:{ apply (keeps_run same_store) in Ep; [exact Ep | apply same_store_prepare]. }
  unfold mbind at 1, M_bind at 1.
  destruct (rounds _ _ _ _ _ _ _ sa) as [[l | e] sb] eqn:Er.
  2:{ apply (keeps_run same_store) in Ep; [| apply same_store_prepare].
      apply (keeps_run same_store) in Er; [| apply same_store_rounds].
      unfold same_store in *. congruence. }
  exists range, cfg, h0, sa, l, sb.
  split; [first [reflexivity | exact Ep] |].
  split; [first [reflexivity | exact Er] |].
  apply (keeps_run same_store) in Ep; [| apply same_store_prepare].
  apply (keeps_run same_store) in Er; [| apply same_store_rounds].
  unfold same_store in *. split; [| reflexivity].
  cbn. rewrite Er, Ep. reflexivity.
Qed.

End StoreFacts.

Section StoreBound.
Context {B : Builtins} {C : Collaborators}.

Lemma bound_kept_same_store s s' : same_store s s' -> bound_kept s s'.
Proof. unfold same_store, bound_kept, store_bounded. intros E H. rewrite E. exact H. Qed.

(** The only write to the store keeps its bound. *)
Lemma persist_bound tid l : keeps bound_kept (persist tid l).
Proof.
  intros s Hs tid' h.
  change (conversationStore (snd (persist tid l s)))
    with (<[tid := slice_last 30 (history l)]> (conversationStore s)).
  destruct (decide (tid = tid')) as [<- | Hne].
  - rewrite lookup_insert_eq. intros E. injection E as <-. apply length_slice_last.
  - rewrite lookup_insert_ne by assumption. apply Hs.
Qed.

Lemma submitMessage_bound question threadId :
  keeps bound_kept (submitMessage question threadId).
Proof.
  apply keeps_submitMessage;
    try (intros; apply persist_bound);
    try (unfold keeps; intros; apply bound_kept_same_store; reflexivity);
    unfold bound_kept; auto.
Qed.

End StoreBound.


(* ===================================================================== *)
(** * Properties of the end of a request *)
(* ===================================================================== *)

Section Completion.
Context {B : Builtins} {C : Collaborators}.

Ltac same_flags_frame :=
  unfold keeps, same_flags; intros; solve [reflexivity | congruence].

Lemma same_flags_prepare question tid : keeps same_flags (prepare question tid).
Proof. apply keeps_prepare; same_flags_frame. Qed.

Lemma same_flags_rounds question range cfg session n round l :
  keeps same_flags (rounds question range cfg session n round l).
Proof. apply keeps_rounds; same_flags_frame. Qed.

Lemma same_flags_attempt question tid session :
  keeps same_flags (try_catch (conversation question tid session) conversation_failed).
Proof.
  apply keeps_try_catch;
    first [ same_flags_frame
          | apply keeps_conversation; same_flags_frame
          | intros e; apply keeps_conversation_failed; same_flags_frame ].
Qed.

Lemma persist_run tid l s :
  exists s', persist tid l s = (Ok tt, s')
    /\ conversationStore s'
       = <[tid := slice_last 30 (history l)]> (conversationStore s).
Proof. eexists. split; reflexivity. Qed.

Lemma all_open_flags x : all_open x <-> flags x = repeat false 7.
Proof.
  unfold all_open, flags. cbn [repeat]. split.
  - intros (-> & -> & -> & -> & -> & -> & ->). reflexivity.
  - intros E. injection E as -> -> -> -> -> -> ->. repeat split.
Qed.

Lemma all_closed_done x : all_closed (streams_done x).
Proof. repeat split. Qed.

End Completion.

(** C6, as amended. Whenever the loop is left, whether by a final answer,
    by a clarification or because the round budget ran out, the last 30
    messages of the history are in the thread store when the [finally]
    block starts, and the streams, open until then, are completed after
    it; when the [try] block throws instead, the streams are completed
    all the same and the store is left as it was. *)
Theorem history_persisted_before_completion `{Builtins} `{Collaborators}
    question tid session s :
  all_open (streams s) ->
  let s1 := snd (try_catch (conversation question tid session)
                           conversation_failed s) in
  let s2 := snd (detached question tid session s) in
  s2 = set_streams (streams_done (streams s1)) s1
  /\ all_open (streams s1) /\ all_closed (streams s2)
  /\ conversationStore s2 = conversationStore s1
  /\ (forall range cfg h0 sa l sb,
        prepare question tid s = (Ok (range, cfg, h0), sa) ->
        rounds question range cfg session MAX_TOOL_ROUNDS 0
          {| history := h0; refetchJobs := 0 |} sa = (Ok l, sb) ->
        conversationStore s1
        = <[tid := slice_last 30 (history l)]> (conversationStore s))
  /\ (forall e s', conversation question tid session s = (Throw e, s') ->
        conversationStore s1 = conversationStore s).
Proof.
  intros Hopen s1 s2.
  assert (E2 : s2 = set_streams (streams_done (streams s1)) s1).
  { subst s1 s2. unfold detached, try_finally.
    destruct (try_catch _ _ s) as [r s']. reflexivity. }
  split; [exact E2 |]. split; [| split; [| split; [| split]]].
  - apply all_open_flags. apply all_open_flags in Hopen.
    pose proof (same_flags_attempt question tid session s) as Hf.
    fold s1 in Hf. unfold same_flags in Hf. rewrite Hf. exact Hopen.
  - rewrite E2. apply all_closed_done.
  - rewrite E2. reflexivity.
  - intros range cfg h0 sa l sb Ep Er. subst s1.
    unfold try_catch, conversation. unfold mbind at 1, M_bind at 1. rewrite Ep.
    unfold mbind at 1, M_bind at 1. rewrite Er.
    destruct (persist_run tid l sb) as (s' & -> & Hs').
    cbv beta iota. cbn [snd]. rewrite Hs'.
    apply (keeps_run same_store) in Ep; [| apply same_store_prepare].
    apply (keeps_run same_store) in Er; [| apply same_store_rounds].
    unfold same_store in *. rewrite Er, Ep. reflexivity.
  - intros e s' Ec. subst s1. unfold try_catch.
    pose proof (conversation_store question tid session s) as Hc.
    rewrite Ec in *.
    pose proof (same_store_failed e s') as Hf. unfold same_store in Hf.
    rewrite Hf. exact Hc.
Qed.

Lemma history_persisted_before_completion_witness :
  let s2 := snd (detached (B := Demo.builtins) (C := Demo.collaborators)
                   (js "what is on today?") (js "t1") Demo.the_session
                   (Demo.boot [Demo.no_range; Demo.says (js "Nothing.")])) in
  conversationStore s2 !! js "t1"
  = Some [MUser (js "what is on today?"); MAssistant (js "Nothing.") None None]
  /\ all_closed (streams s2).
Proof.
  cbv zeta.
  destruct (history_persisted_before_completion
              (H := Demo.builtins) (H0 := Demo.collaborators)
              (js "what is on today?") (js "t1") Demo.the_session
              (Demo.boot [Demo.no_range; Demo.says (js "Nothing.")]))
    as (_ & _ & Hclosed & Hsame & Hwritten & _).
  { repeat split. }
  split; [| exact Hclosed].
  rewrite Hsame.
  rewrite (Hwritten _ _ _ _ _ _ ltac:(vm_compute; reflexivity)
                                ltac:(vm_compute; reflexivity)).
  vm_compute. reflexivity.
Defined.

(** C6 as stated fails on the error path: when the completion request of
    the first round fails, the request ends with the error status and
    completed streams, and nothing was written to the thread store. *)
Lemma history_not_persisted_on_error :
  let s := Demo.boot [Demo.no_range] in
  let s2 := snd (detached (B := Demo.builtins) (C := Demo.collaborators)
                   (js "what is on today?") (js "t1") Demo.the_session s) in
  fst (conversation (B := Demo.builtins) (C := Demo.collaborators)
         (js "what is on today?") (js "t1") Demo.the_session s)
  = Throw Demo.connection_error
  /\ last (emitted (status (streams s2))) = Some (js "conversation.error")
  /\ all_closed (streams s2)
  /\ conversationStore s2 !! js "t1" = None.
Proof.
  cbv zeta. split; [vm_compute; reflexivity |].
  split; [vm_compute; reflexivity |].
  split; [repeat split |]. vm_compute. reflexivity.
Qed.

(* ===================================================================== *)
(** * Properties of a deferred round *)
(* ===================================================================== *)

Section Deferral.
Context {B : Builtins} {C : Collaborators}.

Lemma no_tool_activity_refl s : no_tool_activity s s.
Proof.
  repeat split; try reflexivity; exists []; rewrite app_nil_r; split; reflexivity.
Qed.

Lemma no_tool_activity_trans s1 s2 s3 :
  no_tool_activity s1 s2 -> no_tool_activity s2 s3 -> no_tool_activity s1 s3.
Proof.
  intros (G1 & J1 & (x1 & S1 & F1) & (y1 & C1 & D1))
         (G2 & J2 & (x2 & S2 & F2) & (y2 & C2 & D2)).
  repeat split; try congruence.
  - exists (x1 ++ x2). rewrite S2, S1, app_assoc, filter_app, F1, F2. split; reflexivity.
  - exists (y1 ++ y2). rewrite C2, C1, app_assoc, filter_app, D1, D2. split; reflexivity.
Qed.

Lemma no_tool_activity_askModel cfg session round l :
  keeps no_tool_activity (askModel cfg session round l).
Proof.
  apply keeps_askModel;
    first [ exact no_tool_activity_refl | exact no_tool_activity_trans | idtac ];
    unfold keeps; intros; cbn;
    (repeat split; try reflexivity;
     first [ exists []; rewrite app_nil_r; split; reflexivity
           | eexists [_]; split; [reflexivity |];
             match goal with
             | Ho : is_assistant_request ?o = true |- _ =>
               destruct o; try discriminate Ho; reflexivity
             end ]).
Qed.

(** A plain assistant message at the end leaves every request answered. *)
Lemma awaiting_plain_message content h :
  forall pending,
    awaiting pending h = true ->
    awaiting pending (h ++ [MAssistant content None None]) = true.
Proof.
  induction h as [| m h IH]; intros pending; cbn [app awaiting].
  - intros E. rewrite E. reflexivity.
  - destruct m as [? | ? | ? [tcs |] [fc |] | ? ? | ? ?];
      try (intros E; apply andb_prop in E; destruct E as [-> E];
           cbn [andb]; apply IH; exact E);
      apply IH.
Qed.

(** A list of calls the gate defers is not empty. *)
Lemma gate_defers_some_call question range calls :
  shouldAskClarificationBeforeMutation question range calls = Ok true -> calls <> [].
Proof. intros H ->. discriminate H. Qed.

End Deferral.

(** C3. When the gate defers in a round, the round sequence ends there,
    whatever the budget left: the history grows by exactly one message,
    the assistant message holding the clarification prompt, which is the
    fixed text of an opening line, five numbered questions and a closing
    line, so that no tool-call request of that round and no tool result
    is recorded, and if every request recorded before was answered, every
    request still is; the prompt is what the text stream receives; and
    between the start of the round and the end of the loop nothing is
    asked of the calendar provider, no tool is started, and neither the
    progress stream nor the mutation counter moves. *)
Theorem deferral_ends_round_sequence `{Builtins} `{Collaborators}
    question range cfg session n round l s completion s1 assistantMessage :
  let prompt :=
    js "在我创建或修改日程之前，我先确认几个关键信息：" ++ [10]
    ++ js "1. 计划从哪天开始，到哪天结束？" ++ [10]
    ++ js "2. 每周准备几次？每次多长时间？" ++ [10]
    ++ js "3. 你偏好的时间段是哪些（如工作日晚上、周末上午）？" ++ [10]
    ++ js "4. 是否要避开已有日程并自动找空档？" ++ [10]
    ++ js "5. 是否需要提前提醒（提前多久）？" ++ [10]
    ++ js "你回复这些信息后，我再执行具体安排。" in
  askModel cfg session round l s = (Ok completion, s1) ->
  head (choices completion) ≫= choice_message = Some assistantMessage ->
  shouldAskClarificationBeforeMutation question range
    (executableToolCallsOf assistantMessage) = Ok true ->
  exists s2,
    rounds question range cfg session (S n) round l s
    = (Ok {| history := history l ++ [MAssistant prompt None None];
             refetchJobs := refetchJobs l |}, s2)
    /\ filter (fun m => is_tool_traffic m = true)
              (history l ++ [MAssistant prompt None None])
       = filter (fun m => is_tool_traffic m = true) (history l)
    /\ (answered (history l) = true ->
        answered (history l ++ [MAssistant prompt None None]) = true)
    /\ emitted (textStream (streams s2))
       = emitted (textStream (streams s1)) ++ [prompt]
    /\ sent s2 = sent s1 /\ world s2 = world s1
    /\ conversationStore s2 = conversationStore s1
    /\ no_tool_activity s s2.
Proof.
  intros prompt.
  assert (Hprompt : prompt = buildClarificationPrompt) by (vm_compute; reflexivity).
  clearbody prompt. subst prompt.
  intros Eask Emsg Egate.
  pose proof (gate_defers_some_call _ _ _ Egate) as Hcalls.
  pose proof (keeps_run no_tool_activity _ _ _ _
                (no_tool_activity_askModel cfg session round l) Eask) as Hquiet.
  assert (Hbody : exists s2,
    round_body question range cfg session round l s
    = (Ok (Break {| history := history l
                               ++ [MAssistant buildClarificationPrompt None None];
                    refetchJobs := refetchJobs l |}), s2)
    /\ emitted (textStream (streams s2))
       = emitted (textStream (streams s1)) ++ [buildClarificationPrompt]
    /\ sent s2 = sent s1 /\ world s2 = world s1
    /\ conversationStore s2 = conversationStore s1
    /\ no_tool_activity s1 s2).
  { unfold round_body. unfold mbind at 1, M_bind at 1. rewrite Eask.
    unfold react. rewrite Emsg.
    unfold executableToolCallsOf in Egate, Hcalls.
    destruct (default [] (am_tool_calls assistantMessage)) as [| tc tcs] eqn:Etc;
      [destruct (am_function_call assistantMessage) as [fc |] eqn:Efc;
         [| exfalso; apply Hcalls; reflexivity] |].
    all: unfold executableToolCallsOf; rewrite Etc, ?Efc.
    all: unfold mbind, M_bind, lift; cbn [logAIInteraction modify].
    all: rewrite Egate.
    all: eexists; split; [reflexivity |].
    all: split; [reflexivity |].
    all: split; [reflexivity |]; split; [reflexivity |]; split; [reflexivity |].
    all: repeat split; cbn;
         first [ reflexivity
               | exists []; rewrite app_nil_r; split; reflexivity
               | eexists; split; [rewrite <- !app_assoc; reflexivity | reflexivity] ]. }
  destruct Hbody as (s2 & Ebody & Htext & Hsent & Hworld & Hstore & Hquiet2).
  exists s2. cbn [rounds]. unfold mbind at 1, M_bind at 1. rewrite Ebody.
  split; [reflexivity |].
  split; [rewrite filter_app; cbn; rewrite app_nil_r; reflexivity |].
  split; [apply awaiting_plain_message |].
  repeat (split; [assumption |]).
  eapply no_tool_activity_trans; eassumption.
Qed.

Lemma deferral_ends_round_sequence_witness :
  let question := js "安排一下复习，最近找时间" in
  let cfg := {| instructions := js "You manage the calendar of the user.";
                tools := [] |} in
  let l := {| history := [MUser question]; refetchJobs := 0 |} in
  let s := Demo.boot [Demo.requests_tools [Demo.call (js "schedule_event") None];
                      Demo.says (js "Scheduled.")] in
  let out := rounds (B := Demo.builtins) (C := Demo.collaborators)
               question None cfg Demo.the_session MAX_TOOL_ROUNDS 0 l s in
  let prompt :=
    js "在我创建或修改日程之前，我先确认几个关键信息：" ++ [10]
    ++ js "1. 计划从哪天开始，到哪天结束？" ++ [10]
    ++ js "2. 每周准备几次？每次多长时间？" ++ [10]
    ++ js "3. 你偏好的时间段是哪些（如工作日晚上、周末上午）？" ++ [10]
    ++ js "4. 是否要避开已有日程并自动找空档？" ++ [10]
    ++ js "5. 是否需要提前提醒（提前多久）？" ++ [10]
    ++ js "你回复这些信息后，我再执行具体安排。" in
  fst out = Ok {| history := [MUser question; MAssistant prompt None None];
                  refetchJobs := 0 |}
  /\ filter (fun o => is_provider_request o = true) (sent (snd out)) = []
  /\ emitted (refetchJobsStream (streams (snd out))) = [0].
Proof.
  cbv zeta.
  edestruct (deferral_ends_round_sequence
               (H := Demo.builtins) (H0 := Demo.collaborators)
               (js "安排一下复习，最近找时间") None
               {| instructions := js "You manage the calendar of the user.";
                  tools := [] |}
               Demo.the_session 7 0
               {| history := [MUser (js "安排一下复习，最近找时间")]; refetchJobs := 0 |}
               (Demo.boot [Demo.requests_tools [Demo.call (js "schedule_event") None];
                           Demo.says (js "Scheduled.")]))
    as (s2 & E & _ & _ & _ & _ & _ & _ & _ & Hjobs & (extra & Hsent & Hnone) & _).
  - vm_compute. reflexivity.
  - vm_compute. reflexivity.
  - vm_compute. reflexivity.
  - change MAX_TOOL_ROUNDS with 8%nat. rewrite E. cbn [fst snd].
    split; [reflexivity |]. split.
    + rewrite Hsent. cbn [sent Demo.boot app]. exact Hnone.
    + rewrite Hjobs. reflexivity.
Defined.

(* ===================================================================== *)
(** * Properties of the round budget *)
(* ===================================================================== *)

Section Budget.
Context {B : Builtins} {C : Collaborators}.

Lemma sent_more_refl s : sent_more 0 s s.
Proof. exists []. rewrite app_nil_r. split; [reflexivity | cbn; lia]. Qed.

Lemma sent_more_trans j k s1 s2 s3 :
  sent_more j s1 s2 -> sent_more k s2 s3 -> sent_more (j + k) s1 s3.
Proof.
  intros (x1 & S1 & F1) (x2 & S2 & F2). exists (x1 ++ x2).
  rewrite S2, S1, app_assoc, filter_app, length_app. split; [reflexivity | lia].
Qed.

Lemma sent_more_weaken j k s s' : (j <= k)%nat -> sent_more j s s' -> sent_more k s s'.
Proof. intros Hjk (x & S & F). exists x. split; [exact S | lia]. Qed.

Ltac sent_frame :=
  first
    [ exact sent_more_refl
    | exact (sent_more_trans 0 0)
    | unfold keeps; intros; cbn;
      first [ exists []; rewrite app_nil_r; split; [reflexivity | cbn; lia]
            | eexists [_]; split; [reflexivity |];
              match goal with
              | Ho : is_assistant_request ?o = false |- _ =>
                rewrite filter_cons_False by (rewrite Ho; discriminate);
                cbn; lia
              end ] ].

Lemma sent_more_prepare question tid : keeps (sent_more 0) (prepare question tid).
Proof. apply keeps_prepare; sent_frame. Qed.

Lemma sent_more_failed error : keeps (sent_more 0) (conversation_failed error).
Proof. apply keeps_conversation_failed; sent_frame. Qed.

Lemma sent_more_react question range session round l completion :
  keeps (sent_more 0) (react question range session round l completion).
Proof. apply keeps_react; sent_frame. Qed.

(** The head of a round sends one request. *)
Lemma sent_more_askModel cfg session round l :
  keeps (sent_more 1) (askModel cfg session round l).
Proof.
  intros s. unfold askModel, mbind, M_bind, now, request. cbn.
  destruct (Date_now (world s)) as [t w1]. cbn.
  destruct (chat_completions_create _ w1) as [r w2]. cbn.
  eexists [_]. split; [reflexivity |]. cbn. destruct (decide _); cbn; lia.
Qed.

(** A graded sequencing rule. *)
Lemma sent_more_bind {A A'} j k (m : M A) (f : A -> M A') :
  keeps (sent_more j) m -> (forall a, keeps (sent_more k) (f a)) ->
  keeps (sent_more (j + k)) (m ≫= f).
Proof.
  intros Hm Hf s. unfold mbind, M_bind. specialize (Hm s).
  destruct (m s) as [[a | e] s1]; cbn in *.
  - eapply sent_more_trans; [exact Hm | apply Hf].
  - eapply sent_more_weaken; [| exact Hm]. lia.
Qed.

Lemma sent_more_try_catch {A} j k (m : M A) (h : Thrown -> M A) :
  keeps (sent_more j) m -> (forall e, keeps (sent_more k) (h e)) ->
  keeps (sent_more (j + k)) (try_catch m h).
Proof.
  intros Hm Hh s. unfold try_catch. specialize (Hm s).
  destruct (m s) as [[a | e] s1]; cbn in *.
  - eapply sent_more_weaken; [| exact Hm]. lia.
  - eapply sent_more_trans; [exact Hm | apply Hh].
Qed.

(** The loop with [n] iterations left sends at most [n] requests. *)
Lemma sent_more_rounds question range cfg session n :
  forall round l, keeps (sent_more n) (rounds question range cfg session n round l).
Proof.
  induction n as [| n IH]; intros round l.
  - intros s. apply sent_more_refl.
  - cbn [rounds]. change (S n) with (1 + n)%nat.
    apply sent_more_bind.
    + unfold round_body. change 1%nat with (1 + 0)%nat.
      apply sent_more_bind; [apply sent_more_askModel | intros; apply sent_more_react].
    + intros [l' | l'].
      * apply IH.
      * intros s. eapply sent_more_weaken; [| apply sent_more_refl]. lia.
Qed.

Lemma sent_more_conversation question tid session :
  keeps (sent_more MAX_TOOL_ROUNDS) (conversation question tid session).
Proof.
  unfold conversation. change MAX_TOOL_ROUNDS with (0 + (8 + 0))%nat at 1.
  apply sent_more_bind; [apply sent_more_prepare | intros [[range cfg] h0]].
  apply sent_more_bind; [apply sent_more_rounds | intros l'].
  intros s. cbn. exists []. rewrite app_nil_r. split; [reflexivity | cbn; lia].
Qed.

Lemma sent_more_detached question tid session :
  keeps (sent_more MAX_TOOL_ROUNDS) (detached question tid session).
Proof.
  intros s. unfold detached, try_finally.
  pose proof (sent_more_try_catch MAX_TOOL_ROUNDS 0 _ _
                (sent_more_conversation question tid session)
                sent_more_failed s) as Hs.
  destruct (try_catch _ _ s) as [r s1]. cbn [snd] in *.
  destruct Hs as (extra & Hs & Hn). exists extra. split; [exact Hs |].
  unfold MAX_TOOL_ROUNDS in *. lia.
Qed.

End Budget.

Section BudgetOfARequest.
Context {B : Builtins} {C : Collaborators}.

Lemma sent_more_any k {A} (m : M A) :
  keeps (sent_more 0) m -> keeps (sent_more k) m.
Proof. intros Hm s. eapply sent_more_weaken; [| apply Hm]. lia. Qed.

Lemma sent_more_bind_first k {A A'} (m : M A) (f : A -> M A') :
  keeps (sent_more 0) m -> (forall a, keeps (sent_more k) (f a)) ->
  keeps (sent_more k) (m ≫= f).
Proof. intros Hm Hf. apply (sent_more_bind 0 k); assumption. Qed.

Lemma sent_more_bind_last k {A A'} (m : M A) (f : A -> M A') :
  keeps (sent_more k) m -> (forall a, keeps (sent_more 0) (f a)) ->
  keeps (sent_more k) (m ≫= f).
Proof.
  intros Hm Hf s. eapply sent_more_weaken; [| apply (sent_more_bind k 0); eassumption].
  lia.
Qed.

Ltac trivial_step :=
  first [ exact sent_more_refl | exact (sent_more_trans 0 0)
        | intros; exists []; rewrite app_nil_r; split; [reflexivity | cbn; lia] ].

Ltac small :=
  solve
    [ apply keeps_ret; trivial_step
    | apply keeps_fresh_id; trivial_step
    | apply keeps_request_session; trivial_step
    | intros ?; trivial_step ].

Lemma sent_more_submitMessage question threadId :
  keeps (sent_more MAX_TOOL_ROUNDS) (submitMessage question threadId).
Proof.
  unfold submitMessage.
  intros s. eapply sent_more_weaken;
    [| apply (sent_more_try_catch MAX_TOOL_ROUNDS 0)]; [lia | |].
  2:{ intros e. apply (sent_more_bind 0 0); [small | intros; small]. }
  apply sent_more_bind_first; [small |].
  intros [sess |].
  2:{ apply sent_more_any. apply (sent_more_bind 0 0); [small | intros; small]. }
  destruct (str_truthy (accessToken sess)).
  2:{ apply sent_more_any. apply (sent_more_bind 0 0); [small | intros; small]. }
  apply sent_more_bind_first; [destruct threadId; small |]. intros tid.
  apply sent_more_bind_first; [small |]. intros _.
  apply sent_more_bind_last.
  - intros s'. eapply sent_more_weaken;
      [| apply (sent_more_try_catch MAX_TOOL_ROUNDS 0)];
      [lia | apply sent_more_detached | intros; small].
  - intros _. apply (sent_more_bind 0 0); [small | intros; small].
Qed.

End BudgetOfARequest.

(** C9. A request sends at most 8 completion requests from its
    orchestration loop, whatever the completion service and the calendar
    answer; the loop with [n] iterations left sends at most [n]. *)
Theorem at_most_eight_rounds `{Builtins} `{Collaborators} question threadId s :
  (exists extra,
     sent (snd (submitMessage question threadId s)) = sent s ++ extra
     /\ (length (filter (fun o => is_assistant_request o = true) extra) <= 8)%nat)
  /\ (forall range cfg session n round l,
        exists extra,
          sent (snd (rounds question range cfg session n round l s)) = sent s ++ extra
          /\ (length (filter (fun o => is_assistant_request o = true) extra) <= n)%nat).
Proof.
  split.
  - destruct (sent_more_submitMessage question threadId s) as (extra & Hs & Hn).
    exists extra. split; [exact Hs | exact Hn].
  - intros.
    destruct (sent_more_rounds question range cfg session n round l s)
      as (extra & Hs & Hn).
    exists extra. split; [exact Hs | exact Hn].
Qed.

(* ===================================================================== *)
(** * Properties of the mutation counter *)
(* ===================================================================== *)

Lemma counting_next k : counting (S k) = counting k ++ [Z.of_nat k + 1].
Proof.
  unfold counting. rewrite (seq_S (S k) 0), map_app. cbn [map Nat.add].
  rewrite Nat2Z.inj_succ. unfold Z.succ. reflexivity.
Qed.

Lemma counting_head k : head (counting k) = Some 0.
Proof. reflexivity. Qed.

Lemma counting_increasing k i j x y :
  (i < j)%nat -> counting k !! i = Some x -> counting k !! j = Some y -> x < y.
Proof.
  unfold counting. intros Hij Hi Hj.
  rewrite list_lookup_fmap in Hi, Hj.
  destruct (seq 0 (S k) !! i) as [a |] eqn:Ea; [| discriminate].
  destruct (seq 0 (S k) !! j) as [b |] eqn:Eb; [| discriminate].
  apply lookup_seq in Ea, Eb. cbn in Hi, Hj.
  injection Hi as <-. injection Hj as <-. lia.
Qed.

Section Counter.
Context {B : Builtins} {C : Collaborators}.

(** Entries that report no result leave the count alone and are honest. *)
Lemma no_results_quiet extra :
  filter (fun e => is_tool_result e = true) extra = [] ->
  mutations extra = 0%nat /\ Forall honest extra.
Proof.
  unfold mutations. induction extra as [| e extra IH]; intros Hf.
  - split; [reflexivity | constructor].
  - destruct (is_tool_result e) eqn:Ee.
    + rewrite filter_cons_True in Hf by exact Ee. discriminate.
    + rewrite filter_cons_False in Hf by (rewrite Ee; discriminate).
      destruct (IH Hf) as [Hm Hh]. split.
      * rewrite filter_cons_False; [exact Hm |].
        destruct e; cbn in *; congruence.
      * constructor; [destruct e; cbn in *; try exact I; discriminate | exact Hh].
Qed.

Lemma mutations_app a b : mutations (a ++ b) = (mutations a + mutations b)%nat.
Proof. unfold mutations. rewrite filter_app, length_app. reflexivity. Qed.

Lemma same_jobs_refl s : same_jobs s s.
Proof. split; [reflexivity |]. exists []. rewrite app_nil_r. split; reflexivity. Qed.

Lemma same_jobs_trans s1 s2 s3 : same_jobs s1 s2 -> same_jobs s2 s3 -> same_jobs s1 s3.
Proof.
  intros (J1 & x1 & C1 & F1) (J2 & x2 & C2 & F2). split; [congruence |].
  exists (x1 ++ x2). rewrite C2, C1, app_assoc, filter_app, F1, F2. split; reflexivity.
Qed.

Ltac same_jobs_frame :=
  first
    [ exact same_jobs_refl
    | exact same_jobs_trans
    | unfold keeps; intros; cbn; split; [reflexivity |];
      first [ exists []; rewrite app_nil_r; split; reflexivity
            | eexists [_]; split; [reflexivity |];
              match goal with
              | He : is_tool_result ?e = false |- _ =>
                rewrite filter_cons_False by (rewrite He; discriminate); reflexivity
              end ] ].

Lemma same_jobs_executeCalendarTool toolCall userEmail :
  keeps same_jobs (executeCalendarTool toolCall userEmail).
Proof. apply keeps_executeCalendarTool; same_jobs_frame. Qed.

Lemma same_jobs_prepare question tid : keeps same_jobs (prepare question tid).
Proof. apply keeps_prepare; same_jobs_frame. Qed.

Lemma same_jobs_failed error : keeps same_jobs (conversation_failed error).
Proof. apply keeps_conversation_failed; same_jobs_frame. Qed.

Lemma same_jobs_askModel cfg session round l :
  keeps same_jobs (askModel cfg session round l).
Proof. apply keeps_askModel; same_jobs_frame. Qed.

Lemma counter_agrees_same_jobs c0 s s' :
  same_jobs s s' -> counter_agrees c0 s -> counter_agrees c0 s'.
Proof.
  intros (J & extra & Hc & Hf) (entries & Hc0 & Hj & Hh).
  destruct (no_results_quiet extra Hf) as [Hm Hq].
  exists (entries ++ extra). rewrite Hc, Hc0, app_assoc, J, Hj, mutations_app, Hm.
  rewrite Nat.add_0_r. repeat split. apply Forall_app. split; assumption.
Qed.

Lemma locals_agree_same_jobs c0 l l' s s' :
  same_jobs s s' -> refetchJobs l' = refetchJobs l ->
  locals_agree c0 l s -> locals_agree c0 l' s'.
Proof.
  intros (J & extra & Hc & Hf) Hl (entries & Hc0 & Hj & Hh & Hr).
  destruct (no_results_quiet extra Hf) as [Hm Hq].
  exists (entries ++ extra). rewrite Hc, Hc0, app_assoc, J, Hj, mutations_app, Hm.
  rewrite Nat.add_0_r. repeat split; [| congruence].
  apply Forall_app. split; assumption.
Qed.

Lemma locals_agree_counter c0 l s : locals_agree c0 l s -> counter_agrees c0 s.
Proof. intros (entries & H1 & H2 & H3 & _). exists entries. auto. Qed.

(** One executed tool call: the counter moves by one exactly when the
    result flags a mutation. *)
Lemma runToolCall_counts c0 round (modern : bool) session toolCall l s :
  locals_agree c0 l s ->
  exists l' s', runToolCall round modern session toolCall l s = (Ok l', s')
    /\ locals_agree c0 l' s'.
Proof.
  intros (entries & Hc0 & Hj & Hh & Hr).
  destruct (runToolCall_run round modern session toolCall l s)
    as (r & s1 & id & s2 & Er & He & Hm & Erun & Hcon & Hjobs).
  eexists; exists s2. split; [exact Erun |].
  apply (keeps_run same_jobs) in Er; [| apply same_jobs_executeCalendarTool].
  destruct Er as (J & extra & Hc1 & Hf). cbn in J, Hc1.
  destruct (no_results_quiet extra Hf) as [Hmu Hq].
  set (name := fn_name (tc_function toolCall)) in *.
  set (e := LogToolCallResult (round + 1) name (didMutate r)
              (outputError_of (output r))) in *.
  exists (entries ++ [LogToolCallStart (round + 1) name] ++ extra ++ [e]).
  assert (Hcount : mutations (entries ++ [LogToolCallStart (round + 1) name]
                                ++ extra ++ [e])
                   = (mutations entries + (if didMutate r then 1 else 0))%nat).
  { rewrite !mutations_app, Hmu. unfold mutations at 2 3. subst e. cbn.
    destruct (didMutate r);
      repeat match goal with
      | |- context [decide ?P] => destruct (decide P); try discriminate; try congruence
      end; cbn; lia. }
  split; [| split; [| split]].
  - rewrite Hcon, Hc1, Hc0, <- !app_assoc. reflexivity.
  - rewrite Hjobs, J, Hj, Hcount. destruct (didMutate r).
    + rewrite Nat.add_1_r, counting_next, Hr. reflexivity.
    + rewrite Nat.add_0_r, app_nil_r. reflexivity.
  - repeat (apply Forall_app; split); auto.
    + constructor; [exact I | constructor].
    + constructor; [| constructor]. subst e. cbn. intros Hd. split.
      * destruct (output r) as [? | ? | [| ? ?]] eqn:Eo; try reflexivity.
        rewrite (He _ eq_refl) in Hd. discriminate.
      * apply Hm. exact Hd.
  - cbn [refetchJobs]. rewrite Hcount, Hr. destruct (didMutate r); lia.
Qed.

Lemma runToolCalls_counts c0 round (modern : bool) session calls :
  forall l s, locals_agree c0 l s ->
  exists l' s', runToolCalls round modern session calls l s = (Ok l', s')
    /\ locals_agree c0 l' s'.
Proof.
  induction calls as [| c calls IH]; intros l s Hl; cbn [runToolCalls].
  - exists l, s. split; [reflexivity | exact Hl].
  - destruct (runToolCall_counts c0 round modern session c l s Hl)
      as (l1 & s1 & E1 & Hl1).
    destruct (IH l1 s1 Hl1) as (l2 & s2 & E2 & Hl2).
    exists l2, s2. split; [| exact Hl2].
    rewrite (bind_run _ _ _ _ _ E1). exact E2.
Qed.

End Counter.

Section CounterInTheLoop.
Context {B : Builtins} {C : Collaborators}.

Ltac explicit_same_jobs :=
  split; [reflexivity |];
  eexists; split; [cbn; rewrite <- ?app_assoc; reflexivity | reflexivity].

(** What a round does after the completion keeps the counter in step with
    the reported results. *)
Lemma react_counts c0 question range session round l completion s :
  locals_agree c0 l s ->
  match react question range session round l completion s with
  | (Ok (Continue l'), s') | (Ok (Break l'), s') => locals_agree c0 l' s'
  | (Throw _, s') => counter_agrees c0 s'
  end.
Proof.
  intros Hl. unfold react.
  destruct (head (choices completion) ≫= choice_message) as [msg |].
  2:{ unfold mbind, M_bind; cbn [logAIInteraction textStream_append on_streams modify].
      eapply locals_agree_same_jobs; [| reflexivity | exact Hl]. explicit_same_jobs. }
  cbv zeta.
  erewrite bind_run by reflexivity. erewrite bind_run by reflexivity.
  match goal with |- context [_ ?st] =>
    match type of st with St =>
      assert (Hq : same_jobs s st) by explicit_same_jobs;
      generalize dependent st
    end
  end.
  intros st Hq.
  assert (Hl1 : locals_agree c0 l st).
  { eapply locals_agree_same_jobs; [exact Hq | reflexivity | exact Hl]. }
  clear Hq Hl.
  assert (Htools :
    match (defer ← lift (shouldAskClarificationBeforeMutation question range
                           (executableToolCallsOf msg));
           if defer : bool then
             textStream_append buildClarificationPrompt;;
             logAIInteraction
               (LogClarificationRequired (round + 1)
                  (map (fun call => fn_name (tc_function call))
                       (executableToolCallsOf msg)));;
             mret (Break {| history := history l
                              ++ [MAssistant buildClarificationPrompt None None];
                            refetchJobs := refetchJobs l |})
           else
             l' ← runToolCalls round
                    (match default [] (am_tool_calls msg) with
                     | _ :: _ => true | [] => false end)
                    session (executableToolCallsOf msg)
                    {| history := history l
                         ++ [if match default [] (am_tool_calls msg) with
                                | _ :: _ => true | [] => false end
                             then MAssistant (str_or (am_content msg) [])
                                    (Some (default [] (am_tool_calls msg))) None
                             else MAssistant (str_or (am_content msg) []) None
                                    (am_function_call msg)];
                       refetchJobs := refetchJobs l |};
             mret (Continue l')) st with
    | (Ok (Continue l'), s') | (Ok (Break l'), s') => locals_agree c0 l' s'
    | (Throw _, s') => counter_agrees c0 s'
    end).
  { unfold mbind at 1, M_bind at 1, lift.
    destruct (shouldAskClarificationBeforeMutation _ _ _) as [[|] | e].
    - unfold mbind, M_bind; cbn [logAIInteraction textStream_append on_streams modify].
      eapply locals_agree_same_jobs; [| reflexivity | exact Hl1]. explicit_same_jobs.
    - match goal with |- context [runToolCalls ?r ?m ?se ?cs ?l0] =>
        destruct (runToolCalls_counts c0 r m se cs l0 st) as (l' & s' & E & Hl')
      end.
      { eapply locals_agree_same_jobs; [apply same_jobs_refl | reflexivity | exact Hl1]. }
      rewrite (bind_run _ _ _ _ _ E). exact Hl'.
    - apply locals_agree_counter with (l := l). exact Hl1. }
  destruct (default [] (am_tool_calls msg)) as [| tc tcs] eqn:Etc;
    [destruct (am_function_call msg) as [fc |] eqn:Efc |]; try exact Htools.
  unfold mbind, M_bind; cbn [logAIInteraction textStream_append on_streams modify].
  eapply locals_agree_same_jobs; [| reflexivity | exact Hl1]. explicit_same_jobs.
Qed.

(** The loop keeps the counter in step with the reported results, also
    when it throws. *)
Lemma rounds_count c0 question range cfg session n :
  forall round l s,
    locals_agree c0 l s ->
    match rounds question range cfg session n round l s with
    | (Ok l', s') => locals_agree c0 l' s'
    | (Throw _, s') => counter_agrees c0 s'
    end.
Proof.
  induction n as [| n IH]; intros round l s Hl; cbn [rounds]; [exact Hl |].
  unfold round_body. unfold mbind at 1 2, M_bind at 1 2.
  pose proof (same_jobs_askModel cfg session round l s) as Hask.
  destruct (askModel cfg session round l s) as [[completion | e] s1]; cbn [snd] in Hask.
  2:{ eapply counter_agrees_same_jobs; [exact Hask |].
      eapply locals_agree_counter; exact Hl. }
  assert (Hl1 : locals_agree c0 l s1).
  { eapply locals_agree_same_jobs; [exact Hask | reflexivity | exact Hl]. }
  pose proof (react_counts c0 question range session round l completion s1 Hl1) as Hr.
  destruct (react question range session round l completion s1) as [[[l' | l'] | e] s2].
  - apply IH. exact Hr.
  - exact Hr.
  - exact Hr.
Qed.

End CounterInTheLoop.

Section CounterOfARequest.
Context {B : Builtins} {C : Collaborators}.

Lemma conversation_counts c0 question tid session s :
  locals_agree c0 {| history := []; refetchJobs := 0 |} s ->
  counter_agrees c0 (snd (conversation question tid session s)).
Proof.
  intros Hl. unfold conversation. unfold mbind at 1, M_bind at 1.
  pose proof (same_jobs_prepare question tid s) as Hp.
  destruct (prepare question tid s) as [[[[range cfg] h0] | e] sa]; cbn [snd] in *.
  2:{ eapply counter_agrees_same_jobs; [exact Hp |].
      eapply locals_agree_counter; exact Hl. }
  unfold mbind at 1, M_bind at 1.
  pose proof (rounds_count c0 question range cfg session MAX_TOOL_ROUNDS 0
                {| history := h0; refetchJobs := 0 |} sa) as Hr.
  destruct (rounds _ _ _ _ _ _ _ sa) as [[l | e] sb]; cbn [snd].
  - eapply counter_agrees_same_jobs with (s := sb).
    + split; [reflexivity |]. eexists [_]. split; reflexivity.
    + eapply locals_agree_counter. apply Hr.
      eapply locals_agree_same_jobs; [exact Hp | reflexivity | exact Hl].
  - apply Hr. eapply locals_agree_same_jobs; [exact Hp | reflexivity | exact Hl].
Qed.

Lemma detached_counts c0 question tid session s :
  locals_agree c0 {| history := []; refetchJobs := 0 |} s ->
  counter_agrees c0 (snd (detached question tid session s)).
Proof.
  intros Hl. unfold detached, try_finally, try_catch.
  pose proof (conversation_counts c0 question tid session s Hl) as Hc.
  destruct (conversation question tid session s) as [[u | e] s1]; cbn [snd] in *.
  - eapply counter_agrees_same_jobs; [| exact Hc].
    split; [reflexivity |]. exists []. rewrite app_nil_r. split; reflexivity.
  - pose proof (same_jobs_failed e s1) as Hf.
    destruct (conversation_failed e s1) as [r s2]; cbn [snd] in *.
    eapply counter_agrees_same_jobs; [| eapply counter_agrees_same_jobs; [exact Hf | exact Hc]].
    split; [reflexivity |]. exists []. rewrite app_nil_r. split; reflexivity.
Qed.

End CounterOfARequest.

(** C8. Within a request the mutation-count stream starts at 0 and then
    receives one value, the previous one plus one, for each executed tool
    call whose reported result has [didMutate = true], and for no other:
    what it emitted is [0, 1, ..., k], where [k] counts those results
    among the results reported during the request; a result that carries
    an error, or that comes from a tool that is not a mutating one, never
    has the flag; so the values emitted are strictly increasing. *)
Theorem mutation_counter_counts `{Builtins} `{Collaborators}
    question tid session s :
  emitted (refetchJobsStream (streams s)) = [0] ->
  let s' := snd (detached question tid session s) in
  exists entries,
    console s' = console s ++ entries
    /\ emitted (refetchJobsStream (streams s')) = counting (mutations entries)
    /\ Forall honest entries
    /\ head (emitted (refetchJobsStream (streams s'))) = Some 0
    /\ (forall i j x y, (i < j)%nat ->
          emitted (refetchJobsStream (streams s')) !! i = Some x ->
          emitted (refetchJobsStream (streams s')) !! j = Some y -> x < y).
Proof.
  intros Hfresh s'.
  destruct (detached_counts (console s) question tid session s)
    as (entries & Hc & Hj & Hh).
  { exists []. rewrite app_nil_r, Hfresh. repeat split. constructor. }
  exists entries. fold s' in Hc, Hj. rewrite Hj.
  split; [exact Hc |]. split; [reflexivity |]. split; [exact Hh |].
  split; [apply counting_head | apply counting_increasing].
Qed.

Lemma mutation_counter_counts_witness :
  let s := Demo.boot
             [ Demo.no_range;
               Demo.requests_tools
                 [ Demo.call (js "get_calendar") None;
                   Demo.call (js "delete_event")
                     (Some (Demo.json_text [(js "event_id", js "E123")]));
                   Demo.call (js "delete_event")
                     (Some (Demo.json_text [(js "event_id", js "E404")]));
                   Demo.call (js "schedule_event")
                     (Some (Demo.json_text
                              [(js "start_time", js "2025-06-01T00:00:00.000Z");
                               (js "end_time", js "2025-06-08T00:00:00.000Z");
                               (js "summary", js "Review")])) ];
               Demo.says (js "Done.") ] in
  let s' := snd (detached (B := Demo.builtins) (C := Demo.collaborators)
                   (js "delete event with id E123") (js "t1") Demo.the_session s) in
  emitted (refetchJobsStream (streams s')) = [0; 1; 2]
  /\ exists entries,
       console s' = console s ++ entries /\ mutations entries = 2%nat.
Proof.
  cbv zeta.
  destruct (mutation_counter_counts (H := Demo.builtins) (H0 := Demo.collaborators)
              (js "delete event with id E123") (js "t1") Demo.the_session
              (Demo.boot
                 [ Demo.no_range;
                   Demo.requests_tools
                     [ Demo.call (js "get_calendar") None;
                       Demo.call (js "delete_event")
                         (Some (Demo.json_text [(js "event_id", js "E123")]));
                       Demo.call (js "delete_event")
                         (Some (Demo.json_text [(js "event_id", js "E404")]));
                       Demo.call (js "schedule_event")
                         (Some (Demo.json_text
                                  [(js "start_time", js "2025-06-01T00:00:00.000Z");
                                   (js "end_time", js "2025-06-08T00:00:00.000Z");
                                   (js "summary", js "Review")])) ];
                   Demo.says (js "Done.") ])
              eq_refl)
    as (entries & Hc & Hj & _).
  assert (E : emitted (refetchJobsStream (streams (snd (detached
                (B := Demo.builtins) (C := Demo.collaborators)
                (js "delete event with id E123") (js "t1") Demo.the_session
                (Demo.boot
                   [ Demo.no_range;
                     Demo.requests_tools
                       [ Demo.call (js "get_calendar") None;
                         Demo.call (js "delete_event")
                           (Some (Demo.json_text [(js "event_id", js "E123")]));
                         Demo.call (js "delete_event")
                           (Some (Demo.json_text [(js "event_id", js "E404")]));
                         Demo.call (js "schedule_event")
                           (Some (Demo.json_text
                                    [(js "start_time", js "2025-06-01T00:00:00.000Z");
                                     (js "end_time", js "2025-06-08T00:00:00.000Z");
                                     (js "summary", js "Review")])) ];
                     Demo.says (js "Done.") ]))))) = [0; 1; 2]).
  { vm_compute. reflexivity. }
  split; [exact E |].
  exists entries. split; [exact Hc |].
  rewrite E in Hj. unfold counting in Hj.
  apply (f_equal length) in Hj. rewrite length_map, length_seq in Hj.
  cbn in Hj. lia.
Defined.

(* ===================================================================== *)
(** * The earlier variant: the store and the extractor *)
(* ===================================================================== *)

Section LegacyFacts.
Context {B : Builtins} {C : Collaborators}.

Lemma bound_kept_refl s : bound_kept s s.
Proof. intros H. exact H. Qed.

Lemma bound_kept_trans s1 s2 s3 : bound_kept s1 s2 -> bound_kept s2 s3 -> bound_kept s1 s3.
Proof. unfold bound_kept. auto. Qed.

Ltac side :=
  first [ exact bound_kept_refl | exact bound_kept_trans
        | unfold keeps; intros; apply bound_kept_same_store; reflexivity ].

Lemma request_bound {A} (o : Outbound) (f : World -> Res A * World) :
  keeps bound_kept (request o f).
Proof.
  intros s. unfold request. destruct (f (world s)) as [r w].
  apply bound_kept_same_store. reflexivity.
Qed.

Ltac legacy_step :=
  first
    [ apply request_bound
    | apply keeps_ret; side | apply keeps_lift; side | apply keeps_throw; side
    | apply keeps_now; side | apply keeps_fresh_id; side
    | apply keeps_request_session; side | apply keeps_store_get; side
    | apply keeps_loadAssistantConfig; side
    | apply keeps_request; first [ side | reflexivity ]
    | apply keeps_log; first [ side | reflexivity ]
    | (intros ?; apply bound_kept_same_store; reflexivity)
    | apply keeps_bind; [side | | intros ?]
    | apply keeps_try_catch; [side | | intros ?]
    | match goal with
      | |- keeps _ (if ?b then _ else _) => destruct b
      | |- keeps _ (match ?x with _ => _ end) => destruct x
      end ].

Lemma legacy_extract_bound question :
  keeps bound_kept (Legacy.extractTimeRangeFromQuestion question).
Proof.
  unfold Legacy.extractTimeRangeFromQuestion, Legacy.validateRange. cbv zeta.
  repeat legacy_step.
Qed.

Lemma legacy_executeCalendarTool_bound toolCall userEmail :
  keeps bound_kept (Legacy.executeCalendarTool toolCall userEmail).
Proof.
  unfold Legacy.executeCalendarTool, Legacy.executeCalendarTool_try. cbv zeta.
  repeat legacy_step.
Qed.

Lemma legacy_runToolCalls_bound modern session calls :
  forall l, keeps bound_kept (Legacy.runToolCalls modern session calls l).
Proof.
  induction calls as [| c calls IH]; intros l; cbn [Legacy.runToolCalls].
  - apply keeps_ret; side.
  - apply keeps_bind; [side | | intros l'; apply IH].
    unfold Legacy.runToolCall. cbv zeta.
    repeat first [ apply legacy_executeCalendarTool_bound | legacy_step ].
Qed.

Lemma legacy_rounds_bound cfg session n :
  forall round l, keeps bound_kept (Legacy.rounds cfg session n round l).
Proof.
  induction n as [| n IH]; intros round l; cbn [Legacy.rounds].
  - apply keeps_ret; side.
  - unfold Legacy.round_body. cbv zeta.
    repeat first [ apply IH | apply legacy_runToolCalls_bound | legacy_step ].
Qed.

Lemma legacy_write_bound tid l :
  keeps bound_kept
    (modify (fun s =>
       set_conversationStore
         (<[tid := slice_last 30 (history l)]> (conversationStore s)) s)).
Proof.
  intros s Hs tid' h. cbn [modify snd set_conversationStore conversationStore].
  destruct (decide (tid = tid')) as [<- | Hne].
  - rewrite lookup_insert_eq. intros E. injection E as <-. apply length_slice_last.
  - rewrite lookup_insert_ne by assumption. apply Hs.
Qed.

Lemma legacy_submitMessage_bound question threadId :
  keeps bound_kept (Legacy.submitMessage question threadId).
Proof.
  unfold Legacy.submitMessage, Legacy.detached, Legacy.conversation,
    Legacy.conversation_failed.
  repeat first
    [ apply legacy_write_bound | apply legacy_rounds_bound
    | apply legacy_extract_bound
    | apply keeps_try_finally;
        [side | | intros ?; apply bound_kept_same_store; reflexivity]
    | legacy_step ].
Qed.

(** The earlier variant keeps the same bound on the store. *)
Lemma legacy_store_bound requests s :
  store_bounded s -> store_bounded (Legacy.serve requests s).
Proof.
  revert s. induction requests as [| [question threadId] rest IH]; intros s Hb;
    [exact Hb |].
  cbn [Legacy.serve]. apply IH. apply (legacy_submitMessage_bound question threadId s Hb).
Qed.

(** The earlier extractor lets a failure of its request through; the
    content of an answer never makes it throw. *)
Lemma legacy_extract_propagates_failure question s e w :
  chat_completions_create
    (Legacy.rangeRequest (toISOString (fst (Date_now (world s)))) question)
    (snd (Date_now (world s))) = (Throw e, w) ->
  fst (Legacy.extractTimeRangeFromQuestion question s) = Throw e.
Proof.
  intros E. unfold Legacy.extractTimeRangeFromQuestion.
  unfold mbind at 1, M_bind at 1, now.
  destruct (Date_now (world s)) as [t w1]. cbn [fst snd] in *.
  unfold mbind at 1, M_bind at 1, request. cbn [world set_world].
  rewrite E. reflexivity.
Qed.

Lemma legacy_extract_answered question s response w :
  chat_completions_create
    (Legacy.rangeRequest (toISOString (fst (Date_now (world s)))) question)
    (snd (Date_now (world s))) = (Ok response, w) ->
  exists r, fst (Legacy.extractTimeRangeFromQuestion question s) = Ok r.
Proof.
  intros E. unfold Legacy.extractTimeRangeFromQuestion.
  unfold mbind at 1, M_bind at 1, now.
  destruct (Date_now (world s)) as [t w1]. cbn [fst snd] in *.
  unfold mbind at 1, M_bind at 1, request. cbn [world set_world].
  rewrite E.
  destruct (first_content response) as [[| c0 content] |];
    try (eexists; reflexivity).
  unfold try_catch.
  destruct (Legacy.validateRange (c0 :: content) _) as [[r | e] s1];
    eexists; reflexivity.
Qed.

(** The validation of the earlier copy returns a range only when every
    check passed and its instants are in order. *)
Lemma legacy_validateRange_sound content s range s' :
  Legacy.validateRange content s = (Ok (Some range), s') ->
  exists parsed start end_ t0 t1,
    JSON_parse content = Some parsed
    /\ prop parsed (js "start") = Ok start /\ truthy start = true
    /\ prop parsed (js "end") = Ok end_ /\ truthy end_ = true
    /\ Date_new start = Ok (Some t0) /\ Date_new end_ = Ok (Some t1)
    /\ t0 < t1
    /\ range = {| range_start := toISOString t0; range_end := toISOString t1 |}.
Proof.
  unfold Legacy.validateRange, mbind, M_bind, lift.
  destruct (JSON_parse content) as [parsed |]; [| discriminate].
  destruct (prop parsed (js "start")) as [start |] eqn:Es; [| discriminate].
  destruct (truthy start) eqn:Ets; cbn [negb]; [| discriminate].
  destruct (prop parsed (js "end")) as [end_ |] eqn:Ee; [| discriminate].
  destruct (truthy end_) eqn:Ete; cbn [negb]; [| discriminate].
  destruct (Date_new start) as [[t0 |] |] eqn:Ds;
    destruct (Date_new end_) as [[t1 |] |] eqn:De; try discriminate.
  destruct (t1 <=? t0) eqn:Ele; [discriminate |].
  cbn. intros E. injection E as <- _.
  exists parsed, start, end_, t0, t1.
  apply Z.leb_gt in Ele. repeat split; auto.
Qed.

(** The earlier extractor lets a failure of its request through; on an
    answer it returns, and a range only with its instants in order. *)
Lemma legacy_extract_run question s :
  match fst (chat_completions_create
               (Legacy.rangeRequest (toISOString (fst (Date_now (world s)))) question)
               (snd (Date_now (world s)))) with
  | Throw e => fst (Legacy.extractTimeRangeFromQuestion question s) = Throw e
  | Ok response =>
    exists r,
      fst (Legacy.extractTimeRangeFromQuestion question s) = Ok r
      /\ forall range, r = Some range ->
         exists content parsed start end_ t0 t1,
           first_content response = Some content /\ content <> []
           /\ JSON_parse content = Some parsed
           /\ prop parsed (js "start") = Ok start /\ truthy start = true
           /\ prop parsed (js "end") = Ok end_ /\ truthy end_ = true
           /\ Date_new start = Ok (Some t0) /\ Date_new end_ = Ok (Some t1)
           /\ t0 < t1
           /\ range = {| range_start := toISOString t0;
                         range_end := toISOString t1 |}
  end.
Proof.
  destruct (chat_completions_create _ _) as [[response | e] w] eqn:Ec; cbn [fst].
  2: exact (legacy_extract_propagates_failure question s e w Ec).
  revert Ec. unfold Legacy.extractTimeRangeFromQuestion.
  unfold mbind at 1, M_bind at 1, now.
  destruct (Date_now (world s)) as [t w1]. cbn [fst snd]. intros Ec.
  unfold mbind at 1, M_bind at 1, request. cbn [world set_world]. rewrite Ec.
  destruct (first_content response) as [[| c0 content] |];
    try (exists None; split; [reflexivity | discriminate]).
  unfold try_catch.
  destruct (Legacy.validateRange (c0 :: content) _) as [[r | e] s1] eqn:Ev.
  - exists r. split; [reflexivity |]. intros range ->.
    destruct (legacy_validateRange_sound _ _ _ _ Ev)
      as (parsed & start & end_ & t0 & t1 & Hsound).
    exists (c0 :: content), parsed, start, end_, t0, t1.
    split; [reflexivity |]. split; [discriminate | exact Hsound].
  - exists None. split; [reflexivity | discriminate].
Qed.

End LegacyFacts.

(** C4, as amended. [extractTimeRangeFromQuestion] of the current module
    never throws, whatever the completion service does, and it returns a
    range only when the request succeeded, the content of the first choice
    is a non-empty text that parses as JSON, the [start] and [end] of the
    parsed value are truthy and convert to valid dates, and the end is
    after the start; in every other case it returns null.  The earlier
    copy of the function returns in the same way on every answer of the
    service, a range under the same conditions and null otherwise, but
    it throws what the request throws when the request itself fails. *)
Theorem extract_raises_only_in_earlier_copy `{Builtins} `{Collaborators} question s :
  (exists r s', extractTimeRangeFromQuestion question s = (Ok r, s')
     /\ forall range, r = Some range ->
        exists response content parsed start end_ t0 t1,
          fst (chat_completions_create
                 (rangeRequest (toISOString (fst (Date_now (world s)))) question)
                 (snd (Date_now (world s)))) = Ok response
          /\ first_content response = Some content /\ content <> []
          /\ JSON_parse content = Some parsed
          /\ prop parsed (js "start") = Ok start /\ truthy start = true
          /\ prop parsed (js "end") = Ok end_ /\ truthy end_ = true
          /\ Date_new start = Ok (Some t0) /\ Date_new end_ = Ok (Some t1)
          /\ t0 < t1
          /\ range = {| range_start := toISOString t0;
                        range_end := toISOString t1 |})
  /\ match fst (chat_completions_create
                  (Legacy.rangeRequest (toISOString (fst (Date_now (world s)))) question)
                  (snd (Date_now (world s)))) with
     | Throw e => fst (Legacy.extractTimeRangeFromQuestion question s) = Throw e
     | Ok response =>
       exists r,
         fst (Legacy.extractTimeRangeFromQuestion question s) = Ok r
         /\ forall range, r = Some range ->
            exists content parsed start end_ t0 t1,
              first_content response = Some content /\ content <> []
              /\ JSON_parse content = Some parsed
              /\ prop parsed (js "start") = Ok start /\ truthy start = true
              /\ prop parsed (js "end") = Ok end_ /\ truthy end_ = true
              /\ Date_new start = Ok (Some t0) /\ Date_new end_ = Ok (Some t1)
              /\ t0 < t1
              /\ range = {| range_start := toISOString t0;
                            range_end := toISOString t1 |}
     end.
Proof.
  split; [apply extract_returns | apply legacy_extract_run].
Qed.

(** C4 as stated fails for the earlier copy: on a failure of the request
    it throws, where the current one returns null. *)
Lemma extract_never_raises_counterexample :
  fst (Legacy.extractTimeRangeFromQuestion (B := Demo.builtins)
         (C := Demo.collaborators) (js "what is on today?")
         (Demo.boot [Throw Demo.connection_error]))
  = Throw Demo.connection_error
  /\ fst (extractTimeRangeFromQuestion (B := Demo.builtins)
            (C := Demo.collaborators) (js "what is on today?")
            (Demo.boot [Throw Demo.connection_error]))
     = Ok None.
Proof. split; vm_compute; reflexivity. Qed.

(** C7. Whatever requests are served, for whatever threads and whatever
    the collaborators answer, no history in the thread store is longer
    than 30: the store starts empty, and a request either leaves it as it
    is or writes, under its thread id, the last 30 messages of its
    history.  The earlier variant of the module keeps the same bound. *)
Theorem stored_history_bounded `{Builtins} `{Collaborators} requests s :
  conversationStore s = ∅ ->
  (forall tid h, conversationStore (serve requests s) !! tid = Some h ->
                 (length h <= 30)%nat)
  /\ (forall question tid session s0,
        match conversation question tid session s0 with
        | (Ok _, s1) =>
          exists h, conversationStore s1
                    = <[tid := slice_last 30 h]> (conversationStore s0)
        | (Throw _, s1) => conversationStore s1 = conversationStore s0
        end)
  /\ (forall tid h, conversationStore (Legacy.serve requests s) !! tid = Some h ->
                    (length h <= 30)%nat).
Proof.
  intros Hempty.
  assert (Hb : store_bounded s).
  { intros tid h. rewrite Hempty, lookup_empty. discriminate. }
  split; [| split].
  - clear Hempty. revert s Hb.
    induction requests as [| [question threadId] rest IH]; intros s Hb; [exact Hb |].
    cbn [serve]. apply IH. apply (submitMessage_bound question threadId s Hb).
  - intros question tid session s0.
    pose proof (conversation_store question tid session s0) as Hc.
    destruct (conversation question tid session s0) as [[u | e] s1]; [| exact Hc].
    destruct Hc as (range & cfg & h0 & sa & l & sb & _ & _ & Hw & _).
    exists (history l). exact Hw.
  - apply legacy_store_bound. exact Hb.
Qed.

Lemma stored_history_bounded_witness :
  let script := concat (repeat [Demo.no_range; Demo.says (js "Noted.")] 16) in
  let requests := repeat (js "remember this", js "t1") 16 in
  conversationStore (Demo.boot script) = ∅
  /\ exists h,
       conversationStore (serve (B := Demo.builtins) (C := Demo.collaborators)
                            requests (Demo.boot script)) !! js "t1" = Some h
       /\ length h = 30%nat /\ (length h <= 30)%nat.
Proof.
  cbv zeta. split; [reflexivity |].
  eexists. split; [vm_compute; reflexivity |]. split; [reflexivity |].
  apply (proj1 (stored_history_bounded (H := Demo.builtins) (H0 := Demo.collaborators)
                  (repeat (js "remember this", js "t1") 16)
                  (Demo.boot (concat (repeat [Demo.no_range; Demo.says (js "Noted.")] 16)))
                  eq_refl) (js "t1")).
  vm_compute. reflexivity.
Defined.

(* ===================================================================== *)
(** * The scenarios of the specification, run on the concrete platform *)
(* ===================================================================== *)

Section Scenarios.
Import Demo.

(** Scenario A: a deletion with its identifier is executed at once; the
    counter becomes 1 and no clarification is asked. *)
Example scenario_A :
  let s := snd (submitMessage (js "delete event with id E123") (js "t1")
                  (boot [ no_range;
                          requests_tools
                            [call (js "delete_event")
                               (Some (json_text [(js "event_id", js "E123")]))];
                          says (js "Deleted.") ])) in
  emitted (refetchJobsStream (streams s)) = [0; 1]
  /\ emitted (textStream (streams s)) = [[]; js "Deleted."]
  /\ filter (fun o => is_provider_request o = true) (sent s)
     = [EventsDelete (js "primary") (JStr (js "E123"))]
  /\ all_closed (streams s).
Proof. cbv zeta. split; [| split; [| split]]; try (vm_compute; reflexivity). repeat split. Qed.

(** Scenario B: scheduling intent with an ambiguous time and no concrete
    field: the answer is the clarification prompt and nothing is
    mutated. *)
Example scenario_B :
  let s := snd (submitMessage (js "安排一下复习，最近找时间") (js "t1")
                  (boot [ no_range;
                          requests_tools [call (js "schedule_event") None];
                          says (js "Scheduled.") ])) in
  let prompt :=
    js "在我创建或修改日程之前，我先确认几个关键信息：" ++ [10]
    ++ js "1. 计划从哪天开始，到哪天结束？" ++ [10]
    ++ js "2. 每周准备几次？每次多长时间？" ++ [10]
    ++ js "3. 你偏好的时间段是哪些（如工作日晚上、周末上午）？" ++ [10]
    ++ js "4. 是否要避开已有日程并自动找空档？" ++ [10]
    ++ js "5. 是否需要提前提醒（提前多久）？" ++ [10]
    ++ js "你回复这些信息后，我再执行具体安排。" in
  emitted (refetchJobsStream (streams s)) = [0]
  /\ emitted (textStream (streams s)) = [[]; prompt]
  /\ filter (fun o => is_provider_request o = true) (sent s) = []
  /\ conversationStore s !! js "t1"
     = Some [ MUser (js "安排一下复习，最近找时间"); MAssistant prompt None None ].
Proof. cbv zeta. repeat split; vm_compute; reflexivity. Qed.

(** Scenario D: the request of the extractor fails; the request goes on
    without a range and the loop ends normally. *)
Example scenario_D :
  let s := snd (submitMessage (js "what is on today?") (js "t1")
                  (boot [ Throw connection_error; says (js "Nothing.") ])) in
  emitted (refetchRangeStream (streams s)) = [None; None]
  /\ emitted (textStream (streams s)) = [[]; js "Nothing."]
  /\ last (console s) = Some (LogRequestComplete 2).
Proof. cbv zeta. repeat split; vm_compute; reflexivity. Qed.

(** The earlier extractor, on the same failure, throws. *)
Example scenario_D_legacy :
  fst (Legacy.extractTimeRangeFromQuestion (js "what is on today?")
         (boot [Throw connection_error])) = Throw connection_error
  /\ fst (extractTimeRangeFromQuestion (js "what is on today?")
            (boot [Throw connection_error])) = Ok None.
Proof. split; vm_compute; reflexivity. Qed.

(** Scenario E: an unknown tool is answered with an error result and the
    loop goes on to the next round. *)
Example scenario_E :
  let s := snd (submitMessage (js "send a mail to Bob") (js "t1")
                  (boot [ no_range;
                          requests_tools [call (js "send_email") None];
                          says (js "I cannot send mail.") ])) in
  conversationStore s !! js "t1"
  = Some [ MUser (js "send a mail to Bob");
           MAssistant [] (Some [call (js "send_email") None]) None;
           MTool (js "call_1") (OutError (js "Unsupported tool: send_email"));
           MAssistant (js "I cannot send mail.") None None ]
  /\ emitted (refetchJobsStream (streams s)) = [0]
  /\ length (filter (fun o => is_assistant_request o = true) (sent s)) = 2%nat.
Proof. cbv zeta. repeat split; vm_compute; reflexivity. Qed.

(** The budget is reached when the model keeps asking for tools: 8
    completion requests, then the loop stops and the history is stored. *)
Example round_budget_exhausted :
  let s := snd (submitMessage (js "what is on today?") (js "t1")
                  (boot (no_range
                         :: repeat (requests_tools [call (js "get_calendar") None]) 12))) in
  length (filter (fun o => is_assistant_request o = true) (sent s)) = 8%nat
  /\ (length <$> conversationStore s !! js "t1") = Some 17%nat
  /\ last (emitted (status (streams s))) = Some (js "conversation.model_round_8").
Proof. cbv zeta. repeat split; vm_compute; reflexivity. Qed.

(** The extractor on a well-formed and on a reversed range. *)
Example extract_examples :
  fst (extractTimeRangeFromQuestion (js "next week")
         (boot [says (json_text [(js "start", js "2025-06-01T00:00:00.000Z");
                                 (js "end", js "2025-06-08T00:00:00.000Z")])]))
  = Ok (Some {| range_start := js "2025-06-01T00:00:00.000Z";
                range_end := js "2025-06-08T00:00:00.000Z" |})
  /\ fst (extractTimeRangeFromQuestion (js "next week")
            (boot [says (json_text [(js "start", js "2025-06-08T00:00:00.000Z");
                                    (js "end", js "2025-06-01T00:00:00.000Z")])]))
     = Ok None
  /\ fst (extractTimeRangeFromQuestion (js "next week") (boot [says (js "{start")]))
     = Ok None.
Proof. repeat split; vm_compute; reflexivity. Qed.

End Scenarios.

(* ===================================================================== *)
(** * The regular expression engine on the patterns of the gate *)
(* ===================================================================== *)

Module RegexFacts.
Import Regex.

Lemma match_at_Empty s : match_at Empty s = false.
Proof. induction s as [| c s IH]; [reflexivity | exact IH]. Qed.

Lemma lit_shape p : lit p = Eps \/ exists c r, lit p = Cat (Chr c) r.
Proof. destruct p as [| c p]; [left; reflexivity | right; eexists; eexists; reflexivity]. Qed.

Lemma deriv_lit c x p :
  deriv c (lit (x :: p)) = if c =? x then lit p else Empty.
Proof.
  change (lit (x :: p)) with (Cat (Chr x) (lit p)). cbn [deriv nullable].
  destruct (c =? x); [| reflexivity].
  destruct (lit_shape p) as [-> | (c' & r & ->)]; reflexivity.
Qed.

(** A literal pattern matches at the start of [s] exactly when it is a
    prefix of [s]. *)
Lemma match_at_lit p :
  forall s, match_at (lit p) s = true <-> exists b, s = p ++ b.
Proof.
  induction p as [| x p IH]; intros s.
  - split; [intros _; exists s; reflexivity |].
    intros _. destruct s; reflexivity.
  - destruct s as [| c s].
    + split; [discriminate | intros (b & E); discriminate E].
    + change (match_at (lit (x :: p)) (c :: s))
        with (match_at (deriv c (lit (x :: p))) s).
      rewrite deriv_lit. destruct (Z.eqb_spec c x) as [-> | Hne].
      * rewrite IH. split; intros (b & E); exists b.
        -- rewrite E. reflexivity.
        -- injection E as E. exact E.
      * rewrite match_at_Empty. split; [discriminate |].
        intros (b & E). injection E as E _. contradiction.
Qed.

(** [test] looks for a match at every position. *)
Lemma test_somewhere r :
  forall s, test r s = true <-> exists a b, s = a ++ b /\ match_at r b = true.
Proof.
  induction s as [| c s IH]; cbn [test].
  - rewrite orb_false_r. split.
    + intros E. exists [], []. split; [reflexivity | exact E].
    + intros (a & b & E & Hm). destruct a, b; try discriminate. exact Hm.
  - rewrite orb_true_iff, IH. split.
    + intros [Hm | (a & b & E & Hm)].
      * exists [], (c :: s). split; [reflexivity | exact Hm].
      * exists (c :: a), b. split; [rewrite E; reflexivity | exact Hm].
    + intros (a & b & E & Hm). destruct a as [| c' a].
      * left. cbn in E. rewrite E. exact Hm.
      * right. injection E as _ E. exists a, b. split; assumption.
Qed.

(** A literal pattern tests for a substring. *)
Lemma test_lit p s :
  test (lit p) s = true <-> exists a b, s = a ++ p ++ b.
Proof.
  rewrite test_somewhere. split.
  - intros (a & b & E & Hm). apply match_at_lit in Hm. destruct Hm as (b' & ->).
    exists a, b'. exact E.
  - intros (a & b & E). exists a, (p ++ b). split; [exact E |].
    apply match_at_lit. exists b. reflexivity.
Qed.

Lemma matches_Empty s : ~ matches Empty s.
Proof. intros H. inversion H. Qed.

Lemma nullable_spec r : nullable r = true <-> matches r [].
Proof.
  induction r as [| | c | c | | r1 IH1 r2 IH2 | r1 IH1 r2 IH2 | r IH]; cbn [nullable].
  - split; [discriminate | intros H; inversion H].
  - split; [intros _; constructor | reflexivity].
  - split; [discriminate | intros H; inversion H].
  - split; [discriminate | intros H; inversion H].
  - split; [discriminate | intros H; inversion H].
  - rewrite andb_true_iff, IH1, IH2. split.
    + intros [H1 H2]. apply (matches_cat r1 r2 [] [] H1 H2).
    + intros H. inversion H; subst.
      match goal with E : _ ++ _ = [] |- _ =>
        apply app_eq_nil in E; destruct E as [-> ->] end.
      split; assumption.
  - rewrite orb_true_iff, IH1, IH2. split.
    + intros [H | H]; [apply matches_alt_l | apply matches_alt_r]; exact H.
    + intros H. inversion H; [left | right]; assumption.
  - split; [intros _; constructor | reflexivity].
Qed.

Lemma cat_cases r1 r2 :
  cat r1 r2 = Cat r1 r2
  \/ (cat r1 r2 = Empty /\ (r1 = Empty \/ r2 = Empty))
  \/ (cat r1 r2 = r2 /\ r1 = Eps).
Proof. destruct r1, r2; cbn; auto. Qed.

Lemma alt_cases r1 r2 :
  alt r1 r2 = Alt r1 r2
  \/ (alt r1 r2 = r2 /\ r1 = Empty)
  \/ (alt r1 r2 = r1 /\ r2 = Empty).
Proof. destruct r1, r2; cbn; auto. Qed.

Lemma cat_spec r1 r2 s : matches (cat r1 r2) s <-> matches (Cat r1 r2) s.
Proof.
  destruct (cat_cases r1 r2) as [-> | [[-> [-> | ->]] | [-> ->]]].
  - reflexivity.
  - split; intros H; inversion H; subst.
    match goal with H1 : matches Empty _ |- _ => inversion H1 end.
  - split; intros H; inversion H; subst.
    match goal with H1 : matches Empty _ |- _ => inversion H1 end.
  - split.
    + intros H. apply (matches_cat Eps r2 [] s); [constructor | exact H].
    + intros H. inversion H; subst.
      match goal with H1 : matches Eps _ |- _ => inversion H1; subst end.
      assumption.
Qed.

Lemma alt_spec r1 r2 s : matches (alt r1 r2) s <-> matches (Alt r1 r2) s.
Proof.
  destruct (alt_cases r1 r2) as [-> | [[-> ->] | [-> ->]]].
  - reflexivity.
  - split; [apply matches_alt_r |].
    intros H. inversion H; subst; [| assumption].
    match goal with H1 : matches Empty _ |- _ => inversion H1 end.
  - split; [apply matches_alt_l |].
    intros H. inversion H; subst; [assumption |].
    match goal with H1 : matches Empty _ |- _ => inversion H1 end.
Qed.

(** A non-empty match of a star starts with a non-empty match of its
    body. *)
Lemma star_cons r c s :
  matches (Star r) (c :: s) ->
  exists s1 s2, s = s1 ++ s2 /\ matches r (c :: s1) /\ matches (Star r) s2.
Proof.
  intros H. remember (Star r) as r' eqn:Er. remember (c :: s) as t eqn:Et.
  revert s Et.
  induction H as [| | | | | | | | r0 s1 s2 H1 _ H2 IH2]; intros t' Et'; try discriminate.
  injection Er as ->.
  destruct s1 as [| c' s1].
  - apply IH2; [reflexivity | exact Et'].
  - cbn in Et'. injection Et' as -> <-. exists s1, s2. auto.
Qed.

(** The derivative matches what is left of a match after its first code
    unit. *)
Lemma deriv_spec r : forall c s, matches (deriv c r) s <-> matches r (c :: s).
Proof.
  induction r as [| | a | a | | r1 IH1 r2 IH2 | r1 IH1 r2 IH2 | r IH];
    intros c s; cbn [deriv].
  - split; intros H; inversion H.
  - split; intros H; inversion H.
  - destruct (Z.eqb_spec c a) as [-> | Hne]; split; intros H; inversion H; subst.
    + constructor.
    + constructor.
    + contradiction.
  - destruct (Z.eqb_spec (canonicalize c) (canonicalize a)) as [E | Hne];
      split; intros H; inversion H; subst.
    + constructor. exact E.
    + constructor.
    + contradiction.
  - destruct (is_space c) eqn:E; split; intros H; inversion H; subst.
    + constructor. exact E.
    + constructor.
    + congruence.
  - rewrite alt_spec. split.
    + intros H. inversion H as [| | | | | ? ? ? HL | ? ? ? HR | |]; subst.
      * apply cat_spec in HL. inversion HL; subst.
        match goal with
        | H1 : matches (deriv c r1) ?s1, H2 : matches r2 ?s2 |- _ =>
          apply IH1 in H1; apply (matches_cat r1 r2 (c :: s1) s2 H1 H2)
        end.
      * destruct (nullable r1) eqn:En; [| inversion HR].
        apply nullable_spec in En. apply IH2 in HR.
        apply (matches_cat r1 r2 [] (c :: s) En HR).
    + intros H. inversion H; subst.
      match goal with
      | E : ?s1 ++ ?s2 = c :: s, H1 : matches r1 ?s1, H2 : matches r2 ?s2 |- _ =>
        destruct s1 as [| c' s1]; cbn in E
      end.
      * subst. apply matches_alt_r.
        match goal with H1 : matches r1 [] |- _ =>
          apply nullable_spec in H1; rewrite H1 end.
        apply IH2. assumption.
      * match goal with E : _ :: _ = _ :: _ |- _ => injection E as -> <- end.
        apply matches_alt_l. apply cat_spec.
        apply matches_cat; [apply IH1 |]; assumption.
  - rewrite alt_spec. split.
    + intros H. inversion H; subst;
        [apply matches_alt_l; apply IH1 | apply matches_alt_r; apply IH2]; assumption.
    + intros H. inversion H; subst;
        [apply matches_alt_l; apply IH1 | apply matches_alt_r; apply IH2]; assumption.
  - rewrite cat_spec. split.
    + intros H. inversion H; subst.
      match goal with
      | H1 : matches (deriv c r) ?s1, H2 : matches (Star r) ?s2 |- _ =>
        apply IH in H1; apply (matches_star_app r (c :: s1) s2 H1 H2)
      end.
    + intros H. apply star_cons in H. destruct H as (s1 & s2 & -> & H1 & H2).
      apply matches_cat; [apply IH; exact H1 | exact H2].
Qed.

(** [match_at] finds a prefix the pattern matches. *)
Lemma match_at_spec s :
  forall r, match_at r s = true <-> exists p b, s = p ++ b /\ matches r p.
Proof.
  induction s as [| c s IH]; intros r; cbn [match_at].
  - rewrite orb_false_r, nullable_spec. split.
    + intros H. exists [], []. split; [reflexivity | exact H].
    + intros (p & b & E & H). destruct p; [exact H | discriminate].
  - rewrite orb_true_iff, nullable_spec, IH. split.
    + intros [H | (p & b & E & H)].
      * exists [], (c :: s). split; [reflexivity | exact H].
      * exists (c :: p), b. split; [rewrite E; reflexivity | apply deriv_spec; exact H].
    + intros (p & b & E & H). destruct p as [| c' p].
      * left. exact H.
      * right. cbn in E. injection E as <- E. exists p, b.
        split; [exact E | apply deriv_spec; exact H].
Qed.

(** [test] answers whether some substring of the subject is matched by the
    pattern. *)
Lemma test_spec r s :
  test r s = true <-> exists a p b, s = a ++ p ++ b /\ matches r p.
Proof.
  rewrite test_somewhere. split.
  - intros (a & t & E & H). apply match_at_spec in H. destruct H as (p & b & -> & H).
    exists a, p, b. split; assumption.
  - intros (a & p & b & E & H). exists a, (p ++ b). split; [exact E |].
    apply match_at_spec. exists p, b. split; [reflexivity | exact H].
Qed.

(** The flagged patterns on a few subjects: case is ignored for ASCII
    letters only, and [\s+] wants at least one white space. *)
Example flagged_patterns :
  test (liti (js "schedule")) (js "Please SCHEDULE it") = true
  /\ test (liti (js "book")) (js "notebooks") = true
  /\ some_test noActionPatterns (js "Don't  Book anything") = true
  /\ some_test noActionPatterns (js "don'tbook anything") = false
  /\ some_test noActionPatterns (js "do not book anything") = false
  /\ some_test noActionPatterns (js "先别操作，我们聊聊") = true
  /\ some_test ambiguousPatterns (js "下周三左右") = true
  /\ some_test schedulingIntentPatterns (js "delete event with id E123") = false.
Proof. repeat split; vm_compute; reflexivity. Qed.

End RegexFacts.

(* ===================================================================== *)
(** * The event store of the client: merging, caching, failures *)
(* ===================================================================== *)

Module UseEventsFacts.
Import UseEvents.

Lemma str_eqb_eq (a b : jsstring) : str_eqb a b = true <-> a = b.
Proof.
  revert b. induction a as [| x a IH]; intros [| y b]; simpl;
    try (split; [discriminate | congruence]); [tauto |].
  rewrite andb_true_iff, Z.eqb_eq, IH. split; [intros [-> ->] | intros [= -> ->]]; auto.
Qed.

Lemma id_eqb_eq (a b : option jsstring) : id_eqb a b = true <-> a = b.
Proof.
  destruct a as [x |], b as [y |]; simpl;
    try (split; [discriminate | congruence]); [| tauto].
  rewrite str_eqb_eq. split; congruence.
Qed.

Lemma id_eqb_refl (a : option jsstring) : id_eqb a a = true.
Proof. apply id_eqb_eq. reflexivity. Qed.

Lemma id_eqb_neq (a b : option jsstring) : id_eqb a b = false <-> a <> b.
Proof.
  rewrite <- id_eqb_eq. destruct (id_eqb a b); split; congruence.
Qed.

Lemma findIndex_Some {A} (p : A -> bool) l i :
  findIndex p l = Some i ->
  exists x, l !! i = Some x /\ p x = true
            /\ forall j y, (j < i)%nat -> l !! j = Some y -> p y = false.
Proof.
  revert i. induction l as [| x l IH]; intros i; simpl; [discriminate |].
  destruct (p x) eqn:E.
  - intros [= <-]. exists x. repeat split; auto. intros j y Hj. lia.
  - destruct (findIndex p l) as [k |]; simpl; [| discriminate].
    intros [= <-]. destruct (IH k eq_refl) as (y & Hy & Hp & Hmin).
    exists y. repeat split; auto.
    intros [| j] z Hj; simpl; [intros [= <-]; exact E |].
    apply Hmin. lia.
Qed.

Lemma findIndex_None {A} (p : A -> bool) l :
  findIndex p l = None <-> forall x, In x l -> p x = false.
Proof.
  induction l as [| x l IH]; simpl; [tauto |].
  destruct (p x) eqn:E.
  - split; [discriminate |]. intros Hall. rewrite (Hall x) in E by auto. discriminate.
  - destruct (findIndex p l); simpl.
    + split; [discriminate |]. intros Hall.
      assert (Some n = None) by (apply IH; auto). discriminate.
    + split; auto. intros _ y [<- | Hy]; auto. apply IH; auto.
Qed.

(** [upsert] leaves the ids in place: a known id keeps its position, a
    new one goes to the end. *)
Lemma upsert_ids l e :
  map ei_id (upsert l e)
  = if existsb (id_eqb (ei_id e)) (map ei_id l) then map ei_id l
    else map ei_id l ++ [ei_id e].
Proof.
  unfold upsert.
  destruct (findIndex _ l) as [i |] eqn:Ef.
  - destruct (findIndex_Some _ _ _ Ef) as (x & Hx & Hp & _).
    apply id_eqb_eq in Hp.
    replace (existsb _ (map ei_id l)) with true.
    + rewrite list_fmap_insert. apply list_insert_id.
      rewrite list_lookup_fmap, Hx. simpl. congruence.
    + symmetry. apply existsb_exists. exists (ei_id x). split.
      * apply in_map. apply list_elem_of_In. eapply list_elem_of_lookup_2; eauto.
      * apply id_eqb_eq. congruence.
  - replace (existsb _ (map ei_id l)) with false.
    + rewrite map_app. reflexivity.
    + symmetry. apply not_true_is_false. intros H.
      apply existsb_exists in H as (i & Hi & He).
      apply in_map_iff in Hi as (x & <- & Hx).
      rewrite findIndex_None in Ef. specialize (Ef x Hx).
      apply id_eqb_eq in He. rewrite <- He, id_eqb_refl in Ef. discriminate.
Qed.

Lemma findIndex_map {A A'} (f : A -> A') (q : A' -> bool) l :
  findIndex (fun x => q (f x)) l = findIndex q (map f l).
Proof. induction l as [| x l IH]; simpl; [| rewrite IH]; reflexivity. Qed.

Lemma findIndex_app_l {A} (p : A -> bool) l l' k :
  findIndex p l = Some k -> findIndex p (l ++ l') = Some k.
Proof.
  revert k. induction l as [| x l IH]; intros k; simpl; [discriminate |].
  destruct (p x); [auto |].
  destruct (findIndex p l) as [j |]; simpl; [| discriminate].
  intros [= <-]. rewrite (IH j eq_refl). reflexivity.
Qed.

Lemma findIndex_lt {A} (p : A -> bool) l k :
  findIndex p l = Some k -> (k < length l)%nat.
Proof.
  intros H. destruct (findIndex_Some _ _ _ H) as (x & Hx & _).
  eapply lookup_lt_Some; eauto.
Qed.

(** The first event with a given id. *)
Lemma find_findIndex {A} (p : A -> bool) l :
  List.find p l = (findIndex p l ≫= fun k => l !! k).
Proof.
  induction l as [| x l IH]; simpl; [reflexivity |].
  destruct (p x); [reflexivity |]. rewrite IH.
  destruct (findIndex p l); reflexivity.
Qed.

(** The first index of an id is the same after [upsert], whatever the
    event merged. *)
Lemma findIndex_upsert i l e k :
  findIndex (fun x => id_eqb (ei_id x) i) l = Some k ->
  findIndex (fun x => id_eqb (ei_id x) i) (upsert l e) = Some k.
Proof.
  rewrite !(findIndex_map ei_id (fun j => id_eqb j i)), upsert_ids.
  destruct (existsb _ _); [auto | apply findIndex_app_l].
Qed.

(** What [upsert] leaves at a position of the list it is given. *)
Lemma upsert_lookup l e k x :
  l !! k = Some x ->
  upsert l e !! k
  = Some (if decide (findIndex (fun y => id_eqb (ei_id y) (ei_id e)) l = Some k)
          then e else x).
Proof.
  intros Hx. unfold upsert.
  destruct (findIndex _ l) as [j |] eqn:Ef.
  - destruct (decide (Some j = Some k)) as [[= ->] | Hne].
    + apply list_lookup_insert_eq. eapply lookup_lt_Some; eauto.
    + rewrite list_lookup_insert_ne by congruence. exact Hx.
  - destruct (decide (None = Some k)); [discriminate |].
    rewrite lookup_app_l by (eapply lookup_lt_Some; eauto). exact Hx.
Qed.

Lemma upsert_length l e : (length l <= length (upsert l e))%nat.
Proof.
  unfold upsert. destruct (findIndex _ l).
  - rewrite length_insert. lia.
  - rewrite length_app. simpl. lia.
Qed.

Lemma mergeEvents_snoc l new e :
  mergeEvents l (new ++ [e]) = upsert (mergeEvents l new) e.
Proof. unfold mergeEvents. rewrite fold_left_app. reflexivity. Qed.

Lemma last_cons_default {A} (x : A) l : last (x :: l) = Some (default x (last l)).
Proof.
  revert x. induction l as [| y l IH]; intros x; [reflexivity |].
  change (last (x :: y :: l)) with (last (y :: l)). rewrite IH. reflexivity.
Qed.

(** What the merge leaves at a position of the list it starts from: the
    first event with an id makes room for the last fetched event with that
    id, and every other event stays. *)
Lemma mergeEvents_lookup new : forall l k x,
  l !! k = Some x ->
  mergeEvents l new !! k
  = Some (if decide (findIndex (fun y => id_eqb (ei_id y) (ei_id x)) l = Some k)
          then default x (last (filter (fun e => ei_id e = ei_id x) new))
          else x).
Proof.
  induction new as [| e new IH]; intros l k x Hx.
  - simpl. destruct (decide _); exact Hx.
  - change (mergeEvents l (e :: new)) with (mergeEvents (upsert l e) new).
    pose proof (upsert_lookup l e k x Hx) as Hup.
    set (x' := if decide (findIndex (fun y => id_eqb (ei_id y) (ei_id e)) l = Some k)
               then e else x) in *.
    assert (Hid : ei_id x' = ei_id x).
    { subst x'. destruct (decide _) as [Hf |]; [| reflexivity].
      destruct (findIndex_Some _ _ _ Hf) as (y & Hy & Hp & _).
      rewrite Hx in Hy. injection Hy as <-. apply id_eqb_eq in Hp. congruence. }
    rewrite (IH _ _ _ Hup), Hid.
    assert (Hsame :
      (findIndex (fun y => id_eqb (ei_id y) (ei_id x)) (upsert l e) = Some k)
      <-> (findIndex (fun y => id_eqb (ei_id y) (ei_id x)) l = Some k)).
    { destruct (findIndex (fun y => id_eqb (ei_id y) (ei_id x)) l) as [j |] eqn:Ej.
      - rewrite (findIndex_upsert _ _ e _ Ej). tauto.
      - exfalso. rewrite findIndex_None in Ej.
        assert (In x l) by (apply list_elem_of_In; eapply list_elem_of_lookup_2; eauto).
        specialize (Ej x H). rewrite id_eqb_refl in Ej. discriminate. }
    f_equal.
    destruct (decide (findIndex _ (upsert l e) = Some k)) as [H1 | H1];
      destruct (decide (findIndex (fun y => id_eqb (ei_id y) (ei_id x)) l = Some k))
        as [H2 | H2]; try tauto.
    + rewrite filter_cons. destruct (decide (ei_id e = ei_id x)) as [Ee | Ee].
      * rewrite last_cons_default. simpl.
        assert (x' = e) as ->; [| reflexivity].
        subst x'. rewrite Ee. rewrite decide_True by exact H2. reflexivity.
      * assert (x' = x) as ->; [| reflexivity].
        subst x'. destruct (decide _) as [Hf |]; [| reflexivity].
        destruct (findIndex_Some _ _ _ Hf) as (y & Hy & Hp & _).
        rewrite Hx in Hy. injection Hy as <-. apply id_eqb_eq in Hp. congruence.
    + subst x'. destruct (decide _) as [Hf |]; [| reflexivity].
      destruct (findIndex_Some _ _ _ Hf) as (y & Hy & Hp & _).
      rewrite Hx in Hy. injection Hy as <-. apply id_eqb_eq in Hp.
      rewrite <- Hp in Hf. contradiction.
Qed.

Lemma existsb_id_eqb i l : existsb (id_eqb i) l = true <-> In i l.
Proof.
  rewrite existsb_exists. split.
  - intros (j & Hj & E). apply id_eqb_eq in E. congruence.
  - intros Hi. exists i. split; [exact Hi | apply id_eqb_refl].
Qed.

Lemma upsert_ids_cases l e :
  (In (ei_id e) (map ei_id l) /\ map ei_id (upsert l e) = map ei_id l)
  \/ (~ In (ei_id e) (map ei_id l)
      /\ map ei_id (upsert l e) = map ei_id l ++ [ei_id e]).
Proof.
  rewrite upsert_ids. destruct (existsb _ _) eqn:E.
  - left. split; [apply existsb_id_eqb; exact E | reflexivity].
  - right. split; [| reflexivity]. intros Hi. apply existsb_id_eqb in Hi. congruence.
Qed.

Lemma mergeEvents_ids_In new : forall l i,
  In i (map ei_id (mergeEvents l new)) <-> In i (map ei_id l) \/ In i (map ei_id new).
Proof.
  induction new as [| e new IH]; intros l i; simpl; [tauto |].
  change (fold_left upsert new (upsert l e)) with (mergeEvents (upsert l e) new).
  rewrite IH.
  destruct (upsert_ids_cases l e) as [[Hin ->] | [Hout ->]].
  - split; [tauto |]. intros [H | [<- | H]]; auto.
  - rewrite in_app_iff. simpl. tauto.
Qed.

Lemma mergeEvents_ids_NoDup new : forall l,
  NoDup (map ei_id l) -> NoDup (map ei_id (mergeEvents l new)).
Proof.
  induction new as [| e new IH]; intros l Hl; simpl; [exact Hl |].
  apply IH.
  destruct (upsert_ids_cases l e) as [[Hin ->] | [Hout ->]]; [exact Hl |].
  apply NoDup_app. split; [exact Hl |]. split.
  - intros i Hi Hi'. apply list_elem_of_In in Hi. apply list_elem_of_In in Hi'.
    destruct Hi' as [<- | []]. contradiction.
  - apply NoDup_singleton.
Qed.

Lemma mergeEvents_ids_prefix new : forall l,
  exists added, map ei_id (mergeEvents l new) = map ei_id l ++ added.
Proof.
  induction new as [| e new IH]; intros l.
  - exists []. rewrite app_nil_r. reflexivity.
  - change (mergeEvents l (e :: new)) with (mergeEvents (upsert l e) new).
    destruct (IH (upsert l e)) as (added & E). rewrite E.
    destruct (upsert_ids_cases l e) as [[Hin ->] | [Hout ->]].
    + exists added. reflexivity.
    + exists (ei_id e :: added). rewrite <- app_assoc. reflexivity.
Qed.

Lemma mergeEvents_ids_present new : forall l,
  (forall i, In i (map ei_id new) -> In i (map ei_id l)) ->
  map ei_id (mergeEvents l new) = map ei_id l.
Proof.
  induction new as [| e new IH]; intros l Hall; simpl; [reflexivity |].
  destruct (upsert_ids_cases l e) as [[Hin E] | [Hout _]].
  - change (fold_left upsert new (upsert l e)) with (mergeEvents (upsert l e) new).
    rewrite IH; [exact E |]. rewrite E. intros i Hi. apply Hall. right. exact Hi.
  - exfalso. apply Hout, Hall. left. reflexivity.
Qed.

(** The first event a predicate accepts, after [upsert]. *)
Lemma find_upsert_same l e :
  List.find (fun x => id_eqb (ei_id x) (ei_id e)) (upsert l e) = Some e.
Proof.
  unfold upsert. induction l as [| x l IH]; simpl.
  - rewrite id_eqb_refl. reflexivity.
  - destruct (id_eqb (ei_id x) (ei_id e)) eqn:E; simpl.
    + rewrite id_eqb_refl. reflexivity.
    + destruct (findIndex _ l); simpl in *; rewrite E; exact IH.
Qed.

Lemma find_upsert_other i l e :
  ei_id e <> i ->
  List.find (fun x => id_eqb (ei_id x) i) (upsert l e)
  = List.find (fun x => id_eqb (ei_id x) i) l.
Proof.
  intros Hne. apply id_eqb_neq in Hne.
  unfold upsert. induction l as [| x l IH]; simpl.
  - rewrite Hne. reflexivity.
  - destruct (id_eqb (ei_id x) (ei_id e)) eqn:E; simpl.
    + rewrite Hne. apply id_eqb_eq in E. rewrite E, Hne. reflexivity.
    + destruct (findIndex _ l); simpl in *;
        destruct (id_eqb (ei_id x) i); auto.
Qed.

Lemma mergeEvents_find l new i :
  In i (map ei_id new) ->
  List.find (fun x => id_eqb (ei_id x) i) (mergeEvents l new)
  = last (filter (fun e => ei_id e = i) new).
Proof.
  induction new as [| e new IH] using rev_ind; [intros [] |].
  rewrite mergeEvents_snoc, filter_app, filter_cons, filter_nil.
  destruct (decide (ei_id e = i)) as [<- | Hne].
  - intros _. rewrite find_upsert_same, last_snoc. reflexivity.
  - rewrite map_app, in_app_iff. simpl. intros [Hi | [E | []]]; [| contradiction].
    rewrite find_upsert_other, app_nil_r by exact Hne. apply IH, Hi.
Qed.

Lemma mergeEvents_twice l new :
  mergeEvents (mergeEvents l new) new = mergeEvents l new.
Proof.
  set (L := mergeEvents l new).
  assert (Hids : map ei_id (mergeEvents L new) = map ei_id L).
  { apply mergeEvents_ids_present. intros i Hi.
    apply mergeEvents_ids_In. right. exact Hi. }
  apply list_eq. intros k.
  destruct (L !! k) as [x |] eqn:Hx.
  - rewrite (mergeEvents_lookup new L k x Hx). f_equal.
    destruct (decide _) as [Hf |]; [| reflexivity].
    destruct (filter (fun e => ei_id e = ei_id x) new) as [| y F] eqn:EF;
      [reflexivity |].
    assert (Hin : In (ei_id x) (map ei_id new)).
    { assert (Hy : y ∈ filter (fun e => ei_id e = ei_id x) new)
        by (rewrite EF; left).
      apply list_elem_of_filter in Hy as [Ey Hy]. rewrite <- Ey.
      apply in_map. apply list_elem_of_In. exact Hy. }
    pose proof (mergeEvents_find l new (ei_id x) Hin) as Hlast.
    fold L in Hlast. rewrite find_findIndex, Hf in Hlast. simpl in Hlast.
    rewrite Hx, EF in Hlast. rewrite <- Hlast. reflexivity.
  - apply lookup_ge_None. apply lookup_ge_None in Hx.
    apply (f_equal length) in Hids. rewrite !length_map in Hids. lia.
Qed.

(** The order of strings. *)
Lemma str_leb_refl a : str_leb a a = true.
Proof.
  induction a as [| x a IH]; simpl; [reflexivity |].
  rewrite Z.eqb_refl, IH. apply orb_true_r.
Qed.

Lemma str_leb_trans a : forall b c,
  str_leb a b = true -> str_leb b c = true -> str_leb a c = true.
Proof.
  induction a as [| x a IH]; intros [| y b] [| z c]; simpl; auto; try discriminate.
  rewrite !orb_true_iff, !andb_true_iff, !Z.ltb_lt, !Z.eqb_eq.
  intros [Hxy | [-> Hab]] [Hyz | [-> Hbc]]; eauto with lia.
Qed.

Lemma str_leb_total a : forall b, str_leb a b = true \/ str_leb b a = true.
Proof.
  induction a as [| x a IH]; intros [| y b]; simpl; auto.
  rewrite !orb_true_iff, !andb_true_iff, !Z.ltb_lt, !Z.eqb_eq.
  destruct (Z.lt_trichotomy x y) as [H | [-> | H]]; auto.
  destruct (IH b); auto.
Qed.

Lemma str_leb_antisym a : forall b,
  str_leb a b = true -> str_leb b a = true -> a = b.
Proof.
  induction a as [| x a IH]; intros [| y b]; simpl; auto; try discriminate.
  rewrite !orb_true_iff, !andb_true_iff, !Z.ltb_lt, !Z.eqb_eq.
  intros [Hxy | [-> Hab]] [Hyx | [E Hba]]; try lia.
  f_equal. apply IH; assumption.
Qed.

Lemma rememberRange_cases s e ranges :
  (rememberRange s e ranges = ranges
   /\ In {| range_start := s; range_end := e |} ranges)
  \/ (rememberRange s e ranges = ranges ++ [{| range_start := s; range_end := e |}]
      /\ ~ In {| range_start := s; range_end := e |} ranges).
Proof.
  unfold rememberRange. destruct (existsb _ ranges) eqn:E.
  - left. split; [reflexivity |].
    apply existsb_exists in E as ([s' e'] & Hin & H).
    apply andb_true_iff in H as [Hs He]. simpl in *.
    apply str_eqb_eq in Hs, He. subst. exact Hin.
  - right. split; [reflexivity |]. intros Hin.
    assert (existsb (fun range => str_eqb (range_start range) s
                                  && str_eqb (range_end range) e) ranges = true).
    { apply existsb_exists. eexists. split; [exact Hin |]. simpl.
      apply andb_true_iff. split; apply str_eqb_eq; reflexivity. }
    congruence.
Qed.

Section PageFacts.
Context {N : Network}.

(** The loop over the ranges: the store is not touched, the addresses are
    fetched in order up to the first failure, and a failure announced by
    a toast is one the loop returns from. *)
Lemma fetchRanges_run ranges : forall newEvents p,
  let r := fst (fetchRanges ranges newEvents p) in
  let p' := snd (fetchRanges ranges newEvents p) in
  store p' = store p
  /\ (exists n, (n <= length ranges)%nat
       /\ (ranges <> [] -> (1 <= n)%nat)
       /\ fetched p' = fetched p ++ map eventsUrl (take n ranges)
       /\ (forall l, r = Ok (Some l) -> n = length ranges))
  /\ match r with
     | Ok (Some _) | Throw _ =>
       toasts p' = toasts p /\ consoleErrors p' = consoleErrors p
     | Ok None =>
       exists t e, toasts p' = toasts p ++ [t]
                   /\ consoleErrors p' = consoleErrors p ++ [e]
     end.
Proof.
  induction ranges as [| range rest IH]; intros newEvents p; cbn zeta.
  - simpl. split; [reflexivity |]. split; [| auto].
    exists O. rewrite app_nil_r. split; [auto |]. split; [congruence | auto].
  - cbn [fetchRanges]. unfold do_fetch.
    destruct (fetch (eventsUrl range) (net p)) as [[response | error] n1].
    + set (p1 := {| store := store p; net := n1;
                    fetched := fetched p ++ [eventsUrl range];
                    consoleErrors := consoleErrors p; toasts := toasts p |}).
      destruct (ok response); cbn [negb].
      * destruct (json response) as [[fetchedEvents |] | error].
        -- specialize (IH (newEvents ++ fetchedEvents) p1). cbn zeta in IH.
           destruct IH as (Hs & (n & Hn & _ & Hf & Hall) & Ht).
           split; [exact Hs |]. split; [| exact Ht].
           exists (S n). split; [simpl; lia |]. split; [intros _; lia |]. split.
           ++ rewrite Hf. subst p1. simpl. rewrite <- app_assoc. reflexivity.
           ++ intros l Hl. simpl. f_equal. eapply Hall, Hl.
        -- simpl. split; [reflexivity |]. split; [| auto].
           exists 1%nat. split; [simpl; lia |]. split; [auto |]. split; [| discriminate].
           simpl. rewrite ?take_0. reflexivity.
        -- simpl. split; [reflexivity |]. split; [| auto].
           exists 1%nat. split; [simpl; lia |]. split; [auto |]. split; [| discriminate].
           simpl. rewrite ?take_0. reflexivity.
      * simpl. split; [reflexivity |]. split; [| eauto].
        exists 1%nat. split; [simpl; lia |]. split; [auto |]. split; [| discriminate].
        simpl. rewrite ?take_0. reflexivity.
    + simpl. split; [reflexivity |]. split; [| auto].
      exists 1%nat. split; [simpl; lia |]. split; [auto |]. split; [| discriminate].
      simpl. rewrite ?take_0. reflexivity.
Qed.

(** How [refetchEvents] ends: it gave up, and only reported it, or it
    went through every range and wrote the store. *)
Lemma refetchEvents_run start end_ p :
  let p' := refetchEvents start end_ p in
  let ranges := rangesToFetch start end_ (store p) in
  exists n, (1 <= n <= length ranges)%nat
    /\ fetched p' = fetched p ++ map eventsUrl (take n ranges)
    /\ ((store p' = store p
         /\ exists t e, toasts p' = toasts p ++ [t]
                        /\ consoleErrors p' = consoleErrors p ++ [e])
        \/ (n = length ranges
            /\ toasts p' = toasts p /\ consoleErrors p' = consoleErrors p
            /\ exists newEvents,
                 store p'
                 = {| events := mergeEvents (events (store p)) newEvents;
                      currentStart := currentStart (store p);
                      currentEnd := currentEnd (store p);
                      cachedRanges :=
                        match start, end_ with
                        | Some ((_ :: _) as s), Some ((_ :: _) as e) =>
                          rememberRange s e (cachedRanges (store p))
                        | _, _ => cachedRanges (store p)
                        end |})).
Proof.
  cbn zeta. unfold refetchEvents.
  pose proof (fetchRanges_run (rangesToFetch start end_ (store p)) [] p) as H.
  cbn zeta in H.
  destruct (fetchRanges _ [] p) as [[[newEvents |] | error] p1];
    cbn [fst snd] in H; destruct H as (Hs & (n & Hn & Hpos & Hf & Hall) & Ht);
    exists n;
    (split; [split; [apply Hpos | exact Hn];
             unfold rangesToFetch;
             destruct start as [[| ? ?] |], end_ as [[| ? ?] |];
             destruct (cachedRanges (store p)); discriminate |]).
  - destruct Ht as (Ht & Hc).
    split; [destruct start as [[| ? ?] |], end_ as [[| ? ?] |]; exact Hf |].
    right. split; [eapply Hall; eauto |].
    split; [destruct start as [[| ? ?] |], end_ as [[| ? ?] |]; exact Ht |].
    split; [destruct start as [[| ? ?] |], end_ as [[| ? ?] |]; exact Hc |].
    exists newEvents. rewrite <- Hs.
    destruct start as [[| ? ?] |], end_ as [[| ? ?] |]; reflexivity.
  - destruct Ht as (t & e & Ht & Hc). split; [exact Hf |].
    left. split; [exact Hs |]. exists t, e. auto.
  - destruct Ht as (Ht & Hc). split; [exact Hf |].
    left. split; [exact Hs |]. simpl. rewrite Ht, Hc. eauto.
Qed.

Lemma isRangeCached_In s e st range :
  In range (cachedRanges st) ->
  str_leb (range_start range) s = true -> str_leb e (range_end range) = true ->
  isRangeCached s e st = true.
Proof.
  intros Hin Hs He. apply existsb_exists. exists range.
  rewrite Hs, He. auto.
Qed.

Lemma isRangeCached_inv s e st :
  isRangeCached s e st = true ->
  exists range, In range (cachedRanges st)
    /\ str_leb (range_start range) s = true /\ str_leb e (range_end range) = true.
Proof.
  intros H. apply existsb_exists in H as (range & Hin & H).
  apply andb_true_iff in H. eauto.
Qed.

(** The cache after a call holds what it held before. *)
Lemma refetchEvents_cache start end_ p range :
  In range (cachedRanges (store p)) ->
  In range (cachedRanges (store (refetchEvents start end_ p))).
Proof.
  intros Hin.
  destruct (refetchEvents_run start end_ p) as (n & _ & _ & [(-> & _) | H]);
    [exact Hin |].
  destruct H as (_ & _ & _ & newEvents & ->). cbn [cachedRanges].
  destruct start as [[| ? ?] |], end_ as [[| ? ?] |]; try exact Hin.
  destruct (rememberRange_cases (z :: l) (z0 :: l0) (cachedRanges (store p)))
    as [[-> _] | [-> _]]; [exact Hin | apply in_or_app; auto].
Qed.

(** The loop ends with the events of all ranges exactly when the route
    answers them all, and these events are the bodies, in order. *)
Lemma fetchRanges_answers ranges : forall newEvents p l p1,
  fetchRanges ranges newEvents p = (Ok (Some l), p1) ->
  exists bodies,
    answers_all ranges (net p) bodies (net p1) /\ l = newEvents ++ concat bodies.
Proof.
  induction ranges as [| range rest IH]; intros newEvents p l p1; cbn [fetchRanges].
  - intros [= <- <-]. exists []. split; [constructor |].
    symmetry. apply app_nil_r.
  - unfold do_fetch.
    destruct (fetch (eventsUrl range) (net p)) as [[response | error] n1] eqn:Ef;
      [| discriminate].
    destruct (ok response) eqn:Eok; cbn [negb]; [| discriminate].
    destruct (json response) as [[body |] | error] eqn:Ej; try discriminate.
    intros E. apply IH in E. destruct E as (bodies & Ha & ->). cbn [net] in Ha.
    exists (body :: bodies). split.
    + econstructor; eassumption.
    + cbn [concat]. rewrite app_assoc. reflexivity.
Qed.

Lemma answers_fetchRanges ranges : forall newEvents p bodies n',
  answers_all ranges (net p) bodies n' ->
  exists p1,
    fetchRanges ranges newEvents p = (Ok (Some (newEvents ++ concat bodies)), p1)
    /\ net p1 = n'.
Proof.
  induction ranges as [| range rest IH]; intros newEvents p bodies n' Ha;
    inversion Ha; subst; cbn [fetchRanges concat].
  - exists p. rewrite app_nil_r. split; reflexivity.
  - unfold do_fetch.
    match goal with H : fetch _ _ = _ |- _ => rewrite H end.
    match goal with H : ok _ = true |- _ => rewrite H end. cbn [negb].
    match goal with H : json _ = _ |- _ => rewrite H end.
    match goal with
    | H : answers_all rest ?n1 ?bs _ |- context [fetchRanges rest ?acc ?q] =>
      destruct (IH acc q bs n' H) as (p1 & E & Hn)
    end.
    exists p1. rewrite E, app_assoc. split; [reflexivity | exact Hn].
Qed.

End PageFacts.

End UseEventsFacts.

(** X1. Merging fetched events into the store keeps event ids unique:
    when no two events of the store share an id before [refetchEvents],
    none do after it, whatever the route answered and however often an id
    occurs among the fetched events. *)
Theorem refetch_keeps_ids_unique {N : UseEvents.Network} start end_ p :
  NoDup (map ei_id (UseEvents.events (UseEvents.store p))) ->
  NoDup (map ei_id (UseEvents.events
                      (UseEvents.store (UseEvents.refetchEvents start end_ p)))).
Proof.
  intros Hp.
  destruct (UseEventsFacts.refetchEvents_run start end_ p)
    as (n & _ & _ & [(-> & _) | H]); [exact Hp |].
  destruct H as (_ & _ & _ & newEvents & ->). cbn [UseEvents.events].
  apply UseEventsFacts.mergeEvents_ids_NoDup, Hp.
Qed.

Lemma refetch_keeps_ids_unique_witness :
  let p := DemoClient.page
             (UseEvents.setEvents
                [DemoClient.event (js "a") (js "Standup");
                 DemoClient.event (js "b") (js "Review")]
                UseEvents.initialState)
             [DemoClient.answers
                [DemoClient.event (js "b") (js "Review, moved");
                 DemoClient.event (js "c") (js "Lunch");
                 DemoClient.event (js "c") (js "Lunch, moved")]] in
  NoDup (map ei_id (UseEvents.events (UseEvents.store p)))
  /\ map ei_id (UseEvents.events
                  (UseEvents.store
                     (UseEvents.refetchEvents (Some (js "2025-06-01"))
                        (Some (js "2025-07-01")) p)))
     = [Some (js "a"); Some (js "b"); Some (js "c")]
  /\ NoDup (map ei_id (UseEvents.events
                         (UseEvents.store
                            (UseEvents.refetchEvents (Some (js "2025-06-01"))
                               (Some (js "2025-07-01")) p)))).
Proof.
  intros p.
  assert (Hp : NoDup (map ei_id (UseEvents.events (UseEvents.store p)))).
  { apply (bool_decide_unpack _). vm_compute. reflexivity. }
  split; [exact Hp |]. split; [vm_compute; reflexivity |].
  apply (refetch_keeps_ids_unique (Some (js "2025-06-01")) (Some (js "2025-07-01")) p Hp).
Defined.

(** X2. The merge works in place: an event of the store that is the
    first with its id gives way to the last fetched event with that id,
    if there is one, and every other event, a later one with the same id
    included, stays where it was and as it was.  Fetched events with new
    ids only come after. *)
Theorem merge_replaces_in_place l newEvents k x :
  l !! k = Some x ->
  UseEvents.mergeEvents l newEvents !! k
  = Some (if decide (UseEvents.findIndex
                       (fun y => UseEvents.id_eqb (ei_id y) (ei_id x)) l = Some k)
          then default x (last (filter (fun e => ei_id e = ei_id x) newEvents))
          else x)
  /\ (~ In (ei_id x) (map ei_id newEvents) ->
      UseEvents.mergeEvents l newEvents !! k = Some x)
  /\ (length l <= length (UseEvents.mergeEvents l newEvents))%nat.
Proof.
  intros Hx.
  pose proof (UseEventsFacts.mergeEvents_lookup newEvents l k x Hx) as Hk.
  split; [exact Hk |]. split.
  - intros Hout. rewrite Hk. f_equal.
    destruct (decide _); [| reflexivity].
    destruct (filter _ newEvents) as [| y F] eqn:EF; [reflexivity |].
    exfalso. apply Hout.
    assert (Hy : y ∈ filter (fun e => ei_id e = ei_id x) newEvents)
      by (rewrite EF; left).
    apply list_elem_of_filter in Hy as [Ey Hy]. rewrite <- Ey.
    apply in_map, list_elem_of_In, Hy.
  - destruct (UseEventsFacts.mergeEvents_ids_prefix newEvents l) as (added & E).
    apply (f_equal length) in E. rewrite length_app, !length_map in E. lia.
Qed.

Lemma merge_replaces_in_place_witness :
  let a := DemoClient.event (js "a") (js "Standup") in
  let a' := DemoClient.event (js "a") (js "Standup, copy") in
  let b := DemoClient.event (js "b") (js "Review") in
  let fetchedEvents := [DemoClient.event (js "a") (js "Standup at 9");
                        DemoClient.event (js "c") (js "Lunch");
                        DemoClient.event (js "a") (js "Standup at 10")] in
  UseEvents.mergeEvents [a; b; a'] fetchedEvents
  = [DemoClient.event (js "a") (js "Standup at 10"); b; a';
     DemoClient.event (js "c") (js "Lunch")]
  /\ UseEvents.mergeEvents [a; b; a'] fetchedEvents !! 2%nat = Some a'.
Proof.
  intros a a' b fetchedEvents. split; [vm_compute; reflexivity |].
  destruct (merge_replaces_in_place [a; b; a'] fetchedEvents 2 a' eq_refl) as (E & _).
  rewrite E. vm_compute. reflexivity.
Defined.

(** X3. The last fetched event with an id wins: after the merge, the
    first event of the store with that id is the last of the fetched
    events that carries it, whether the id was in the store or not. *)
Theorem last_fetched_event_wins l newEvents i :
  In i (map ei_id newEvents) ->
  List.find (fun x => UseEvents.id_eqb (ei_id x) i) (UseEvents.mergeEvents l newEvents)
  = last (filter (fun e => ei_id e = i) newEvents).
Proof. apply UseEventsFacts.mergeEvents_find. Qed.

Lemma last_fetched_event_wins_witness :
  let fetchedEvents := [DemoClient.event (js "a") (js "Standup at 9");
                        DemoClient.event (js "c") (js "Lunch");
                        DemoClient.event (js "a") (js "Standup at 10")] in
  List.find (fun x => UseEvents.id_eqb (ei_id x) (Some (js "a")))
    (UseEvents.mergeEvents [DemoClient.event (js "b") (js "Review")] fetchedEvents)
  = Some (DemoClient.event (js "a") (js "Standup at 10")).
Proof.
  intros fetchedEvents.
  rewrite (last_fetched_event_wins [DemoClient.event (js "b") (js "Review")]
             fetchedEvents (Some (js "a"))).
  - vm_compute. reflexivity.
  - left. reflexivity.
Defined.

(** X4. Merging the same fetched events a second time changes nothing. *)
Theorem merging_again_changes_nothing l newEvents :
  UseEvents.mergeEvents (UseEvents.mergeEvents l newEvents) newEvents
  = UseEvents.mergeEvents l newEvents.
Proof. apply UseEventsFacts.mergeEvents_twice. Qed.

(** X5. [refetchEvents] is all or nothing.  Either the call reported a
    failure, by exactly one toast and one console entry, and left the
    store as it was, the events of the ranges fetched before the failure
    being dropped; or it reported nothing, every range to fetch was
    requested and answered with a body of events, and the store holds its
    events merged with these bodies, in the order of the ranges, the
    window on display being unchanged.  When the route answers every
    range, no failure is reported. *)
Theorem refetch_all_or_nothing {N : UseEvents.Network} start end_ p :
  let p' := UseEvents.refetchEvents start end_ p in
  let ranges := UseEvents.rangesToFetch start end_ (UseEvents.store p) in
  ((UseEvents.store p' = UseEvents.store p
    /\ exists t e, UseEvents.toasts p' = UseEvents.toasts p ++ [t]
                   /\ UseEvents.consoleErrors p' = UseEvents.consoleErrors p ++ [e])
   \/ (UseEvents.toasts p' = UseEvents.toasts p
       /\ UseEvents.consoleErrors p' = UseEvents.consoleErrors p
       /\ UseEvents.fetched p'
          = UseEvents.fetched p ++ map UseEvents.eventsUrl ranges
       /\ UseEvents.currentStart (UseEvents.store p')
          = UseEvents.currentStart (UseEvents.store p)
       /\ UseEvents.currentEnd (UseEvents.store p')
          = UseEvents.currentEnd (UseEvents.store p)
       /\ exists bodies,
            UseEvents.answers_all ranges (UseEvents.net p) bodies (UseEvents.net p')
            /\ UseEvents.events (UseEvents.store p')
               = UseEvents.mergeEvents (UseEvents.events (UseEvents.store p))
                   (concat bodies)))
  /\ (forall bodies n',
        UseEvents.answers_all ranges (UseEvents.net p) bodies n' ->
        UseEvents.toasts p' = UseEvents.toasts p).
Proof.
  cbn zeta.
  pose proof (UseEventsFacts.fetchRanges_run
                (UseEvents.rangesToFetch start end_ (UseEvents.store p)) [] p) as Hrun.
  cbn zeta in Hrun.
  assert (Hok : forall l p1,
    UseEvents.fetchRanges (UseEvents.rangesToFetch start end_ (UseEvents.store p)) [] p
    = (Ok (Some l), p1) ->
    UseEvents.toasts (UseEvents.refetchEvents start end_ p) = UseEvents.toasts p
    /\ UseEvents.net (UseEvents.refetchEvents start end_ p) = UseEvents.net p1
    /\ UseEvents.events (UseEvents.store (UseEvents.refetchEvents start end_ p))
       = UseEvents.mergeEvents (UseEvents.events (UseEvents.store p)) l).
  { intros l p1 E. unfold UseEvents.refetchEvents. rewrite E in *.
    cbn [fst snd] in Hrun. destruct Hrun as (Hs & _ & Ht & _). rewrite <- Ht, <- Hs.
    destruct start as [[| ? ?] |], end_ as [[| ? ?] |]; repeat split. }
  split.
  - destruct (UseEventsFacts.refetchEvents_run start end_ p)
      as (n & Hn & Hf & [Hfail | (-> & Ht & Hc & newEvents & Hs)]); [left; exact Hfail |].
    right. rewrite firstn_all in Hf. split; [exact Ht |]. split; [exact Hc |].
    split; [exact Hf |].
    split; [rewrite Hs; reflexivity |]. split; [rewrite Hs; reflexivity |]. clear Hs.
    destruct (UseEvents.fetchRanges _ [] p) as [[[l |] | error] p1] eqn:E.
    + destruct (UseEventsFacts.fetchRanges_answers _ _ _ _ _ E) as (bodies & Ha & Hl).
      destruct (Hok l p1 eq_refl) as (_ & Hnet & Hev).
      exists bodies. rewrite Hnet, Hev, Hl. split; [exact Ha | reflexivity].
    + exfalso. cbn [fst snd] in Hrun. destruct Hrun as (_ & _ & t & e & Ht' & _).
      unfold UseEvents.refetchEvents in Ht. rewrite E in Ht. rewrite Ht' in Ht.
      apply (f_equal length) in Ht. rewrite length_app in Ht. simpl in Ht. lia.
    + exfalso. cbn [fst snd] in Hrun. destruct Hrun as (_ & _ & Ht' & _).
      unfold UseEvents.refetchEvents in Ht. rewrite E in Ht. cbn in Ht.
      rewrite Ht' in Ht.
      apply (f_equal length) in Ht. rewrite length_app in Ht. simpl in Ht. lia.
  - intros bodies n' Ha.
    destruct (UseEventsFacts.answers_fetchRanges _ [] p bodies n' Ha) as (p1 & E & _).
    apply (Hok _ _ E).
Qed.

Example refetch_drops_partial_results :
  let st := UseEvents.setCachedRanges [DemoClient.june; DemoClient.july]
              UseEvents.initialState in
  let p := DemoClient.page st
             [DemoClient.answers [DemoClient.event (js "a") (js "Standup")];
              DemoClient.refuses] in
  let p' := UseEvents.refetchEvents None None p in
  UseEvents.store p' = st
  /\ UseEvents.toasts p' = [js "Failed to fetch events (401)"]
  /\ UseEvents.consoleErrors p'
     = [UseEvents.FailedResponse (js "/api/calendar/events") 401 (js "Unauthorized")
          (js "<failed to read response body>") DemoClient.july]
  /\ UseEvents.fetched p'
     = [js "/api/calendar/events?start=2025-06-01&end=2025-07-01";
        js "/api/calendar/events?start=2025-07-01&end=2025-08-01"].
Proof. vm_compute. repeat split; reflexivity. Qed.

(** X6. A range that was fetched is cached: after [refetchEvents] with a
    start and an end, both non-empty, that reported no failure,
    [isRangeCached] holds of that start and end, and the range is in the
    cache once, however often it is fetched. *)
Theorem refetched_range_is_cached {N : UseEvents.Network} s e p :
  s <> [] -> e <> [] ->
  let p' := UseEvents.refetchEvents (Some s) (Some e) p in
  UseEvents.toasts p' = UseEvents.toasts p ->
  UseEvents.isRangeCached s e (UseEvents.store p') = true
  /\ (NoDup (UseEvents.cachedRanges (UseEvents.store p)) ->
      NoDup (UseEvents.cachedRanges (UseEvents.store p'))).
Proof.
  intros Hs He p' Ht. subst p'.
  destruct (UseEventsFacts.refetchEvents_run (Some s) (Some e) p)
    as (n & _ & _ & [(_ & t & c & Ht' & _) | H]).
  { exfalso. rewrite Ht in Ht'. apply (f_equal length) in Ht'.
    rewrite length_app in Ht'. simpl in Ht'. lia. }
  destruct H as (_ & _ & _ & newEvents & ->).
  destruct s as [| s0 s]; [contradiction |]. destruct e as [| e0 e]; [contradiction |].
  cbn [UseEvents.cachedRanges].
  destruct (UseEventsFacts.rememberRange_cases (s0 :: s) (e0 :: e)
              (UseEvents.cachedRanges (UseEvents.store p))) as [[-> Hin] | [-> Hout]].
  - split; [| auto].
    eapply UseEventsFacts.isRangeCached_In; [exact Hin | |];
      apply UseEventsFacts.str_leb_refl.
  - split.
    + eapply UseEventsFacts.isRangeCached_In;
        [apply in_or_app; right; left; reflexivity | |];
        apply UseEventsFacts.str_leb_refl.
    + intros Hnd. apply NoDup_app. split; [exact Hnd |]. split.
      * intros r Hr Hr'. apply list_elem_of_In in Hr, Hr'.
        destruct Hr' as [<- | []]. contradiction.
      * apply NoDup_singleton.
Qed.

Lemma refetched_range_is_cached_witness :
  let p := DemoClient.page UseEvents.initialState
             [DemoClient.answers [DemoClient.event (js "a") (js "Standup")];
              DemoClient.answers []] in
  let p1 := UseEvents.refetchEvents (Some (js "2025-06-01")) (Some (js "2025-07-01")) p in
  let p2 := UseEvents.refetchEvents (Some (js "2025-06-01")) (Some (js "2025-07-01")) p1 in
  UseEvents.isRangeCached (js "2025-06-01") (js "2025-07-01") (UseEvents.store p) = false
  /\ UseEvents.isRangeCached (js "2025-06-01") (js "2025-07-01") (UseEvents.store p1) = true
  /\ UseEvents.cachedRanges (UseEvents.store p2) = [DemoClient.june].
Proof.
  intros p p1 p2. split; [vm_compute; reflexivity |]. split.
  - apply (refetched_range_is_cached (js "2025-06-01") (js "2025-07-01") p);
      [discriminate | discriminate | vm_compute; reflexivity].
  - vm_compute. reflexivity.
Defined.

(** X7. What is cached stays cached: [refetchEvents] never removes a
    range from the cache, so a range [isRangeCached] accepted before a
    call is accepted after it, whether the call failed or not. *)
Theorem cached_range_stays_cached {N : UseEvents.Network} start end_ s e p :
  UseEvents.isRangeCached s e (UseEvents.store p) = true ->
  UseEvents.isRangeCached s e
    (UseEvents.store (UseEvents.refetchEvents start end_ p)) = true.
Proof.
  intros H. apply UseEventsFacts.isRangeCached_inv in H as (range & Hin & Hs & He).
  eapply UseEventsFacts.isRangeCached_In; eauto.
  apply UseEventsFacts.refetchEvents_cache, Hin.
Qed.

Lemma cached_range_stays_cached_witness :
  let p := DemoClient.page
             (UseEvents.setCachedRanges [DemoClient.june] UseEvents.initialState)
             [DemoClient.refuses] in
  UseEvents.isRangeCached (js "2025-06-10") (js "2025-06-20")
    (UseEvents.store
       (UseEvents.refetchEvents (Some (js "2025-07-01")) (Some (js "2025-08-01")) p))
  = true.
Proof.
  intros p.
  apply (cached_range_stays_cached (Some (js "2025-07-01")) (Some (js "2025-08-01"))
           (js "2025-06-10") (js "2025-06-20") p).
  vm_compute. reflexivity.
Defined.

(** X8. [isRangeCached] accepts every range inside an accepted one: the
    bounds are compared as strings, code unit by code unit, and that
    order is transitive.  With an empty cache it accepts nothing. *)
Theorem cached_range_covers_subranges s e s' e' st :
  UseEvents.isRangeCached s e st = true ->
  UseEvents.str_leb s s' = true -> UseEvents.str_leb e' e = true ->
  UseEvents.isRangeCached s' e' st = true.
Proof.
  intros H Hs He.
  apply UseEventsFacts.isRangeCached_inv in H as (range & Hin & Hs0 & He0).
  eapply UseEventsFacts.isRangeCached_In; [exact Hin | |];
    eapply UseEventsFacts.str_leb_trans; eauto.
Qed.

Lemma cached_range_covers_subranges_witness :
  let st := UseEvents.setCachedRanges [DemoClient.june] UseEvents.initialState in
  UseEvents.isRangeCached (js "2025-06-10") (js "2025-06-20") st = true
  /\ UseEvents.isRangeCached (js "2025-06-10") (js "2025-06-20")
       UseEvents.initialState = false.
Proof.
  intros st. split; [| reflexivity].
  apply (cached_range_covers_subranges (js "2025-06-01") (js "2025-07-01")
           (js "2025-06-10") (js "2025-06-20") st); vm_compute; reflexivity.
Defined.

(** X9. The ranges are fetched in order, one request each, and none
    after the first failure.  With a start and an end, both non-empty, the
    one request is for that range; without them it is the cached ranges
    that are fetched again, or the window on display when nothing is
    cached.  A start without an end, or an empty one, is ignored. *)
Theorem refetch_requests_in_order {N : UseEvents.Network} start end_ p :
  let p' := UseEvents.refetchEvents start end_ p in
  let ranges :=
    if str_truthy start && str_truthy end_
    then [{| range_start := default [] start; range_end := default [] end_ |}]
    else match UseEvents.cachedRanges (UseEvents.store p) with
         | [] => [{| range_start := UseEvents.currentStart (UseEvents.store p);
                     range_end := UseEvents.currentEnd (UseEvents.store p) |}]
         | cached => cached
         end in
  exists n, (1 <= n <= length ranges)%nat
    /\ UseEvents.fetched p'
       = UseEvents.fetched p ++ map UseEvents.eventsUrl (take n ranges)
    /\ (UseEvents.toasts p' = UseEvents.toasts p -> n = length ranges).
Proof.
  cbn zeta.
  assert (E : (if str_truthy start && str_truthy end_
               then [{| range_start := default [] start;
                        range_end := default [] end_ |}]
               else match UseEvents.cachedRanges (UseEvents.store p) with
                    | [] => [{| range_start := UseEvents.currentStart (UseEvents.store p);
                                range_end := UseEvents.currentEnd (UseEvents.store p) |}]
                    | cached => cached
                    end)
              = UseEvents.rangesToFetch start end_ (UseEvents.store p)).
  { unfold UseEvents.rangesToFetch.
    destruct start as [[| ? ?] |], end_ as [[| ? ?] |]; simpl;
      destruct (UseEvents.cachedRanges (UseEvents.store p)); reflexivity. }
  rewrite E.
  destruct (UseEventsFacts.refetchEvents_run start end_ p) as (n & Hn & Hf & Hend).
  exists n. split; [exact Hn |]. split; [exact Hf |].
  intros Ht. destruct Hend as [(_ & t & e & Ht' & _) | (-> & _)]; [| reflexivity].
  exfalso. rewrite Ht in Ht'. apply (f_equal length) in Ht'.
  rewrite length_app in Ht'. simpl in Ht'. lia.
Qed.


(* ===================================================================== *)
(** * The requests of the dispatcher *)
(* ===================================================================== *)

Section DispatcherRequests.
Context {B : Builtins} {C : Collaborators}.

Ltac atomic x :=
  lazymatch x with
  | context [match _ with _ => _ end] => fail
  | _ => idtac
  end.

Ltac run_step :=
  match goal with
  | |- context [match ?x with _ => _ end] =>
    atomic x;
    match type of x with
    | Res _ => destruct x eqn:?
    | (Res _ * _)%type => destruct x as [[? | ?] ?] eqn:?
    | (_ * _)%type => destruct x eqn:?
    | bool => destruct x eqn:?
    | option _ => destruct x eqn:?
    end
  end.

Lemma attendeesWithSelf_truthy attendees userEmail l :
  attendeesWithSelf attendees userEmail = Ok l -> Forall (fun a => truthy a = true) l.
Proof.
  unfold attendeesWithSelf. destruct (has_length attendees).
  - unfold mbind, Res_bind. destruct (spread attendees); [| discriminate].
    intros [= <-]. apply Forall_forall. intros v Hv.
    apply list_elem_of_filter in Hv. tauto.
  - intros [= <-]. constructor.
Qed.

Lemma str_or_truthy a b : b <> [] -> truthy (JStr (str_or a b)) = true.
Proof.
  intros Hb. destruct a as [[| c a] |]; simpl; try reflexivity;
    destruct b; [contradiction | reflexivity | contradiction | reflexivity].
Qed.

Lemma optional_string_cases o :
  optional_string o = JUndefined \/ exists s, optional_string o = JStr s.
Proof. destruct o; simpl; eauto. Qed.

Ltac wf :=
  repeat match goal with
  | |- _ /\ _ => split
  | |- truthy (JStr (str_or _ _)) = true =>
    apply str_or_truthy; vm_compute; discriminate
  | |- truthy (JStr (js _)) = true => vm_compute; reflexivity
  | |- _ = _ => first [reflexivity | assumption]
  | |- exists _, _ => eexists
  | |- _ \/ _ => first [left; solve [wf] | right; solve [wf]]
  | |- Forall _ _ => assumption
  end.

(** The requests of the [try] block of the dispatcher. *)
Lemma executeCalendarTool_try_sent name args userEmail s :
  let r := fst (executeCalendarTool_try name args userEmail s) in
  let s' := snd (executeCalendarTool_try name args userEmail s) in
  exists extra,
    sent s' = sent s ++ extra
    /\ (length extra <= 2)%nat
    /\ (length (List.filter is_write_request extra) <= 1)%nat
    /\ (forall res, r = Ok res -> didMutate res = true ->
        exists pre w, extra = pre ++ [w] /\ is_write_request w = true)
    /\ (includes mutationTools name = false ->
        List.filter is_write_request extra = [])
    /\ (includes knownTools name = false -> extra = [])
    /\ Forall well_formed extra.
Proof.
  cbn zeta. unfold executeCalendarTool_try, includes, mutationTools, knownTools.
  cbn [existsb].
  destruct (str_eqb name (js "get_calendar")) eqn:E1;
  [| destruct (str_eqb name (js "schedule_event")) eqn:E2;
  [| destruct (str_eqb name (js "edit_event")) eqn:E3;
  [| destruct (str_eqb name (js "delete_event")) eqn:E4]]].
  all: unfold resolvePrimaryCalendarTimeZone, date_iso.
  all: unfold try_catch, mbind, M_bind, Res_bind, mret, M_ret,
         lift, request, gui_emit, on_streams, modify.
  all: repeat run_step.
  all: cbn [fst snd sent set_world set_sent set_streams].
  all: repeat match goal with
         | H : attendeesWithSelf _ _ = Ok _ |- _ => apply attendeesWithSelf_truthy in H
         | H : Ok _ = Ok _ |- _ => injection H as <-
         | H : Some _ = Some _ |- _ => injection H as <-
         end.
  all: try first
         [ exists []; split; [symmetry; apply app_nil_r |]
         | eexists; split; [reflexivity |]
         | eexists; split; [rewrite <- app_assoc; reflexivity |] ].
  all: cbn [List.filter is_write_request length app].
  all: split; [lia |]; split; [lia |].
  all: split;
         [ intros res Hres Hmut; try discriminate Hres; injection Hres as <-;
           try discriminate Hmut;
           first [ exists []; eexists; split; reflexivity
                 | eexists [_]; eexists; split; reflexivity ] |].
  all: split; [intros Hn; first [reflexivity | discriminate Hn] |].
  all: split; [intros Hn; first [reflexivity | discriminate Hn] |].
  all: repeat apply List.Forall_cons; try apply List.Forall_nil.
  all: unfold well_formed, timed, well_timed;
       cbn [body_start body_end et_timeZone et_dateTime et_date body_attendees].
  all: solve [wf].
Qed.

(** The requests of a dispatch: what the [try] block sent, the handler of
    a failure sending nothing. *)
Lemma executeCalendarTool_sent toolCall userEmail s :
  exists r s' extra,
    executeCalendarTool toolCall userEmail s = (Ok r, s')
    /\ sent s' = sent s ++ extra
    /\ (length extra <= 2)%nat
    /\ (length (List.filter is_write_request extra) <= 1)%nat
    /\ (didMutate r = true ->
        exists pre w, extra = pre ++ [w] /\ is_write_request w = true)
    /\ (isMutating toolCall = false -> List.filter is_write_request extra = [])
    /\ (includes knownTools (fn_name (tc_function toolCall)) = false -> extra = [])
    /\ Forall well_formed extra.
Proof.
  unfold executeCalendarTool, isMutating. cbv zeta.
  unfold mbind at 1, M_bind at 1. cbn [gui_emit on_streams modify].
  set (s0 := set_streams _ s). unfold try_catch.
  destruct (executeCalendarTool_try_sent (fn_name (tc_function toolCall))
              (parseArgs (fn_arguments (tc_function toolCall))) userEmail s0)
    as (extra & Hs & Hl & Hw & Hm & Hn & Hu & Hwf).
  cbn zeta in Hm.
  destruct (executeCalendarTool_try _ _ _ s0) as [[r | e] s1]; cbn [fst snd] in *.
  - exists r, s1, extra. split; [reflexivity |]. split; [exact Hs |].
    split; [exact Hl |].
    split; [exact Hw |]. split; [apply Hm; reflexivity |]. auto.
  - eexists; eexists; exists extra. split; [reflexivity |].
    split; [exact Hs |]. cbn [didMutate]. repeat split; auto. discriminate.
Qed.


Lemma str_or_nonempty a b : b <> [] -> str_or a b <> [].
Proof. intros Hb. destruct a as [[| c a] |]; simpl; auto; discriminate. Qed.

Lemma join_nil sep parts :
  join sep parts = [] -> Forall (fun p => p = []) parts.
Proof.
  induction parts as [| p [| q rest] IH]; simpl; intros H.
  - constructor.
  - constructor; [exact H | constructor].
  - apply app_eq_nil in H as [-> H]. apply app_eq_nil in H as [_ H].
    constructor; [reflexivity | apply IH, H].
Qed.

Lemma formatToolError_nonempty error : formatToolError error <> [].
Proof.
  unfold formatToolError. destruct (as_error_object error) as [maybeError |];
    [| vm_compute; discriminate].
  cbv zeta. intros H. apply join_nil in H.
  rewrite Forall_forall in H.
  set (message := str_or _ (str_or (err_message maybeError) (js "Tool execution failed"))) in H.
  assert (Hm : message <> []).
  { subst message. apply str_or_nonempty, str_or_nonempty. vm_compute. discriminate. }
  apply Hm, H. apply list_elem_of_filter. split; [exact Hm |].
  do 4 right. left.
Qed.

(** An error result of the [try] block is the one for an unknown name. *)
Lemma executeCalendarTool_try_error name args userEmail :
  returns (executeCalendarTool_try name args userEmail)
    (fun r => forall detail, output r = OutError detail ->
                             detail = js "Unsupported tool: " ++ name).
Proof.
  unfold executeCalendarTool_try.
  destruct (str_eqb name (js "get_calendar"));
  [| destruct (str_eqb name (js "schedule_event"));
  [| destruct (str_eqb name (js "edit_event"));
  [| destruct (str_eqb name (js "delete_event"))]]];
  repeat (apply returns_bind; intros ?); apply returns_ret; cbn;
  intros detail E; first [discriminate E | injection E as <-; reflexivity].
Qed.

Lemma executeCalendarTool_error_detail toolCall userEmail s r s' detail :
  executeCalendarTool toolCall userEmail s = (Ok r, s') ->
  output r = OutError detail -> detail <> [].
Proof.
  unfold executeCalendarTool. cbv zeta.
  unfold mbind at 1, M_bind at 1. cbn [gui_emit on_streams modify].
  set (s0 := set_streams _ s). unfold try_catch.
  pose proof (executeCalendarTool_try_error (fn_name (tc_function toolCall))
                (parseArgs (fn_arguments (tc_function toolCall))) userEmail s0) as Hret.
  destruct (executeCalendarTool_try _ _ _ s0) as [[r0 | e] s1].
  - intros [= <- <-] Ho. rewrite (Hret r0 s1 eq_refl detail Ho).
    vm_compute. discriminate.
  - intros [= <- <-]. cbn [output]. intros [= <-]. apply formatToolError_nonempty.
Qed.

(** The lookup of the time zone never fails. *)
Lemma resolvePrimaryCalendarTimeZone_run s :
  exists tz s',
    resolvePrimaryCalendarTimeZone s = (Ok tz, s')
    /\ tz = match fst (calendars_get (js "primary") (world s)) with
            | Ok (Some ((_ :: _) as zone)) => zone
            | _ => js "UTC"
            end
    /\ s' = set_world (snd (calendars_get (js "primary") (world s)))
              (set_sent (sent s ++ [CalendarsGet (js "primary")]) s).
Proof.
  unfold resolvePrimaryCalendarTimeZone, try_catch, mbind, M_bind, request.
  destruct (calendars_get (js "primary") (world s)) as [[[[| c zone] |] | e] w];
    cbn; eexists; eexists; split; reflexivity || (split; reflexivity).
Qed.

(** What a failure of the provider does to the [try] block: a failed
    listing, insert, update or delete is thrown on, and nothing is sent
    after it; a failed lookup of the primary calendar is not, and the
    request that follows it carries [UTC]. *)
Lemma executeCalendarTool_try_failures name args userEmail s :
  let r := fst (executeCalendarTool_try name args userEmail s) in
  let s' := snd (executeCalendarTool_try name args userEmail s) in
  exists extra,
    sent s' = sent s ++ extra
    /\ (forall pre o post e,
          extra = pre ++ o :: post ->
          (forall calendarId, o <> CalendarsGet calendarId) ->
          failure_of o (world_after pre (world s)) = Some e ->
          r = Throw e)
    /\ (forall o rest e,
          extra = CalendarsGet (js "primary") :: o :: rest ->
          failure_of (CalendarsGet (js "primary")) (world s) = Some e ->
          match o with
          | EventsInsert _ requestBody | EventsUpdate _ _ requestBody =>
            et_timeZone (body_start requestBody) = JStr (js "UTC")
            /\ et_timeZone (body_end requestBody) = JStr (js "UTC")
          | _ => False
          end).
Proof.
  cbn zeta. unfold executeCalendarTool_try.
  destruct (str_eqb name (js "get_calendar")) eqn:E1;
  [| destruct (str_eqb name (js "schedule_event")) eqn:E2;
  [| destruct (str_eqb name (js "edit_event")) eqn:E3;
  [| destruct (str_eqb name (js "delete_event")) eqn:E4]]].
  all: unfold resolvePrimaryCalendarTimeZone, date_iso.
  all: unfold try_catch, mbind, M_bind, Res_bind, mret, M_ret,
         lift, request, gui_emit, on_streams, modify.
  all: repeat run_step.
  all: cbn [fst snd sent world set_world set_sent set_streams] in *.
  all: try first
         [ exists []; split; [symmetry; apply app_nil_r |]
         | eexists; split; [reflexivity |]
         | eexists; split; [rewrite <- app_assoc; reflexivity |] ].
  all: cbn [app].
  all: split.
  all: lazymatch goal with
       | |- forall _ : list Outbound, _ =>
         intros pre o post err Hex Hng Hfail;
         destruct pre as [| p0 [| p1 [| p2 pre]]]; cbn [app] in Hex
       | |- forall _ : Outbound, _ => intros o rest err Hex Hfail
       end.
  all: repeat match goal with
         | H : [] = _ :: _ |- _ => discriminate H
         | H : _ :: _ = [] |- _ => discriminate H
         | H : _ :: _ = _ :: _ |- _ => first [injection H as ? ? | injection H as ?]
         end.
  all: subst.
  all: try (exfalso; eapply Hng; reflexivity).
  all: cbn [failure_of world_after fold_left served] in Hfail.
  all: repeat (match goal with
               | H : ?x = (_, _) |- _ => rewrite H in Hfail
               | H : ?x = (_, _) |- _ =>
                 match type of Hfail with
                 | context [fst ?y] => change y with x in Hfail; rewrite H in Hfail
                 end
               end; cbn [fst snd] in Hfail).
  all: try discriminate Hfail.
  all: try (injection Hfail as <-).
  all: try reflexivity.
  all: cbn [body_start body_end et_timeZone]; try (split; reflexivity).
Qed.

End DispatcherRequests.

(** C5, as amended. [executeCalendarTool] always returns a result and
    never throws.  When the provider fails the listing, the insert, the
    update or the delete of a dispatch, the result is the error built by
    [formatToolError] from what the provider threw, with [didMutate =
    false]; a failure of the lookup of the primary calendar is absorbed
    instead, the insert or update that follows carrying the time zone
    [UTC].  A name outside the four tools comes back as the "Unsupported
    tool" error with [didMutate = false].  The detail of an error result
    is never empty, so that the loop reads it as an error; an error result
    never reports a mutation and a read-only tool never does; and the
    loop over the calls of a round goes through all of them. *)
Theorem executeCalendarTool_total `{Builtins} `{Collaborators}
    toolCall userEmail s :
  let name := fn_name (tc_function toolCall) in
  (exists r s' extra,
     executeCalendarTool toolCall userEmail s = (Ok r, s')
     /\ sent s' = sent s ++ extra
     /\ (forall detail, output r = OutError detail ->
         didMutate r = false /\ detail <> []
         /\ outputError_of (output r) = Some detail)
     /\ (didMutate r = true -> isMutating toolCall = true)
     /\ (forall pre o post e,
           extra = pre ++ o :: post ->
           (forall calendarId, o <> CalendarsGet calendarId) ->
           failure_of o (world_after pre (world s)) = Some e ->
           r = {| output := OutError (formatToolError e); didMutate := false |})
     /\ (forall o rest e,
           extra = CalendarsGet (js "primary") :: o :: rest ->
           failure_of (CalendarsGet (js "primary")) (world s) = Some e ->
           match o with
           | EventsInsert _ requestBody | EventsUpdate _ _ requestBody =>
             et_timeZone (body_start requestBody) = JStr (js "UTC")
             /\ et_timeZone (body_end requestBody) = JStr (js "UTC")
           | _ => False
           end)
     /\ (includes knownTools name = false ->
         r = {| output := OutError (js "Unsupported tool: " ++ name);
                didMutate := false |}))
  /\ (forall round modern session rest l, exists l',
        fst (runToolCalls round modern session (toolCall :: rest) l s) = Ok l'
        /\ length (history l') = (length (history l) + S (length rest))%nat).
Proof.
  intros name. split.
  2:{ intros. apply (runToolCalls_records_all round modern session (toolCall :: rest)). }
  unfold executeCalendarTool, isMutating. fold name. cbv zeta.
  unfold mbind at 1, M_bind at 1. cbn [gui_emit on_streams modify].
  set (s0 := set_streams _ s). unfold try_catch.
  destruct (executeCalendarTool_try_failures name
              (parseArgs (fn_arguments (tc_function toolCall))) userEmail s0)
    as (extra & Hs & Hfail & Hzone).
  pose proof (executeCalendarTool_try_unsupported name
                (parseArgs (fn_arguments (tc_function toolCall))) userEmail s0) as Hunk.
  pose proof (executeCalendarTool_try_flags name
                (parseArgs (fn_arguments (tc_function toolCall))) userEmail s0) as Hflag.
  pose proof (executeCalendarTool_try_error name
                (parseArgs (fn_arguments (tc_function toolCall))) userEmail s0) as Herr.
  cbn zeta in Hfail. change (world s0) with (world s) in Hfail, Hzone.
  change (sent s0) with (sent s) in Hs.
  destruct (executeCalendarTool_try _ _ _ s0) as [[r0 | e0] s1]; cbn [fst snd] in *.
  - exists r0, s1, extra. split; [reflexivity |]. split; [exact Hs |].
    destruct (Hflag r0 s1 eq_refl) as (He & Hm & _).
    split.
    { intros detail Ho. split; [exact (He detail Ho) |].
      assert (Hne : detail <> []).
      { rewrite (Herr r0 s1 eq_refl detail Ho). vm_compute. discriminate. }
      split; [exact Hne |].
      rewrite Ho. destruct detail; [contradiction | reflexivity]. }
    split; [exact Hm |]. split.
    { intros pre o post e Hex Hng Hf. discriminate (Hfail pre o post e Hex Hng Hf). }
    split; [exact Hzone |].
    intros Hu. specialize (Hunk Hu). injection Hunk as ->. reflexivity.
  - eexists; eexists; exists extra. split; [reflexivity |]. split; [exact Hs |].
    cbn [output didMutate].
    split.
    { intros detail [= <-]. split; [reflexivity |].
      pose proof (formatToolError_nonempty e0) as Hne. split; [exact Hne |].
      cbn [outputError_of]. destruct (formatToolError e0); [contradiction | reflexivity]. }
    split; [discriminate |]. split.
    { intros pre o post e Hex Hng Hf.
      pose proof (Hfail pre o post e Hex Hng Hf) as Ht. injection Ht as ->. reflexivity. }
    split; [exact Hzone |].
    intros Hu. specialize (Hunk Hu). discriminate Hunk.
Qed.

Lemma executeCalendarTool_total_witness :
  (exists s',
     executeCalendarTool (B := Demo.builtins) (C := Demo.collaborators)
       (Demo.call (js "delete_event") (Some (Demo.json_text [(js "event_id", js "E404")])))
       JUndefined (Demo.boot [])
     = (Ok {| output := OutError (formatToolError Demo.not_found);
              didMutate := false |}, s'))
  /\ (exists s',
        executeCalendarTool (B := Demo.builtins) (C := Demo.collaborators)
          (Demo.call (js "send_email") None) JUndefined (Demo.boot [])
        = (Ok {| output := OutError (js "Unsupported tool: send_email");
                 didMutate := false |}, s')).
Proof.
  split.
  - destruct (proj1 (executeCalendarTool_total (H := Demo.builtins)
                       (H0 := Demo.collaborators)
                       (Demo.call (js "delete_event")
                          (Some (Demo.json_text [(js "event_id", js "E404")])))
                       JUndefined (Demo.boot [])))
      as (r & s' & extra & E & Hsent & _ & _ & Hfail & _).
    exists s'. rewrite E. f_equal. f_equal.
    assert (E' : extra = [EventsDelete (js "primary") (JStr (js "E404"))]).
    { change (sent s' = [] ++ extra) in Hsent. cbn [app] in Hsent.
      rewrite <- Hsent. change s' with (snd (Ok r, s')). rewrite <- E.
      vm_compute. reflexivity. }
    apply (Hfail [] (EventsDelete (js "primary") (JStr (js "E404"))) []).
    + exact E'.
    + intros calendarId. discriminate.
    + vm_compute. reflexivity.
  - destruct (proj1 (executeCalendarTool_total (H := Demo.builtins)
                       (H0 := Demo.collaborators)
                       (Demo.call (js "send_email") None)
                       JUndefined (Demo.boot [])))
      as (r & s' & extra & E & _ & _ & _ & _ & _ & Hunknown).
    exists s'. rewrite E. rewrite (Hunknown eq_refl). reflexivity.
Defined.

(** C5 as stated fails for one provider-level error: when the lookup of
    the primary calendar fails, a [schedule_event] without a time zone is
    inserted all the same, with [UTC], and the result is the data of the
    insert with [didMutate = true]. *)
Lemma executeCalendarTool_total_counterexample :
  let out :=
    executeCalendarTool (B := Demo.builtins) (C := DemoLookupFails.collaborators)
      (Demo.call (js "schedule_event")
         (Some (Demo.json_text
                  [(js "start_time", js "2025-06-01T00:00:00.000Z");
                   (js "end_time", js "2025-06-08T00:00:00.000Z");
                   (js "summary", js "Review")])))
      JUndefined DemoLookupFails.boot in
  failure_of (C := DemoLookupFails.collaborators) (CalendarsGet (js "primary"))
    (world DemoLookupFails.boot) = Some Demo.not_found
  /\ (exists requestBody,
        sent (snd out)
        = [CalendarsGet (js "primary"); EventsInsert (js "primary") requestBody]
        /\ et_timeZone (body_start requestBody) = JStr (js "UTC"))
  /\ (exists data, fst out = Ok {| output := OutData data; didMutate := true |}).
Proof.
  cbv zeta. split; [reflexivity |]. split.
  - eexists. split; vm_compute; reflexivity.
  - eexists. vm_compute. reflexivity.
Qed.

(** X10. One dispatch changes the calendar at most once.  Of the
    requests [executeCalendarTool] sends, at most two and all of them to
    the calendar provider, at most one is an insert, an update or a
    delete; when the result reports [didMutate = true] that request was
    sent, and was the last one; a tool that is not a mutating one sends
    none, and an unknown tool sends nothing at all. *)
Theorem dispatch_writes_at_most_once `{Builtins} `{Collaborators}
    toolCall userEmail s :
  exists r s' extra,
    executeCalendarTool toolCall userEmail s = (Ok r, s')
    /\ sent s' = sent s ++ extra
    /\ (length extra <= 2)%nat
    /\ forallb is_provider_request extra = true
    /\ (length (List.filter is_write_request extra) <= 1)%nat
    /\ (didMutate r = true ->
        exists pre w, extra = pre ++ [w] /\ is_write_request w = true
                      /\ List.filter is_write_request pre = [])
    /\ (isMutating toolCall = false -> List.filter is_write_request extra = [])
    /\ (includes knownTools (fn_name (tc_function toolCall)) = false -> extra = []).
Proof.
  destruct (executeCalendarTool_sent toolCall userEmail s)
    as (r & s' & extra & E & Hs & Hl & Hw & Hm & Hn & Hu & Hwf).
  exists r, s', extra. repeat (split; [assumption |]).
  split; [| split; [exact Hw | split; [| auto]]].
  - apply forallb_forall. intros o Ho.
    rewrite Forall_forall in Hwf. apply list_elem_of_In in Ho.
    specialize (Hwf o Ho). destruct o; try reflexivity; contradiction.
  - intros Hd. destruct (Hm Hd) as (pre & w & -> & Hwr).
    exists pre, w. repeat split; auto.
    rewrite List.filter_app, length_app in Hw. cbn in Hw. rewrite Hwr in Hw.
    cbn in Hw. destruct (List.filter is_write_request pre); [reflexivity |].
    simpl in Hw. lia.
Qed.

(** X11. Every request of a dispatch is well formed.  A lookup, an
    insert, an update and a delete name the primary calendar; a listing
    names a calendar, never an empty one, and carries two ISO timestamps;
    an insert or an update carries one time zone, never empty, for the
    start and the end, and for neither of them both a moment and a day;
    an insert carries exactly one of the two, as a string, and a list of
    attendees none of which is empty. *)
Theorem dispatch_requests_well_formed `{Builtins} `{Collaborators}
    toolCall userEmail s :
  exists extra,
    sent (snd (executeCalendarTool toolCall userEmail s)) = sent s ++ extra
    /\ Forall well_formed extra.
Proof.
  destruct (executeCalendarTool_sent toolCall userEmail s)
    as (r & s' & extra & E & Hs & _ & _ & _ & _ & _ & Hwf).
  exists extra. rewrite E. auto.
Qed.

Example scheduled_event_request :
  sent (snd (executeCalendarTool (B := Demo.builtins) (C := Demo.collaborators)
               (Demo.call (js "schedule_event")
                  (Some (Demo.json_text
                           [(js "start_time", js "2025-06-01T00:00:00.000Z");
                            (js "end_time", js "2025-06-08T00:00:00.000Z");
                            (js "summary", js "Review")])))
               (JStr (js "ada@example.com")) (Demo.boot [])))
  = [ CalendarsGet (js "primary");
      EventsInsert (js "primary")
        {| body_summary := JStr (js "Review");
           body_description := JUndefined;
           body_start := {| et_dateTime := JStr (js "2025-06-01T00:00:00.000Z");
                            et_date := JUndefined;
                            et_timeZone := JStr (js "Asia/Shanghai") |};
           body_end := {| et_dateTime := JStr (js "2025-06-08T00:00:00.000Z");
                          et_date := JUndefined;
                          et_timeZone := JStr (js "Asia/Shanghai") |};
           body_attendees := Some [];
           body_recurrence := JUndefined |} ].
Proof. vm_compute. reflexivity. Qed.

(** X12. [get_calendar] asks the provider only for a valid window: when
    the start or the end of the payload is not a valid date, nothing is
    sent, and the result is an error with a detail and [didMutate =
    false]. *)
Theorem get_calendar_rejects_invalid_window `{Builtins} `{Collaborators}
    toolCall userEmail s props :
  fn_name (tc_function toolCall) = js "get_calendar" ->
  parseArgs (fn_arguments (tc_function toolCall)) = JObj props ->
  Date_new (lookup_prop (js "start_time") props) = Ok None
  \/ ((exists t, Date_new (lookup_prop (js "start_time") props) = Ok (Some t))
      /\ Date_new (lookup_prop (js "end_time") props) = Ok None) ->
  exists detail s',
    executeCalendarTool toolCall userEmail s
    = (Ok {| output := OutError detail; didMutate := false |}, s')
    /\ detail <> [] /\ sent s' = sent s /\ world s' = world s.
Proof.
  intros Hname Hargs Hdate.
  exists (formatToolError (RangeError (js "Invalid time value"))).
  unfold executeCalendarTool. cbv zeta. rewrite Hname, Hargs.
  unfold mbind at 1, M_bind at 1. cbn [gui_emit on_streams modify].
  unfold try_catch, executeCalendarTool_try.
  change (str_eqb (js "get_calendar") (js "get_calendar")) with true. cbv iota.
  unfold mbind, M_bind, lift, date_iso, Res_bind. cbn [prop].
  destruct Hdate as [-> | [(t & ->) ->]]; cbn -[formatToolError];
    (eexists; split; [reflexivity |]; split;
       [apply formatToolError_nonempty | split; reflexivity]).
Qed.

Lemma get_calendar_rejects_invalid_window_witness :
  exists s',
    executeCalendarTool (B := Demo.builtins) (C := Demo.collaborators)
      (Demo.call (js "get_calendar") None) JUndefined (Demo.boot [])
    = (Ok {| output := OutError (js "Invalid time value"); didMutate := false |}, s')
    /\ sent s' = [].
Proof.
  destruct (get_calendar_rejects_invalid_window (H := Demo.builtins)
              (H0 := Demo.collaborators)
              (Demo.call (js "get_calendar") None) JUndefined (Demo.boot []) [])
    as (detail & s' & E & _ & Hs & _);
    [reflexivity | reflexivity | left; reflexivity |].
  exists s'. split; [| exact Hs].
  rewrite E. f_equal. f_equal.
  assert (E' := f_equal fst E). vm_compute in E'. injection E' as <-. reflexivity.
Defined.

(** X13. The time zone of an event never fails the dispatch: the lookup
    of the primary calendar sends one request and returns its time zone,
    or [UTC] when the request fails or the calendar has no time zone or
    an empty one. *)
Theorem time_zone_falls_back_to_UTC `{Builtins} `{Collaborators} s :
  exists tz s',
    resolvePrimaryCalendarTimeZone s = (Ok tz, s')
    /\ tz <> []
    /\ sent s' = sent s ++ [CalendarsGet (js "primary")]
    /\ (forall zone, fst (calendars_get (js "primary") (world s)) = Ok (Some zone) ->
        zone <> [] -> tz = zone)
    /\ ((forall zone, zone <> [] ->
         fst (calendars_get (js "primary") (world s)) <> Ok (Some zone)) ->
        tz = js "UTC").
Proof.
  destruct (resolvePrimaryCalendarTimeZone_run s) as (tz & s' & E & Htz & ->).
  exists tz. eexists. split; [exact E |].
  split; [| split; [reflexivity |]].
  - subst tz.
    destruct (fst (calendars_get (js "primary") (world s))) as [[[| c zone] |] | e];
      first [discriminate | vm_compute; discriminate].
  - split.
    + intros zone Hz Hne. rewrite Hz in Htz. destruct zone; [contradiction | exact Htz].
    + intros Hno.
      destruct (fst (calendars_get (js "primary") (world s)))
        as [[[| c zone] |] | e]; try exact Htz.
      exfalso. apply (Hno (c :: zone)); [discriminate | reflexivity].
Qed.

(** X14. [formatToolError] always says something: its result is never
    empty; a thrown value that is not an object gives the fallback text,
    and an error that has a message and nothing else gives the
    message. *)
Theorem formatToolError_says_something error :
  formatToolError error <> []
  /\ (as_error_object error = None ->
      formatToolError error = js "Tool execution failed")
  /\ (forall message, message <> [] ->
      error = ThrownObject {| err_message := Some message; err_code := None;
                              err_status := None; err_response := None |} ->
      formatToolError error = message).
Proof.
  split; [apply formatToolError_nonempty |]. split.
  - unfold formatToolError. intros ->. reflexivity.
  - intros [| c message] Hm ->; [contradiction |]. reflexivity.
Qed.

(** X15. A failed tool call is always reported as one: when the output
    of [executeCalendarTool] is an error, its detail is not empty, so that
    the [outputError] the loop writes to the log is that detail; and the
    log shows an [outputError] for no other output. *)
Theorem tool_failures_reach_the_log `{Builtins} `{Collaborators}
    toolCall userEmail s :
  exists r s',
    executeCalendarTool toolCall userEmail s = (Ok r, s')
    /\ (forall detail, output r = OutError detail <->
                       outputError_of (output r) = Some detail).
Proof.
  destruct (executeCalendarTool_sent toolCall userEmail s)
    as (r & s' & extra & E & _).
  exists r, s'. split; [exact E |]. intros detail. split.
  - intros Ho. pose proof (executeCalendarTool_error_detail _ _ _ _ _ _ E Ho) as Hd.
    rewrite Ho. destruct detail; [contradiction | reflexivity].
  - destruct (output r) as [| | [| c d]]; simpl; try discriminate.
    intros [= <-]. reflexivity.
Qed.


(* ===================================================================== *)
(** * The assistant configuration *)
(* ===================================================================== *)

Section ConfigFacts.
Context {B : Builtins} {C : Collaborators}.

(** The files of the configuration, in the order they are read. *)
Lemma readAll_run paths : forall s,
  exists rs s',
    readAll paths s = (Ok rs, s')
    /\ sent s' = sent s ++ map ReadFile paths
    /\ assistantConfigPromise s' = assistantConfigPromise s
    /\ conversationStore s' = conversationStore s
    /\ streams s' = streams s /\ console s' = console s.
Proof.
  induction paths as [| p rest IH]; intros s.
  - exists [], s. rewrite app_nil_r. repeat split.
  - assert (H1 : exists r,
      try_catch (c ← request (ReadFile p) (readFile p); mret (Ok c))
                (fun e => mret (Throw e)) s
      = (Ok r, set_world (snd (readFile p (world s)))
                 (set_sent (sent s ++ [ReadFile p]) s))).
    { unfold try_catch, mbind, M_bind, request.
      destruct (readFile p (world s)) as [[c | e] w]; eexists; reflexivity. }
    destruct H1 as (r & E1).
    destruct (IH (set_world (snd (readFile p (world s)))
                    (set_sent (sent s ++ [ReadFile p]) s)))
      as (rs & s' & E & Hs & Hp & Hc & Hst & Hco).
    exists (r :: rs), s'. split.
    + cbn [readAll]. erewrite bind_run by exact E1.
      erewrite bind_run by exact E. reflexivity.
    + rewrite Hs. cbn. rewrite <- app_assoc. repeat split; assumption.
Qed.

(** A load from the files: the five are read, and the cache holds the
    configuration or, after a failure, nothing. *)
Lemma loadAssistantConfig_cold s :
  assistantConfigPromise s = None ->
  exists r s',
    loadAssistantConfig s = (r, s')
    /\ sent s'
       = sent s ++ map ReadFile
                     (js "assistant/instruction.txt"
                      :: map (fun f => js "assistant/functions/" ++ f) functionFiles)
    /\ assistantConfigPromise s' = match r with Ok cfg => Some cfg | Throw _ => None end
    /\ conversationStore s' = conversationStore s
    /\ streams s' = streams s /\ console s' = console s.
Proof.
  intros Hcold. unfold loadAssistantConfig. rewrite Hcold.
  destruct (readAll_run (js "assistant/instruction.txt"
                         :: map (fun f => js "assistant/functions/" ++ f) functionFiles) s)
    as (rs & s1 & E & Hs & Hp & Hc & Hst & Hco).
  unfold try_catch. unfold mbind at 1, M_bind at 1.
  unfold mbind at 1, M_bind at 1. rewrite E. unfold lift.
  destruct (all_ok rs) as [[| instructions functions] | e].
  - eexists; eexists. split; [reflexivity |]. cbn. auto.
  - unfold mbind at 1, M_bind at 1.
    destruct (all_ok (map _ functions)) as [tools | e];
      eexists; eexists; (split; [reflexivity |]); cbn; auto.
  - eexists; eexists. split; [reflexivity |]. cbn. auto.
Qed.

End ConfigFacts.

(** X16. The assistant configuration is loaded once: after a call of
    [loadAssistantConfig] that returned a configuration, the cache holds
    it, and every later call returns the same configuration and leaves
    the state as it is, so that no file is read again. *)
Theorem assistant_config_is_loaded_once `{Builtins} `{Collaborators} s cfg s' :
  loadAssistantConfig s = (Ok cfg, s') ->
  assistantConfigPromise s' = Some cfg
  /\ loadAssistantConfig s' = (Ok cfg, s').
Proof.
  intros E.
  assert (Hp : assistantConfigPromise s' = Some cfg).
  { destruct (assistantConfigPromise s) as [cfg0 |] eqn:Ep.
    - unfold loadAssistantConfig in E. rewrite Ep in E. injection E as <- <-. exact Ep.
    - destruct (loadAssistantConfig_cold s Ep) as (r & s1 & E1 & _ & Hp & _).
      rewrite E in E1. injection E1 as <- <-. exact Hp. }
  split; [exact Hp |]. unfold loadAssistantConfig. rewrite Hp. reflexivity.
Qed.

Lemma assistant_config_is_loaded_once_witness :
  exists cfg s',
    loadAssistantConfig (B := Demo.builtins) (C := Demo.collaborators) (Demo.boot [])
    = (Ok cfg, s')
    /\ length (sent s') = 5%nat
    /\ loadAssistantConfig (B := Demo.builtins) (C := Demo.collaborators) s'
       = (Ok cfg, s').
Proof.
  destruct (loadAssistantConfig (B := Demo.builtins) (C := Demo.collaborators)
              (Demo.boot [])) as [[cfg | e] s'] eqn:E;
    [| vm_compute in E; discriminate E].
  exists cfg, s'. split; [reflexivity |]. split.
  - assert (E' := f_equal (fun x => length (sent (snd x))) E).
    vm_compute in E'. symmetry. exact E'.
  - apply (assistant_config_is_loaded_once (Demo.boot []) cfg s' E).
Defined.



(* ===================================================================== *)
(** * What a request touches *)
(* ===================================================================== *)

Section RequestFacts.
Context {B : Builtins} {C : Collaborators}.

(** What the detached task does to the store: nothing, or one write under
    its thread id. *)
Lemma detached_store question tid session s :
  conversationStore (snd (detached question tid session s)) = conversationStore s
  \/ exists h,
       conversationStore (snd (detached question tid session s))
       = <[tid := h]> (conversationStore s) /\ (length h <= 30)%nat.
Proof.
  unfold detached, try_finally, try_catch.
  pose proof (conversation_store question tid session s) as Hc.
  destruct (conversation question tid session s) as [[[] | e] s1].
  - destruct Hc as (range & cfg & h0 & sa & l & sb & _ & _ & Hs & _).
    right. eexists. split; [exact Hs |]. rewrite length_slice_last. lia.
  - left. pose proof (same_store_failed e s1) as Hf. unfold same_store in Hf.
    destruct (conversation_failed e s1) as [r s2]. cbn in *. congruence.
Qed.

Lemma same_thread_detached question tid session :
  keeps same_thread (detached question tid session).
Proof.
  apply keeps_detached;
    intros; hnf; try intros ?; cbn; first [reflexivity | hnf in *; congruence].
Qed.

(** A request with a session: the thread id is the one given, or a fresh
    one; it is what the thread id stream carries; and the store is left
    alone or written under it. *)
Lemma submitMessage_thread question threadId s session w :
  getServerSession (world s) = (Ok (Some session), w) ->
  str_truthy (accessToken session) = true ->
  let tid := match threadId with
             | [] => fst (generateId w)
             | _ => threadId
             end in
  let s' := snd (submitMessage question threadId s) in
  emitted (threadIdStream (streams s')) = [tid]
  /\ (conversationStore s' = conversationStore s
      \/ exists h, conversationStore s' = <[tid := h]> (conversationStore s)
                   /\ (length h <= 30)%nat).
Proof.
  intros Hsess Htok. cbn zeta.
  set (tid := match threadId with [] => fst (generateId w) | _ => threadId end).
  set (s0 := match threadId with
             | [] => set_world (snd (generateId w)) (set_world w s)
             | _ => set_world w s
             end).
  assert (E0 : (match threadId with
                | _ :: _ => mret threadId
                | [] => fresh_id
                end : M jsstring) (set_world w s) = (Ok tid, s0)).
  { subst tid s0. destruct threadId; [| reflexivity].
    unfold fresh_id. cbn. destruct (generateId w); reflexivity. }
  set (s1 := set_streams (streams_created tid) s0).
  pose proof (detached_store question tid session s1) as Hstore.
  pose proof (same_thread_detached question tid session s1) as Hthread.
  unfold same_thread in Hthread.
  assert (Hs1 : conversationStore s1 = conversationStore s)
    by (subst s1 s0; destruct threadId; reflexivity).
  rewrite Hs1 in Hstore.
  assert (E : exists answer,
    submitMessage question threadId s
    = (answer, set_world (snd (generateId (world (snd (detached question tid session s1)))))
                 (snd (detached question tid session s1)))).
  { unfold submitMessage, try_catch at 1.
    unfold mbind at 1, M_bind at 1, request_session. rewrite Hsess, Htok.
    erewrite bind_run by exact E0.
    erewrite bind_run by reflexivity. fold s1.
    unfold mbind at 1, M_bind at 1, try_catch.
    destruct (detached question tid session s1) as [[[] | e] s2];
      cbn [snd mret M_ret]; unfold mbind, M_bind, fresh_id;
      destruct (generateId (world s2)) as [i w2]; cbn; eexists; reflexivity. }
  destruct E as (answer & ->). cbn [snd streams set_world conversationStore].
  split; [rewrite Hthread; reflexivity | exact Hstore].
Qed.

(** A request with a session runs the detached task, for the thread id
    given or generated, from a state that differs from the first in the
    streams and the collaborators only. *)
Lemma submitMessage_detached question threadId s session w :
  getServerSession (world s) = (Ok (Some session), w) ->
  str_truthy (accessToken session) = true ->
  let tid := match threadId with [] => fst (generateId w) | _ => threadId end in
  exists s1 answer w2,
    conversationStore s1 = conversationStore s
    /\ sent s1 = sent s /\ console s1 = console s
    /\ assistantConfigPromise s1 = assistantConfigPromise s
    /\ streams s1 = streams_created tid
    /\ submitMessage question threadId s
       = (answer, set_world w2 (snd (detached question tid session s1))).
Proof.
  intros Hsess Htok. cbn zeta.
  set (tid := match threadId with [] => fst (generateId w) | _ => threadId end).
  set (s0 := match threadId with
             | [] => set_world (snd (generateId w)) (set_world w s)
             | _ => set_world w s
             end).
  assert (E0 : (match threadId with
                | _ :: _ => mret threadId
                | [] => fresh_id
                end : M jsstring) (set_world w s) = (Ok tid, s0)).
  { subst tid s0. destruct threadId; [| reflexivity].
    unfold fresh_id. cbn. destruct (generateId w); reflexivity. }
  exists (set_streams (streams_created tid) s0).
  set (s1 := set_streams (streams_created tid) s0).
  assert (E : exists answer,
    submitMessage question threadId s
    = (answer, set_world (snd (generateId (world (snd (detached question tid session s1)))))
                 (snd (detached question tid session s1)))).
  { unfold submitMessage, try_catch at 1.
    unfold mbind at 1, M_bind at 1, request_session. rewrite Hsess, Htok.
    erewrite bind_run by exact E0.
    erewrite bind_run by reflexivity. fold s1.
    unfold mbind at 1, M_bind at 1, try_catch.
    destruct (detached question tid session s1) as [[[] | e] s2];
      cbn [snd mret M_ret]; unfold mbind, M_bind, fresh_id;
      destruct (generateId (world s2)) as [i w2]; cbn; eexists; reflexivity. }
  destruct E as (answer & E). exists answer. eexists.
  split; [| split; [| split; [| split; [| split; [reflexivity | exact E]]]]];
    subst s1 s0; destruct threadId; reflexivity.
Qed.

(** A request without a session. *)
Lemma submitMessage_signed_out question threadId s :
  match fst (getServerSession (world s)) with
  | Ok (Some session) => str_truthy (accessToken session) = false
  | _ => True
  end ->
  exists answer s',
    submitMessage question threadId s = (Ok answer, s')
    /\ match fst (getServerSession (world s)) with
       | Ok _ => exists id, answer = NotAuthenticated id
       | Throw error => exists id, answer = FailedToSubmit id (error_message error)
       end
    /\ conversationStore s' = conversationStore s
    /\ streams s' = streams s /\ console s' = console s /\ sent s' = sent s
    /\ assistantConfigPromise s' = assistantConfigPromise s.
Proof.
  unfold submitMessage, try_catch, mbind, M_bind, request_session, fresh_id.
  destruct (getServerSession (world s)) as [[[session |] | error] w]; cbn [fst].
  - intros ->. cbn. destruct (generateId w) as [i w']. cbn.
    eexists; eexists. split; [reflexivity |]. repeat split. eexists; reflexivity.
  - intros _. cbn. destruct (generateId w) as [i w']. cbn.
    eexists; eexists. split; [reflexivity |]. repeat split. eexists; reflexivity.
  - intros _. cbn. destruct (generateId w) as [i w']. cbn.
    eexists; eexists. split; [reflexivity |]. repeat split. eexists; reflexivity.
Qed.

End RequestFacts.

(** X18. A request without a session starts nothing: when there is no
    session, or the session has no access token, [submitMessage] answers
    that the user is not authenticated, and when reading the session
    throws an error object it answers with the message of that error; in
    both cases no stream is created, nothing is sent, nothing is logged,
    and the thread store and the cached configuration are left as they
    were. *)
Theorem request_without_session_starts_nothing `{Builtins} `{Collaborators}
    question threadId s :
  match fst (getServerSession (world s)) with
  | Ok (Some session) => str_truthy (accessToken session) = false
  | Ok None => True
  | Throw error => as_error_object error <> None
  end ->
  exists answer s',
    submitMessage question threadId s = (Ok answer, s')
    /\ match fst (getServerSession (world s)) with
       | Ok _ => exists id, answer = NotAuthenticated id
       | Throw error => exists id, answer = FailedToSubmit id (error_message error)
       end
    /\ conversationStore s' = conversationStore s
    /\ streams s' = streams s /\ console s' = console s /\ sent s' = sent s
    /\ assistantConfigPromise s' = assistantConfigPromise s.
Proof.
  intros Hs. apply submitMessage_signed_out.
  destruct (fst (getServerSession (world s))) as [[session |] | error]; auto.
Qed.

Lemma request_without_session_starts_nothing_witness :
  exists s',
    submitMessage (B := Demo.builtins) (C := DemoSignedOut.collaborators)
      (js "what is on today?") (js "thread-1") DemoSignedOut.boot
    = (Ok (NotAuthenticated (js "id-0")), s')
    /\ sent s' = [] /\ console s' = [] /\ conversationStore s' = ∅.
Proof.
  destruct (request_without_session_starts_nothing
              (H := Demo.builtins) (H0 := DemoSignedOut.collaborators)
              (js "what is on today?") (js "thread-1") DemoSignedOut.boot I)
    as (answer & s' & E & _ & Hstore & _ & Hconsole & Hsent & _).
  exists s'. split; [| auto].
  rewrite E. f_equal. f_equal.
  assert (E' := f_equal fst E). vm_compute in E'. injection E' as <-. reflexivity.
Defined.

(** X19. A request touches no thread but its own: whatever happens while
    it is served, the history stored for any other thread id is what it
    was, and under its own id the store holds what it held or a history
    of at most 30 messages.  The id of the thread is the one the caller
    gave, unless that was empty. *)
Theorem request_touches_only_its_thread `{Builtins} `{Collaborators}
    question threadId s :
  let s' := snd (submitMessage question threadId s) in
  exists tid,
    (threadId <> [] -> tid = threadId)
    /\ (forall other, other <> tid ->
        conversationStore s' !! other = conversationStore s !! other)
    /\ (conversationStore s' !! tid = conversationStore s !! tid
        \/ exists h, conversationStore s' !! tid = Some h /\ (length h <= 30)%nat).
Proof.
  cbn zeta.
  destruct (getServerSession (world s)) as [r w] eqn:Hsess.
  assert (Hnone :
    match r with
    | Ok (Some session) => str_truthy (accessToken session) = false
    | _ => True
    end ->
    conversationStore (snd (submitMessage question threadId s)) = conversationStore s).
  { intros Hr.
    destruct (submitMessage_signed_out question threadId s)
      as (answer & s' & E & _ & Hstore & _); [rewrite Hsess; exact Hr |].
    rewrite E. exact Hstore. }
  destruct r as [[session |] | error];
    [destruct (str_truthy (accessToken session)) eqn:Htok |..].
  2-4: exists threadId; rewrite Hnone by auto; auto.
  destruct (submitMessage_thread question threadId s session w Hsess Htok)
    as (_ & Hstore).
  exists (match threadId with [] => fst (generateId w) | _ => threadId end).
  split; [| split].
  - intros Hne. destruct threadId; [contradiction | reflexivity].
  - intros other Hother. destruct Hstore as [-> | (h & -> & _)]; [reflexivity |].
    apply lookup_insert_ne. congruence.
  - destruct Hstore as [-> | (h & -> & Hh)]; [left; reflexivity |].
    right. exists h. split; [apply lookup_insert_eq | exact Hh].
Qed.

(** X20. The client is told the thread it talks to: a request with a
    session puts exactly one value on the thread id stream, the id the
    caller gave or, when that is empty, an id generated for the request;
    and what the request stores, it stores under that id. *)
Theorem thread_id_is_announced `{Builtins} `{Collaborators}
    question threadId s session w :
  getServerSession (world s) = (Ok (Some session), w) ->
  str_truthy (accessToken session) = true ->
  let s' := snd (submitMessage question threadId s) in
  let tid := match threadId with [] => fst (generateId w) | _ => threadId end in
  emitted (threadIdStream (streams s')) = [tid]
  /\ (conversationStore s' = conversationStore s
      \/ exists h, conversationStore s' = <[tid := h]> (conversationStore s)).
Proof.
  intros Hsess Htok. cbn zeta.
  destruct (submitMessage_thread question threadId s session w Hsess Htok)
    as (Hthread & Hstore).
  split; [exact Hthread |].
  destruct Hstore as [-> | (h & -> & _)]; [left; reflexivity |].
  right. exists h. reflexivity.
Qed.

Lemma thread_id_is_announced_witness :
  let s' := snd (submitMessage (B := Demo.builtins) (C := Demo.collaborators)
                   (js "what is on today?") []
                   (Demo.boot [Demo.no_range; Demo.says (js "Nothing.")])) in
  emitted (threadIdStream (streams s')) = [js "id-0"]
  /\ conversationStore s' !! js "id-0"
     = Some [MUser (js "what is on today?"); MAssistant (js "Nothing.") None None].
Proof.
  intros s'. split.
  - destruct (thread_id_is_announced (H := Demo.builtins) (H0 := Demo.collaborators)
                (js "what is on today?") []
                (Demo.boot [Demo.no_range; Demo.says (js "Nothing.")])
                Demo.the_session
                {| Demo.script := [Demo.no_range; Demo.says (js "Nothing.")];
                   Demo.ticks := 0 |} eq_refl eq_refl) as (Hthread & _).
    exact Hthread.
  - vm_compute. reflexivity.
Defined.

(* ===================================================================== *)
(** * The history within a request *)
(* ===================================================================== *)

Section HistoryFacts.
Context {B : Builtins} {C : Collaborators}.

(** The results a loop over tool calls records: one for each call. *)
Lemma runToolCalls_appends round modern session calls : forall l s,
  exists l' s' results,
    runToolCalls round modern session calls l s = (Ok l', s')
    /\ history l' = history l ++ results
    /\ length results = length calls
    /\ forallb is_result results = true.
Proof.
  induction calls as [| c calls IH]; intros l s.
  - exists l, s, []. rewrite app_nil_r. repeat split.
  - destruct (runToolCall_run round modern session c l s)
      as (r & s1 & id & s2 & _ & _ & _ & Erun & _).
    match type of Erun with _ = (Ok ?l1, _) =>
      destruct (IH l1 s2) as (l' & s' & results & E & Hh & Hlen & Hres) end.
    eexists l', s', (_ :: results). split; [| split; [| split]].
    + cbn [runToolCalls]. erewrite bind_run by exact Erun. exact E.
    + rewrite Hh. cbn [history]. rewrite <- app_assoc. reflexivity.
    + simpl. rewrite Hlen. reflexivity.
    + cbn [forallb]. rewrite Hres. destruct modern; reflexivity.
Qed.

(** A round that goes on has recorded the request of the model and one
    result for each of its calls. *)
Lemma react_continue question range session round l completion s l' s' :
  react question range session round l completion s = (Ok (Continue l'), s') ->
  exists content toolCalls functionCall results,
    history l' = history l ++ MAssistant content toolCalls functionCall :: results
    /\ forallb is_result results = true
    /\ match toolCalls with
       | Some calls => calls <> [] /\ functionCall = None
                       /\ length results = length calls
       | None => functionCall <> None /\ length results = 1%nat
       end.
Proof.
  unfold react.
  destruct (head (choices completion) ≫= choice_message) as [am |];
    [| intros E; discriminate E].
  unfold executableToolCallsOf.
  destruct (default [] (am_tool_calls am)) as [| tc tcs] eqn:Etc;
    [destruct (am_function_call am) as [fc |] eqn:Efc |].
  2: intros E; discriminate E.
  all: unfold mbind at 1, M_bind at 1; cbn [logAIInteraction modify];
       unfold mbind at 1, M_bind at 1; cbn [logAIInteraction modify];
       unfold mbind at 1, M_bind at 1, lift;
       destruct (shouldAskClarificationBeforeMutation _ _ _) as [[|] | e];
       try (intros E; discriminate E).
  all: match goal with
       | |- context [runToolCalls ?r ?m ?se ?cs ?l0] =>
         intros E;
         match type of E with (_ ≫= _) ?s0 = _ =>
           destruct (runToolCalls_appends r m se cs l0 s0)
             as (l1 & s1 & results & Er & Hh & Hlen & Hres)
         end
       end.
  all: erewrite bind_run in E by exact Er; injection E as <- <-.
  all: cbn [history] in Hh; rewrite <- app_assoc in Hh; cbn [app] in Hh.
  - eexists _, None, (Some fc), results. split; [exact Hh |].
    split; [exact Hres |]. split; [discriminate | exact Hlen].
  - eexists _, (Some (tc :: tcs)), None, results. split; [exact Hh |].
    split; [exact Hres |]. split; [discriminate |]. split; [reflexivity | exact Hlen].
Qed.

Section Asking.
Variable P : list Message -> Prop.

Lemma asks_with_refl s : asks_with P s s.
Proof. exists []. rewrite app_nil_r. split; [reflexivity | constructor]. Qed.

Lemma asks_with_trans s1 s2 s3 :
  asks_with P s1 s2 -> asks_with P s2 s3 -> asks_with P s1 s3.
Proof.
  intros (e1 & E1 & H1) (e2 & E2 & H2). exists (e1 ++ e2).
  rewrite E2, E1, app_assoc. split; [reflexivity | apply Forall_app; auto].
Qed.

Lemma asks_with_quiet s s' : sent s' = sent s -> asks_with P s s'.
Proof.
  intros E. exists []. rewrite app_nil_r. split; [exact E | constructor].
Qed.

Lemma asks_with_other o s w :
  is_assistant_request o = false ->
  asks_with P s (set_world w (set_sent (sent s ++ [o]) s)).
Proof.
  intros Ho. exists [o]. split; [reflexivity |].
  constructor; [| constructor]. intros req -> Hm. cbn in Ho. rewrite Hm in Ho.
  discriminate Ho.
Qed.

Ltac asks_frame :=
  first [ exact asks_with_refl | exact asks_with_trans | exact asks_with_other
        | intros; hnf; try intros ?; apply asks_with_quiet; reflexivity ].

Lemma asks_with_prepare question tid : keeps (asks_with P) (prepare question tid).
Proof. apply keeps_prepare; asks_frame. Qed.

Lemma asks_with_react question range session round l completion :
  keeps (asks_with P) (react question range session round l completion).
Proof. apply keeps_react; asks_frame. Qed.

Lemma asks_with_failed error : keeps (asks_with P) (conversation_failed error).
Proof. apply keeps_conversation_failed; asks_frame. Qed.

Lemma asks_with_askModel cfg session round l :
  P (history l) -> keeps (asks_with P) (askModel cfg session round l).
Proof.
  intros Hl s. unfold askModel, mbind, M_bind, now, request. cbn.
  destruct (Date_now (world s)) as [t w]. cbn.
  destruct (chat_completions_create _ w) as [r w'].
  eexists [_]. split; [destruct r; reflexivity |].
  constructor; [| constructor]. intros req [= <-] _.
  eexists; eexists. split; [reflexivity | exact Hl].
Qed.

(** The loop asks the model with histories of which [P] holds, when [P]
    holds at the start and a round that goes on keeps it. *)
Hypothesis P_continue :
  forall question range session round l completion s l' s',
    P (history l) ->
    react question range session round l completion s = (Ok (Continue l'), s') ->
    P (history l').

Lemma asks_with_rounds question range cfg session n :
  forall round l s,
    P (history l) ->
    asks_with P s (snd (rounds question range cfg session n round l s)).
Proof.
  induction n as [| n IH]; intros round l s Hl; [apply asks_with_refl |].
  cbn [rounds]. unfold mbind at 1, M_bind at 1. unfold round_body.
  unfold mbind at 1, M_bind at 1.
  pose proof (asks_with_askModel cfg session round l Hl s) as Hask.
  destruct (askModel cfg session round l s) as [[completion | e] s1];
    cbn [snd] in *; [| exact Hask].
  pose proof (asks_with_react question range session round l completion s1) as Hreact.
  destruct (react question range session round l completion s1)
    as [[[l' | l'] | e] s2] eqn:Er; cbn [snd] in *.
  - eapply asks_with_trans; [exact Hask |].
    eapply asks_with_trans; [exact Hreact |].
    apply IH. eapply P_continue; eauto.
  - eapply asks_with_trans; eauto.
  - eapply asks_with_trans; eauto.
Qed.

Lemma asks_with_detached question tid session s :
  P (default [] (conversationStore s !! tid) ++ [MUser question]) ->
  asks_with P s (snd (detached question tid session s)).
Proof.
  intros Hstart. unfold detached, try_finally.
  assert (H : asks_with P s
                (snd (try_catch (conversation question tid session)
                        conversation_failed s))).
  { unfold try_catch, conversation. unfold mbind at 1, M_bind at 1.
    pose proof (asks_with_prepare question tid s) as Hprep.
    destruct (prepare question tid s) as [[[[range cfg] h0] | e] sa] eqn:Ep;
      cbn [snd] in Hprep.
    2:{ eapply asks_with_trans; [exact Hprep | apply asks_with_failed]. }
    pose proof (prepare_history _ _ _ _ _ _ _ Ep) as ->.
    unfold mbind at 1, M_bind at 1.
    pose proof (asks_with_rounds question range cfg session MAX_TOOL_ROUNDS 0
                  {| history := default [] (conversationStore s !! tid)
                                ++ [MUser question];
                     refetchJobs := 0 |} sa Hstart) as Hrounds.
    destruct (rounds _ _ _ _ _ _ _ sa) as [[l | e] sb]; cbn [snd] in Hrounds.
    - eapply asks_with_trans; [exact Hprep |].
      eapply asks_with_trans; [exact Hrounds |].
      apply asks_with_quiet. reflexivity.
    - eapply asks_with_trans; [exact Hprep |].
      eapply asks_with_trans; [exact Hrounds | apply asks_with_failed]. }
  destruct (try_catch _ _ s) as [r s1]. cbn [snd] in *.
  eapply asks_with_trans; [exact H | apply asks_with_quiet; reflexivity].
Qed.

End Asking.

(** Appending to a history in which every request is answered. *)
Lemma awaiting_app h tail : forall pending,
  awaiting pending h = true -> awaiting pending (h ++ tail) = awaiting 0 tail.
Proof.
  induction h as [| m h IH]; intros pending; cbn [app awaiting].
  - intros E. apply Nat.eqb_eq in E. subst. reflexivity.
  - destruct m as [? | ? | ? [tcs |] [fc |] | ? ? | ? ?];
      try (intros E; apply andb_prop in E; destruct E as [-> E];
           cbn [andb]; apply IH; exact E);
      apply IH.
Qed.

Lemma awaiting_results results :
  forallb is_result results = true ->
  awaiting (length results) results = true.
Proof.
  induction results as [| m results IH]; [reflexivity |].
  cbn [forallb]. intros E. apply andb_prop in E as [Hm E].
  destruct m; try discriminate Hm; cbn; apply IH, E.
Qed.

Lemma react_answered question range session round l completion s l' s' :
  answered (history l) = true ->
  react question range session round l completion s = (Ok (Continue l'), s') ->
  answered (history l') = true.
Proof.
  intros Hl E.
  destruct (react_continue _ _ _ _ _ _ _ _ _ E)
    as (content & toolCalls & functionCall & results & -> & Hres & Hshape).
  unfold answered. rewrite (awaiting_app _ _ 0 Hl). cbn [awaiting].
  destruct toolCalls as [calls |].
  - destruct Hshape as (_ & _ & <-). apply awaiting_results, Hres.
  - destruct Hshape as (Hfc & Hlen). destruct functionCall; [| contradiction].
    cbn. change 1%nat with (length results) at 1 || rewrite <- Hlen.
    apply awaiting_results, Hres.
Qed.

Lemma awaiting_from_zero h : forall pending,
  awaiting pending h = true -> awaiting 0 h = true.
Proof.
  induction h as [| m h IH]; intros pending; cbn [awaiting]; [reflexivity |].
  destruct m as [? | ? | ? [tcs |] [fc |] | ? ? | ? ?];
    try (intros E; apply andb_prop in E; destruct E as [_ E]; exact E);
    apply IH.
Qed.

(** Dropping the oldest messages leaves every request answered. *)
Lemma awaiting_drop k : forall h pending,
  awaiting pending h = true -> awaiting 0 (drop k h) = true.
Proof.
  induction k as [| k IH]; intros h pending.
  - rewrite drop_0. apply awaiting_from_zero.
  - destruct h as [| m h]; [reflexivity |]. cbn [drop awaiting].
    destruct m as [? | ? | ? [tcs |] [fc |] | ? ? | ? ?];
      try (intros E; apply andb_prop in E; destruct E as [_ E]; revert E);
      apply IH.
Qed.

(** A round that ends the loop has recorded a plain message, or
    nothing. *)
Lemma react_break question range session round l completion s l' s' :
  react question range session round l completion s = (Ok (Break l'), s') ->
  history l' = history l
  \/ exists content, history l' = history l ++ [MAssistant content None None].
Proof.
  unfold react.
  destruct (head (choices completion) ≫= choice_message) as [am |];
    [| intros [= <- _]; left; reflexivity].
  unfold executableToolCallsOf.
  destruct (default [] (am_tool_calls am)) as [| tc tcs] eqn:Etc;
    [destruct (am_function_call am) as [fc |] eqn:Efc |].
  2: intros [= <- _]; right; eexists; reflexivity.
  all: unfold mbind at 1, M_bind at 1; cbn [logAIInteraction modify];
       unfold mbind at 1, M_bind at 1; cbn [logAIInteraction modify];
       unfold mbind at 1, M_bind at 1, lift;
       destruct (shouldAskClarificationBeforeMutation _ _ _) as [[|] | e];
       try (intros E; discriminate E);
       try (intros [= <- _]; right; eexists; reflexivity).
  all: match goal with
       | |- context [runToolCalls ?r ?m ?se ?cs ?l0] =>
         intros E;
         match type of E with (_ ≫= _) ?s0 = _ =>
           destruct (runToolCalls_appends r m se cs l0 s0)
             as (l1 & s1 & results & Er & _)
         end
       end.
  all: erewrite bind_run in E by exact Er; discriminate E.
Qed.

Lemma rounds_answered question range cfg session n :
  forall round l s l' s',
    answered (history l) = true ->
    rounds question range cfg session n round l s = (Ok l', s') ->
    answered (history l') = true.
Proof.
  induction n as [| n IH]; intros round l s l' s' Hl.
  - intros [= <- _]. exact Hl.
  - cbn [rounds]. unfold mbind at 1, M_bind at 1. unfold round_body.
    unfold mbind at 1, M_bind at 1.
    destruct (askModel cfg session round l s) as [[completion | e] s1];
      [| discriminate].
    destruct (react question range session round l completion s1)
      as [[[l1 | l1] | e] s2] eqn:Er; [| | discriminate].
    + apply IH. eapply react_answered; eauto.
    + intros [= <- _].
      destruct (react_break _ _ _ _ _ _ _ _ _ Er) as [-> | (content & ->)];
        [exact Hl | apply awaiting_plain_message, Hl].
Qed.

(** What the detached task leaves in the store is answered, when what it
    found there was. *)
Lemma detached_store_answered question tid session s :
  store_answered s -> store_answered (snd (detached question tid session s)).
Proof.
  intros Hs. unfold detached, try_finally, try_catch.
  pose proof (conversation_store question tid session s) as Hc.
  destruct (conversation question tid session s) as [[[] | e] s1].
  - destruct Hc as (range & cfg & h0 & sa & l & sb & Ep & Er & Hstore & _).
    unfold store_answered. cbn [snd conversationStore set_streams].
    intros k h. rewrite Hstore.
    destruct (decide (tid = k)) as [<- | Hne].
    + rewrite lookup_insert_eq. intros [= <-].
      unfold slice_last. eapply awaiting_drop.
      eapply rounds_answered; [| exact Er]. cbn [history].
      rewrite (prepare_history _ _ _ _ _ _ _ Ep).
      unfold answered. erewrite awaiting_app; [reflexivity |].
      destruct (conversationStore s !! tid) as [h |] eqn:Eh; [| reflexivity].
      exact (Hs _ _ Eh).
    + rewrite lookup_insert_ne by exact Hne. apply Hs.
  - pose proof (same_store_failed e s1) as Hf. unfold same_store in Hf.
    destruct (conversation_failed e s1) as [r s2].
    unfold store_answered. cbn [snd conversationStore set_streams] in *.
    intros k h. rewrite Hf, Hc. apply Hs.
Qed.

End HistoryFacts.

(** X21. What is stored for a thread is what the model is given: every
    request the loop of a request sends to the assistant model carries,
    after the system message, the whole stored history of the thread, in
    order, then the question of the user, then what the rounds before
    have added; nothing of it is dropped or reordered during the
    request. *)
Theorem stored_history_is_replayed `{Builtins} `{Collaborators}
    question threadId s session w :
  getServerSession (world s) = (Ok (Some session), w) ->
  str_truthy (accessToken session) = true ->
  let tid := match threadId with [] => fst (generateId w) | _ => threadId end in
  let stored := default [] (conversationStore s !! tid) in
  exists extra,
    sent (snd (submitMessage question threadId s)) = sent s ++ extra
    /\ forall req,
         In (ChatCreate req) extra -> req_model req = ASSISTANT_MODEL ->
         exists system more,
           req_messages req = MSystem system :: stored ++ MUser question :: more.
Proof.
  intros Hsess Htok. cbn zeta.
  destruct (submitMessage_detached question threadId s session w Hsess Htok)
    as (s1 & answer & w2 & Hstore & Hsent & _ & _ & _ & ->).
  cbn zeta in *. cbn [snd sent set_world].
  set (tid := match threadId with [] => fst (generateId w) | _ => threadId end) in *.
  destruct (asks_with_detached
              (fun h => exists more,
                 h = default [] (conversationStore s !! tid)
                     ++ MUser question :: more)) with
    (question := question) (tid := tid) (session := session) (s := s1)
    as (extra & E & Hall).
  - intros q r se ro l completion s0 l' s' (more & Hl) Er.
    destruct (react_continue _ _ _ _ _ _ _ _ _ Er)
      as (content & toolCalls & functionCall & results & -> & _).
    rewrite Hl. eexists. rewrite <- app_assoc. reflexivity.
  - rewrite Hstore. exists []. reflexivity.
  - exists extra. rewrite E, Hsent. split; [reflexivity |].
    intros req Hin Hm. rewrite Forall_forall in Hall.
    apply list_elem_of_In in Hin.
    destruct (Hall _ Hin req eq_refl Hm) as (system & h & Hreq & more & ->).
    exists system, more. exact Hreq.
Qed.

Lemma stored_history_is_replayed_witness :
  let first := snd (submitMessage (B := Demo.builtins) (C := Demo.collaborators)
                      (js "what is on today?") (js "thread-1")
                      (Demo.boot [Demo.no_range; Demo.says (js "Nothing.");
                                  Demo.no_range; Demo.says (js "Still nothing.")])) in
  exists extra,
    sent (snd (submitMessage (B := Demo.builtins) (C := Demo.collaborators)
                 (js "and tomorrow?") (js "thread-1") first))
    = sent first ++ extra
    /\ forall req,
         In (ChatCreate req) extra -> req_model req = ASSISTANT_MODEL ->
         exists system more,
           req_messages req
           = MSystem system
             :: [MUser (js "what is on today?"); MAssistant (js "Nothing.") None None]
                ++ MUser (js "and tomorrow?") :: more.
Proof.
  intros first.
  destruct (stored_history_is_replayed (H := Demo.builtins) (H0 := Demo.collaborators)
              (js "and tomorrow?") (js "thread-1") first Demo.the_session (world first))
    as (extra & E & Hall); [reflexivity | reflexivity |].
  exists extra. split; [exact E |]. exact Hall.
Defined.

(** X22. Every tool call the model is shown is answered.  When in
    every stored history each request for tools is followed at once by
    one result for each of its calls, then, whatever requests are served
    from there, the same holds of every stored history afterwards and of
    the history carried by every request sent to the assistant model: the
    rounds record a request together with all its results, and cutting
    a history down to its last 30 messages leaves no request without
    them. *)
Theorem tool_calls_stay_answered `{Builtins} `{Collaborators} requests s :
  store_answered s ->
  store_answered (serve requests s)
  /\ exists extra,
       sent (serve requests s) = sent s ++ extra
       /\ forall req,
            In (ChatCreate req) extra -> req_model req = ASSISTANT_MODEL ->
            exists system h,
              req_messages req = MSystem system :: h /\ answered h = true.
Proof.
  intros Hs.
  enough (Hgoal : store_answered (serve requests s)
                  /\ asks_with (fun h => answered h = true) s (serve requests s)).
  { destruct Hgoal as (Hstore & extra & E & Hall). split; [exact Hstore |].
    exists extra. split; [exact E |]. intros req Hin Hm.
    rewrite Forall_forall in Hall. apply list_elem_of_In in Hin.
    exact (Hall _ Hin req eq_refl Hm). }
  revert s Hs. induction requests as [| [question threadId] rest IH]; intros s Hs.
  - split; [exact Hs | apply asks_with_refl].
  - cbn [serve].
    assert (Hone : store_answered (snd (submitMessage question threadId s))
                   /\ asks_with (fun h => answered h = true) s
                        (snd (submitMessage question threadId s))).
    { destruct (getServerSession (world s)) as [r w] eqn:Hsess.
      assert (Hout :
        match r with
        | Ok (Some session) => str_truthy (accessToken session) = false
        | _ => True
        end ->
        store_answered (snd (submitMessage question threadId s))
        /\ asks_with (fun h => answered h = true) s
             (snd (submitMessage question threadId s))).
      { intros Hr.
        destruct (submitMessage_signed_out question threadId s)
          as (answer & s' & E & _ & Hstore & _ & _ & Hsent & _);
          [rewrite Hsess; exact Hr |].
        rewrite E. cbn [snd]. split.
        - intros k h. rewrite Hstore. apply Hs.
        - apply asks_with_quiet, Hsent. }
      destruct r as [[session |] | error];
        [destruct (str_truthy (accessToken session)) eqn:Htok |..]; auto.
      destruct (submitMessage_detached question threadId s session w Hsess Htok)
        as (s1 & answer & w2 & Hstore & Hsent & _ & _ & _ & ->).
      cbn zeta. cbn [snd].
      assert (Hs1 : store_answered s1) by (intros k h; rewrite Hstore; apply Hs).
      split.
      - intros k h. cbn [conversationStore set_world].
        apply (detached_store_answered _ _ _ _ Hs1).
      - destruct (asks_with_detached (fun h => answered h = true)) with
          (question := question)
          (tid := match threadId with [] => fst (generateId w) | _ => threadId end)
          (session := session) (s := s1) as (extra & E & Hall).
        + intros q r se ro l completion s0 l' s'. apply react_answered.
        + unfold answered. erewrite awaiting_app; [reflexivity |].
          destruct (conversationStore s1 !! _) as [h |] eqn:Eh; [| reflexivity].
          exact (Hs1 _ _ Eh).
        + exists extra. cbn [sent set_world]. rewrite E, Hsent. auto. }
    destruct Hone as (Hstore1 & Hask1).
    destruct (IH _ Hstore1) as (Hstore & Hask).
    split; [exact Hstore | eapply asks_with_trans; eauto].
Qed.

Lemma tool_calls_stay_answered_witness :
  let s := Demo.boot
             [Demo.no_range;
              Demo.requests_tools
                [Demo.call (js "delete_event")
                   (Some (Demo.json_text [(js "event_id", js "E123")]))];
              Demo.says (js "Deleted.");
              Demo.no_range; Demo.says (js "Nothing else.")] in
  let s' := serve (B := Demo.builtins) (C := Demo.collaborators)
              [(js "delete the review", js "thread-1");
               (js "anything else?", js "thread-1")] s in
  (length <$> conversationStore s' !! js "thread-1") = Some 6%nat
  /\ store_answered (B := Demo.builtins) (C := Demo.collaborators) s'.
Proof.
  intros s s'. split; [vm_compute; reflexivity |].
  apply (tool_calls_stay_answered (H := Demo.builtins) (H0 := Demo.collaborators)
           [(js "delete the review", js "thread-1");
            (js "anything else?", js "thread-1")] s).
  intros tid h Hh. vm_compute in Hh. discriminate Hh.
Defined.

Example truncation_can_orphan_results :
  let three := Demo.requests_tools
                 [Demo.call (js "get_calendar") None;
                  Demo.call (js "get_calendar") None;
                  Demo.call (js "get_calendar") None] in
  let s' := snd (submitMessage (B := Demo.builtins) (C := Demo.collaborators)
                   (js "what is on today?") (js "thread-1")
                   (Demo.boot [Demo.no_range; three; three; three; three;
                               three; three; three; three])) in
  (length <$> conversationStore s' !! js "thread-1") = Some 30%nat
  /\ (is_result <$> (conversationStore s' !! js "thread-1" ≫= head)) = Some true.
Proof. vm_compute. repeat split; reflexivity. Qed.

(* ===================================================================== *)
(** * The text of the answer *)
(* ===================================================================== *)

Section TextFacts.
Context {B : Builtins} {C : Collaborators}.

Lemma asked_refl s : asked 0 s s.
Proof. exists []. rewrite app_nil_r. split; reflexivity. Qed.

Lemma asked_trans j k s1 s2 s3 :
  asked j s1 s2 -> asked k s2 s3 -> asked (j + k) s1 s3.
Proof.
  intros (e1 & E1 & H1) (e2 & E2 & H2). exists (e1 ++ e2).
  rewrite E2, E1, app_assoc. split; [reflexivity |].
  rewrite List.filter_app, length_app. lia.
Qed.

Lemma asked_zero_trans s1 s2 s3 : asked 0 s1 s2 -> asked 0 s2 s3 -> asked 0 s1 s3.
Proof. apply (asked_trans 0 0). Qed.

Ltac asked_frame :=
  first
    [ exact asked_refl | exact asked_zero_trans
    | intros; hnf; try intros ?; cbn;
      first [ exists []; rewrite app_nil_r; split; reflexivity
            | eexists [_]; split; [reflexivity |]; cbn;
              match goal with
              | Ho : is_assistant_request ?o = false |- _ => rewrite Ho; reflexivity
              end ] ].

Ltac text_frame :=
  intros; hnf; try intros ?; cbn; first [reflexivity | hnf in *; congruence].

Lemma silent_refl s : silent s s.
Proof. split; [reflexivity | apply asked_refl]. Qed.

Lemma silent_trans s1 s2 s3 : silent s1 s2 -> silent s2 s3 -> silent s1 s3.
Proof.
  intros [T1 A1] [T2 A2]. split; [hnf in *; congruence | eapply asked_zero_trans; eauto].
Qed.

Ltac silent_frame :=
  first [ exact silent_refl | exact silent_trans
        | intros; hnf; try intros ?; split; [text_frame | asked_frame] ].

Lemma silent_prepare question tid : keeps silent (prepare question tid).
Proof. apply keeps_prepare; silent_frame. Qed.

Lemma silent_runToolCalls round modern session calls l :
  keeps silent (runToolCalls round modern session calls l).
Proof. apply keeps_runToolCalls; silent_frame. Qed.

Lemma askModel_asks cfg session round l s :
  same_text s (snd (askModel cfg session round l s))
  /\ asked 1 s (snd (askModel cfg session round l s)).
Proof.
  unfold askModel, mbind, M_bind, now, request. cbn.
  destruct (Date_now (world s)) as [t w]. cbn.
  destruct (chat_completions_create _ w) as [r w'].
  split; [destruct r; reflexivity |].
  eexists [_]. split; [destruct r; reflexivity | reflexivity].
Qed.

(** What a round says: one text when it ends the loop, none when the
    loop goes on or the round throws; and it asks the model nothing. *)
Lemma react_says question range session round l completion s r s' :
  react question range session round l completion s = (r, s') ->
  asked 0 s s'
  /\ match r with
     | Ok (Break _) =>
       exists text, emitted (textStream (streams s'))
                    = emitted (textStream (streams s)) ++ [text]
     | _ => same_text s s'
     end.
Proof.
  intros E. split.
  { pose proof (keeps_react (asked 0)) as H.
    specialize (H asked_refl asked_zero_trans).
    specialize (H ltac:(asked_frame) ltac:(asked_frame) ltac:(asked_frame)
                  ltac:(asked_frame) ltac:(asked_frame) ltac:(asked_frame)
                  ltac:(asked_frame)).
    specialize (H question range session round l completion s).
    rewrite E in H. exact H. }
  revert E. unfold react.
  destruct (head (choices completion) ≫= choice_message) as [am |];
    [| cbn; intros [= <- <-]; eexists; reflexivity].
  unfold executableToolCallsOf.
  destruct (default [] (am_tool_calls am)) as [| tc tcs] eqn:Etc;
    [destruct (am_function_call am) as [fc |] eqn:Efc |].
  2: cbn; intros [= <- <-]; eexists; reflexivity.
  all: unfold mbind at 1, M_bind at 1; cbn [logAIInteraction modify];
       unfold mbind at 1, M_bind at 1; cbn [logAIInteraction modify];
       unfold mbind at 1, M_bind at 1, lift;
       destruct (shouldAskClarificationBeforeMutation _ _ _) as [[|] | e];
       try (cbn; intros [= <- <-]; first [eexists; reflexivity | reflexivity]).
  all: match goal with
       | |- context [runToolCalls ?r ?m ?se ?cs ?l0] =>
         match goal with |- (_ ≫= _) ?s0 = _ -> _ =>
           pose proof (silent_runToolCalls r m se cs l0 s0) as [Hsil _];
           destruct (runToolCalls_appends r m se cs l0 s0)
             as (l1 & s1 & results & Er & _)
         end
       end.
  all: rewrite Er in Hsil; erewrite bind_run by exact Er; cbn [fst snd mret M_ret];
       intros [= <- <-]; exact Hsil.
Qed.

(** What the loop says: at most one text, none when it throws, and none
    when it comes to its end only after asking the model in every
    round. *)
Lemma rounds_says question range cfg session n :
  forall round l s r s',
    rounds question range cfg session n round l s = (r, s') ->
    exists extra,
      emitted (textStream (streams s')) = emitted (textStream (streams s)) ++ extra
      /\ (length extra <= 1)%nat
      /\ (forall e, r = Throw e -> extra = [])
      /\ (forall l', r = Ok l' -> extra = [] -> asked n s s').
Proof.
  induction n as [| n IH]; intros round l s r s'.
  - intros [= <- <-]. exists []. rewrite app_nil_r.
    repeat split; auto. intros. apply asked_refl.
  - cbn [rounds]. unfold mbind at 1, M_bind at 1. unfold round_body.
    unfold mbind at 1, M_bind at 1.
    destruct (askModel_asks cfg session round l s) as (Ht1 & Ha1).
    destruct (askModel cfg session round l s) as [[completion | e] s1];
      cbn [snd] in Ht1, Ha1.
    2:{ intros [= <- <-]. exists []. rewrite app_nil_r.
        repeat split; auto. discriminate. }
    destruct (react question range session round l completion s1) as [rr s2] eqn:Er.
    destruct (react_says _ _ _ _ _ _ _ _ _ Er) as (Ha2 & Ht2).
    destruct rr as [[l1 | l1] | e].
    + intros E. destruct (IH _ _ _ _ _ E) as (extra & He & Hlen & Hthrow & Hok).
      exists extra. hnf in Ht1, Ht2. rewrite He, Ht2, Ht1.
      repeat split; auto. intros l' Hr Hnil.
      change (S n) with (1 + 0 + n)%nat.
      eapply asked_trans; [eapply asked_trans; eassumption | eauto].
    + intros [= <- <-]. destruct Ht2 as (text & Ht2). exists [text].
      hnf in Ht1. rewrite Ht2, Ht1. repeat split; auto; discriminate.
    + intros [= <- <-]. exists []. hnf in Ht1, Ht2. rewrite app_nil_r, Ht2, Ht1.
      repeat split; auto. discriminate.
Qed.

Lemma detached_says question tid session s :
  exists extra,
    emitted (textStream (streams (snd (detached question tid session s))))
    = emitted (textStream (streams s)) ++ extra
    /\ (length extra <= 1)%nat
    /\ (extra = [] ->
        asked MAX_TOOL_ROUNDS s (snd (detached question tid session s))).
Proof.
  assert (Hfail : forall e s0 r s1,
    same_text s s0 -> conversation_failed e s0 = (r, s1) ->
    exists extra,
      emitted (textStream (streams s1)) = emitted (textStream (streams s)) ++ extra
      /\ (length extra <= 1)%nat
      /\ (extra = [] -> asked MAX_TOOL_ROUNDS s s1)).
  { intros e s0 r s1 Ht. hnf in Ht.
    unfold conversation_failed, mbind, M_bind, status_update, textStream_append,
      logAIInteraction, on_streams, modify.
    cbn. intros [= <- <-]. eexists [_]. cbn. rewrite Ht.
    split; [reflexivity |]. split; [lia | discriminate]. }
  assert (H : forall r s1,
    try_catch (conversation question tid session) conversation_failed s = (r, s1) ->
    exists extra,
      emitted (textStream (streams s1)) = emitted (textStream (streams s)) ++ extra
      /\ (length extra <= 1)%nat
      /\ (extra = [] -> asked MAX_TOOL_ROUNDS s s1)).
  { intros r s1. unfold try_catch, conversation. unfold mbind at 1, M_bind at 1.
    pose proof (silent_prepare question tid s) as Hprep.
    destruct (prepare question tid s) as [[[[range cfg] h0] | e] sa];
      cbn [snd] in Hprep; [| apply Hfail, Hprep].
    unfold mbind at 1, M_bind at 1.
    destruct (rounds question range cfg session MAX_TOOL_ROUNDS 0
                {| history := h0; refetchJobs := 0 |} sa) as [rr sb] eqn:Er.
    destruct (rounds_says _ _ _ _ _ _ _ _ _ _ Er) as (extra & He & Hlen & Hthrow & Hok).
    destruct Hprep as (Htp & Hap). hnf in Htp.
    destruct rr as [l | e].
    - cbn. intros [= <- <-]. exists extra. cbn. rewrite He, Htp. repeat split; auto.
      intros Hnil. change MAX_TOOL_ROUNDS with (0 + MAX_TOOL_ROUNDS + 0)%nat.
      eapply asked_trans; [eapply asked_trans; [exact Hap | eauto] |].
      exists []. rewrite app_nil_r. split; reflexivity.
    - apply Hfail. rewrite (Hthrow e eq_refl), app_nil_r in He.
      hnf. congruence. }
  unfold detached, try_finally.
  destruct (try_catch _ _ s) as [r s1]. cbn [snd].
  destruct (H r s1 eq_refl) as (extra & He & Hlen & Hask). exists extra.
  split; [exact He |]. split; [exact Hlen |].
  intros Hnil. destruct (Hask Hnil) as (sentNow & Hs & Hn).
  exists sentNow. split; [exact Hs | exact Hn].
Qed.

End TextFacts.

(** X23. A request with a session says at most one thing: besides its
    initial empty value, the text stream receives at most one text, and
    it receives none only when the loop used all its rounds, eight
    requests having been sent to the assistant model. *)
Theorem request_says_at_most_one_text `{Builtins} `{Collaborators}
    question threadId s session w :
  getServerSession (world s) = (Ok (Some session), w) ->
  str_truthy (accessToken session) = true ->
  let s' := snd (submitMessage question threadId s) in
  exists texts,
    emitted (textStream (streams s')) = [] :: texts
    /\ (length texts <= 1)%nat
    /\ (texts = [] ->
        exists extra,
          sent s' = sent s ++ extra
          /\ length (List.filter is_assistant_request extra) = MAX_TOOL_ROUNDS).
Proof.
  intros Hsess Htok. cbn zeta.
  destruct (submitMessage_detached question threadId s session w Hsess Htok)
    as (s1 & answer & w2 & _ & Hsent & _ & _ & Hstreams & ->).
  cbn [snd streams sent set_world].
  destruct (detached_says question
              (match threadId with [] => fst (generateId w) | _ => threadId end)
              session s1) as (texts & He & Hlen & Hask).
  exists texts. rewrite He, Hstreams. split; [reflexivity |].
  split; [exact Hlen |]. intros Hnil.
  destruct (Hask Hnil) as (extra & Hs & Hn). exists extra.
  rewrite Hs, Hsent. split; [reflexivity | exact Hn].
Qed.

Lemma request_says_at_most_one_text_witness :
  let calls := Demo.requests_tools [Demo.call (js "get_calendar") None] in
  emitted (textStream (streams
    (snd (submitMessage (B := Demo.builtins) (C := Demo.collaborators)
            (js "what is on today?") (js "thread-1")
            (Demo.boot [Demo.no_range; calls; Demo.says (js "Nothing.")])))))
  = [[]; js "Nothing."]
  /\ exists texts,
       emitted (textStream (streams
         (snd (submitMessage (B := Demo.builtins) (C := Demo.collaborators)
                 (js "what is on today?") (js "thread-1")
                 (Demo.boot [Demo.no_range; calls; calls; calls; calls; calls;
                             calls; calls; calls; Demo.says (js "Nothing.")])))))
       = [] :: texts
       /\ (length texts <= 1)%nat.
Proof.
  intros calls. split; [vm_compute; reflexivity |].
  destruct (request_says_at_most_one_text (H := Demo.builtins) (H0 := Demo.collaborators)
              (js "what is on today?") (js "thread-1")
              (Demo.boot [Demo.no_range; calls; calls; calls; calls; calls;
                          calls; calls; calls; Demo.says (js "Nothing.")])
              Demo.the_session
              {| Demo.script := [Demo.no_range; calls; calls; calls; calls; calls;
                                 calls; calls; calls; Demo.says (js "Nothing.")];
                 Demo.ticks := 0 |} eq_refl eq_refl)
    as (texts & E & Hlen & _).
  exists texts. split; [exact E | exact Hlen].
Defined.

Example budget_exhausted_says_nothing :
  let calls := Demo.requests_tools [Demo.call (js "get_calendar") None] in
  emitted (textStream (streams
    (snd (submitMessage (B := Demo.builtins) (C := Demo.collaborators)
            (js "what is on today?") (js "thread-1")
            (Demo.boot [Demo.no_range; calls; calls; calls; calls; calls;
                        calls; calls; calls; Demo.says (js "Nothing.")])))))
  = [[]].
Proof. vm_compute. reflexivity. Qed.

(* ===================================================================== *)
(** * When the gate defers *)
(* ===================================================================== *)

Section DeferralFacts.
Context {B : Builtins}.

(** A call the callback of the gate finds insufficient is a mutating call
    with a readable payload in which a required field is missing or
    falsy. *)
Lemma sufficientArgs_false call :
  sufficientArgs call = Ok false ->
  isMutating call = true /\ argsReadable call = true /\ argsComplete call = false.
Proof.
  intros E. destruct (isMutating call) eqn:Em.
  2:{ rewrite sufficientArgs_not_mutating in E by exact Em. discriminate E. }
  split; [reflexivity |].
  destruct (argsReadable call) eqn:Er.
  - rewrite sufficientArgs_readable in E by exact Er. injection E as E. auto.
  - exfalso. revert E Em Er.
    unfold sufficientArgs, isMutating, includes, mutationTools, argsReadable.
    cbn [existsb].
    destruct (parseArgs _); try discriminate;
      destruct (str_eqb _ (js "schedule_event"));
      try discriminate;
      destruct (str_eqb _ (js "edit_event")); try discriminate;
      destruct (str_eqb _ (js "delete_event")); discriminate.
Qed.

Lemma every_false {A} (f : A -> Res bool) l :
  every f l = Ok false -> exists x, In x l /\ f x = Ok false.
Proof.
  induction l as [| x l IH]; simpl; [discriminate |].
  unfold mbind, Res_bind. destruct (f x) as [[|] | e] eqn:E; try discriminate.
  - intros H. destruct (IH H) as (y & Hy & Hf). eauto.
  - intros _. eauto.
Qed.

End DeferralFacts.

(** X24. The gate defers for two reasons only.  When it answers that a
    clarification is needed, the calls contain a mutating one, and either
    the question matches a no-action phrase, or some mutating call lacks
    a truthy value for a required field while the question expresses
    scheduling intent and either is vague about the time or came with no
    extracted range.  So a question without scheduling words and without
    a no-action phrase is never deferred, however incomplete the
    arguments of the calls. *)
Theorem deferral_needs_a_reason `{Builtins} question extractedRange calls :
  shouldAskClarificationBeforeMutation question extractedRange calls = Ok true ->
  Exists (fun c => isMutating c = true) calls
  /\ (some_test noActionPatterns question = true
      \/ (Exists (fun c => isMutating c = true /\ argsComplete c = false) calls
          /\ some_test schedulingIntentPatterns question = true
          /\ (some_test ambiguousPatterns question = true \/ extractedRange = None))).
Proof.
  unfold shouldAskClarificationBeforeMutation. rewrite hasMutationTool_spec.
  destruct (existsb isMutating calls) eqn:Em; cbn [negb]; [| discriminate].
  intros E. split.
  { apply existsb_exists in Em as (c & Hin & Hc).
    apply List.Exists_exists. eauto. }
  destruct (some_test noActionPatterns question); [left; reflexivity |].
  right. unfold mbind, Res_bind in E.
  destruct (every sufficientArgs calls) as [[|] | e] eqn:Ev; try discriminate E.
  apply every_false in Ev as (c & Hin & Hc).
  apply sufficientArgs_false in Hc as (Hm & _ & Hi).
  injection E as E. apply andb_prop in E as [Hintent Hwhen].
  split; [apply List.Exists_exists; eauto |]. split; [exact Hintent |].
  apply orb_prop in Hwhen as [Ha | Hr]; [left; exact Ha | right].
  destruct extractedRange; [discriminate Hr | reflexivity].
Qed.

Lemma deferral_needs_a_reason_witness :
  Exists (fun c => isMutating c = true)
    [Demo.call (js "schedule_event")
       (Some (Demo.json_text [(js "start_time", js "2025-06-01T00:00:00.000Z");
                              (js "end_time", js "2025-06-08T00:00:00.000Z")]))]
  /\ shouldAskClarificationBeforeMutation (B := Demo.builtins)
       (js "remove my dentist appointment") None
       [Demo.call (js "delete_event") (Some (Demo.json_text []))]
     = Ok false.
Proof.
  split.
  - apply (deferral_needs_a_reason (H := Demo.builtins)
             (js "schedule the review sometime soon") None _).
    vm_compute. reflexivity.
  - vm_compute. reflexivity.
Defined.

Example incomplete_delete_is_dispatched :
  let call := Demo.call (js "delete_event") (Some (Demo.json_text [])) in
  shouldAskClarificationBeforeMutation (B := Demo.builtins)
    (js "remove my dentist appointment") None [call] = Ok false
  /\ sent (snd (executeCalendarTool (B := Demo.builtins) (C := Demo.collaborators)
                  call JUndefined (Demo.boot [])))
     = [EventsDelete (js "primary") JUndefined].
Proof. vm_compute. split; reflexivity. Qed.

(* ===================================================================== *)
(** * The extracted range *)
(* ===================================================================== *)

Section RangeFacts.
Context {B : Builtins} {C : Collaborators}.

Lemma only_logged_validateRange content : keeps only_logged (validateRange content).
Proof.
  apply keeps_validateRange.
  - intros s. repeat split.
  - intros s1 s2 s3 (A1 & A2 & A3 & A4) (B1 & B2 & B3 & B4).
    repeat split; congruence.
  - intros e s _. repeat split.
Qed.

(** The extractor from the outside: one request, a result, and nothing
    else but entries in the log. *)
Lemma extract_run question s :
  exists r s',
    extractTimeRangeFromQuestion question s = (Ok r, s')
    /\ sent s'
       = sent s ++ [ChatCreate
                      (rangeRequest (toISOString (fst (Date_now (world s)))) question)]
    /\ streams s' = streams s
    /\ conversationStore s' = conversationStore s
    /\ assistantConfigPromise s' = assistantConfigPromise s
    /\ (forall range, r = Some range ->
        exists t0 t1, t0 < t1
          /\ range = {| range_start := toISOString t0; range_end := toISOString t1 |}).
Proof.
  unfold extractTimeRangeFromQuestion.
  unfold mbind at 1, M_bind at 1, now.
  destruct (Date_now (world s)) as [t w1]. cbn [fst snd].
  unfold mbind at 1, M_bind at 1. cbn [logAIInteraction modify].
  unfold mbind at 1, M_bind at 1, try_catch at 1.
  unfold mbind at 1, M_bind at 1, request.
  cbn [world set_world set_console sent].
  destruct (chat_completions_create _ w1) as [[response | e] w2]; cbn [fst].
  2:{ cbn. eexists; eexists. split; [reflexivity |]. repeat split. discriminate. }
  cbn [mret M_ret].
  destruct (first_content response) as [[| c0 content] |] eqn:Ec;
    try (eexists; eexists; split; [reflexivity |]; repeat split; discriminate).
  unfold try_catch.
  match goal with |- context [validateRange ?c ?s0] =>
    pose proof (only_logged_validateRange c s0) as (H1 & H2 & H3 & H4);
    destruct (validateRange c s0) as [[[range |] | e] s1] eqn:Ev
  end; cbn [snd] in H1, H2, H3, H4.
  - eexists; eexists. split; [reflexivity |].
    rewrite H1, H2, H3, H4. repeat split.
    intros range' [= <-].
    destruct (validateRange_sound _ _ _ _ Ev)
      as (parsed & start & end_ & t0 & t1 & _ & _ & _ & _ & _ & _ & _ & Hlt & ->).
    exists t0, t1. auto.
  - eexists; eexists. split; [reflexivity |].
    rewrite H1, H2, H3, H4. repeat split. discriminate.
  - unfold mbind, M_bind. cbn [logAIInteraction modify mret M_ret].
    eexists; eexists. split; [reflexivity |].
    cbn [sent streams conversationStore assistantConfigPromise set_console].
    rewrite H1, H2, H3, H4. repeat split. discriminate.
Qed.

Lemma same_range_refl s : same_range s s.
Proof. reflexivity. Qed.

Lemma same_range_trans s1 s2 s3 : same_range s1 s2 -> same_range s2 s3 -> same_range s1 s3.
Proof. unfold same_range. congruence. Qed.

Ltac range_frame :=
  first [ exact same_range_refl | exact same_range_trans
        | intros; hnf; try intros ?; cbn; reflexivity ].

Lemma same_range_rounds question range cfg session n round l :
  keeps same_range (rounds question range cfg session n round l).
Proof. apply keeps_rounds; range_frame. Qed.

Lemma same_range_failed error : keeps same_range (conversation_failed error).
Proof. apply keeps_conversation_failed; range_frame. Qed.

Lemma bind_bind_run {X Y Z} (m : M X) (f : X -> M Y) (g : Y -> M Z) s a s1 :
  m s = (Ok a, s1) -> ((m ≫= f) ≫= g) s = (f a ≫= g) s1.
Proof. intros E. unfold mbind, M_bind. rewrite E. reflexivity. Qed.

(** What the detached task tells the client about the range: the result
    of the extractor, once. *)
Lemma detached_range question tid session s :
  exists range,
    emitted (refetchRangeStream (streams (snd (detached question tid session s))))
    = emitted (refetchRangeStream (streams s)) ++ [range]
    /\ (forall r, range = Some r ->
        exists t0 t1, t0 < t1
          /\ r = {| range_start := toISOString t0; range_end := toISOString t1 |}).
Proof.
  unfold detached, try_finally, try_catch.
  remember (conversation question tid session s) as res eqn:Hc.
  unfold conversation, prepare in Hc.
  erewrite bind_bind_run in Hc by reflexivity.
  erewrite bind_bind_run in Hc by reflexivity.
  match type of Hc with context [(extractTimeRangeFromQuestion question ≫= _)] =>
    match type of Hc with _ = _ ?s0 =>
      destruct (extract_run question s0) as (r & sE & E & _ & Hst & _ & _ & Hvalid)
    end
  end.
  erewrite bind_bind_run in Hc by exact E.
  erewrite bind_bind_run in Hc by reflexivity.
  match type of Hc with _ = ?m ?s0 =>
    assert (Hk : keeps same_range m);
      [| pose proof (Hk s0) as Hrest; set (sU := s0) in *;
         assert (HU : emitted (refetchRangeStream (streams sU))
                      = emitted (refetchRangeStream (streams s)) ++ [r])
           by (subst sU; cbn; rewrite Hst; reflexivity) ]
  end.
  { apply keeps_bind; [exact same_range_trans | |].
    - apply keeps_bind; [exact same_range_trans | apply keeps_log; range_frame |].
      intros _. apply keeps_bind; [exact same_range_trans | |].
      + apply keeps_loadAssistantConfig; range_frame.
      + intros cfg. apply keeps_bind;
          [exact same_range_trans | apply keeps_log; range_frame |].
        intros _. apply keeps_bind;
          [exact same_range_trans | apply keeps_store_get; range_frame |].
        intros stored. apply keeps_ret. exact same_range_refl.
    - intros [[range cfg] h0]. apply keeps_bind; [exact same_range_trans | |].
      + apply same_range_rounds.
      + intros l. intros s0. reflexivity. }
  exists r. split; [| exact Hvalid].
  rewrite <- Hc in Hrest. hnf in Hrest.
  destruct res as [[[] | e] s1]; cbn [snd] in *.
  - cbn. rewrite Hrest. exact HU.
  - pose proof (same_range_failed e s1) as Hf. hnf in Hf.
    destruct (conversation_failed e s1) as [rf s2]. cbn in *.
    rewrite Hf, Hrest. exact HU.
Qed.

End RangeFacts.

(** X25. The range extractor asks once and touches nothing: whatever
    the answer, it returns after exactly one request, sent to the range
    model in JSON mode with the time-out set and no retry, whose two
    messages are the instruction and the question with the current time;
    the streams, the thread store and the cached configuration are left
    as they were. *)
Theorem extract_asks_once `{Builtins} `{Collaborators} question s :
  exists r s',
    extractTimeRangeFromQuestion question s = (Ok r, s')
    /\ sent s'
       = sent s
         ++ [ChatCreate
               {| req_model := TIME_RANGE_MODEL;
                  req_json_object := true;
                  req_tools := None;
                  req_messages :=
                    [ MSystem extractionInstruction;
                      MUser (js "Now: " ++ toISOString (fst (Date_now (world s)))
                             ++ [10] ++ js "User text: " ++ question) ];
                  req_fail_fast := true |}]
    /\ streams s' = streams s
    /\ conversationStore s' = conversationStore s
    /\ assistantConfigPromise s' = assistantConfigPromise s.
Proof.
  destruct (extract_run question s) as (r & s' & E & Hs & Hst & Hc & Hp & _).
  exists r, s'. auto.
Qed.

(** X26. The client is told the extracted range once: a request with a
    session puts exactly one value on the range stream after its initial
    null, and that value is null or a range of two ISO timestamps whose
    end is after its start; this holds whether the rest of the request
    succeeds or fails. *)
Theorem range_is_announced_once `{Builtins} `{Collaborators}
    question threadId s session w :
  getServerSession (world s) = (Ok (Some session), w) ->
  str_truthy (accessToken session) = true ->
  exists range,
    emitted (refetchRangeStream (streams (snd (submitMessage question threadId s))))
    = [None; range]
    /\ (forall r, range = Some r ->
        exists t0 t1, t0 < t1
          /\ r = {| range_start := toISOString t0; range_end := toISOString t1 |}).
Proof.
  intros Hsess Htok.
  destruct (submitMessage_detached question threadId s session w Hsess Htok)
    as (s1 & answer & w2 & _ & _ & _ & _ & Hstreams & ->).
  cbn [snd streams set_world].
  destruct (detached_range question
              (match threadId with [] => fst (generateId w) | _ => threadId end)
              session s1) as (range & He & Hvalid).
  exists range. rewrite He, Hstreams. split; [reflexivity | exact Hvalid].
Qed.

Lemma range_is_announced_once_witness :
  emitted (refetchRangeStream (streams
    (snd (submitMessage (B := Demo.builtins) (C := Demo.collaborators)
            (js "what is on next week?") (js "thread-1")
            (Demo.boot
               [Demo.says (Demo.json_text
                             [(js "start", js "2025-06-01T00:00:00.000Z");
                              (js "end", js "2025-06-08T00:00:00.000Z")])])))))
  = [None; Some {| range_start := js "2025-06-01T00:00:00.000Z";
                   range_end := js "2025-06-08T00:00:00.000Z" |}].
Proof.
  destruct (range_is_announced_once (H := Demo.builtins) (H0 := Demo.collaborators)
              (js "what is on next week?") (js "thread-1")
              (Demo.boot
                 [Demo.says (Demo.json_text
                               [(js "start", js "2025-06-01T00:00:00.000Z");
                                (js "end", js "2025-06-08T00:00:00.000Z")])])
              Demo.the_session
              {| Demo.script :=
                   [Demo.says (Demo.json_text
                                 [(js "start", js "2025-06-01T00:00:00.000Z");
                                  (js "end", js "2025-06-08T00:00:00.000Z")])];
                 Demo.ticks := 0 |} eq_refl eq_refl)
    as (range & E & _).
  rewrite E. f_equal. f_equal.
  assert (E' := f_equal (fun l => l !! 1%nat) E). vm_compute in E'.
  injection E' as <-. reflexivity.
Defined.

(* ===================================================================== *)
(** * What a dispatch shows and records *)
(* ===================================================================== *)

Section ProgressFacts.
Context {B : Builtins} {C : Collaborators}.

Ltac atomic x :=
  lazymatch x with
  | context [match _ with _ => _ end] => fail
  | _ => idtac
  end.

Ltac run_step :=
  match goal with
  | |- context [match ?x with _ => _ end] =>
    atomic x;
    match type of x with
    | Res _ => destruct x eqn:?
    | (Res _ * _)%type => destruct x as [[? | ?] ?] eqn:?
    | (_ * _)%type => destruct x eqn:?
    | bool => destruct x eqn:?
    | option _ => destruct x eqn:?
    end
  end.

(** What the [try] block of the dispatcher shows: the outcome, once, when
    it returns, and nothing when it throws. *)
Lemma executeCalendarTool_try_gui name args userEmail s r s' :
  executeCalendarTool_try name args userEmail s = (r, s') ->
  match r with
  | Ok res =>
    exists node,
      emitted (gui (streams s')) = emitted (gui (streams s)) ++ [GuiUpdate node]
      /\ match node with
         | GuiFailed _ | GuiProgress _ => False
         | GuiUnsupported unknown =>
           unknown = name /\ output res = OutError (js "Unsupported tool: " ++ name)
         | _ => forall detail, output res <> OutError detail
         end
  | Throw _ => emitted (gui (streams s')) = emitted (gui (streams s))
  end.
Proof.
  unfold executeCalendarTool_try.
  destruct (str_eqb name (js "get_calendar")) eqn:E1;
  [| destruct (str_eqb name (js "schedule_event")) eqn:E2;
  [| destruct (str_eqb name (js "edit_event")) eqn:E3;
  [| destruct (str_eqb name (js "delete_event")) eqn:E4]]].
  all: unfold resolvePrimaryCalendarTimeZone, date_iso.
  all: unfold try_catch, mbind, M_bind, Res_bind, mret, M_ret,
         lift, request, gui_emit, on_streams, modify.
  all: repeat run_step.
  all: intros [= <- <-].
  all: cbn [fst snd streams gui emitted emit set_world set_sent set_streams output].
  all: try reflexivity.
  all: eexists; (split; [reflexivity |]); cbn; first [discriminate | auto].
Qed.

(** The message that records a result: under the id of the call when it
    has one. *)
Lemma message_id (modern : bool) toolCall (o : ToolOutput) s :
  exists id s',
    ((if modern
      then id ← (match tc_id toolCall with
                 | Some ((_ :: _) as i) => mret i
                 | _ => fresh_id
                 end : M jsstring);
           mret (MTool id o)
      else mret (MFunction (fn_name (tc_function toolCall)) o)) : M Message) s
    = (Ok (if modern then MTool id o
           else MFunction (fn_name (tc_function toolCall)) o), s')
    /\ (forall i, tc_id toolCall = Some i -> i <> [] -> id = i)
    /\ (match tc_id toolCall with
        | Some (_ :: _) => True
        | _ => modern = true -> id = fst (generateId (world s))
        end).
Proof.
  destruct modern.
  2:{ destruct (tc_id toolCall) as [[| c0 i] |].
      - exists [], s. repeat split; intros; congruence.
      - exists (c0 :: i), s. repeat split. intros i' [= <-] _. reflexivity.
      - exists [], s. repeat split; intros; congruence. }
  destruct (tc_id toolCall) as [[| c0 i] |].
  2:{ exists (c0 :: i), s. repeat split. intros i' [= <-] _. reflexivity. }
  all: destruct (generateId (world s)) as [i w] eqn:Eg.
  all: exists i, (set_world w s).
  all: unfold mbind, M_bind, fresh_id; rewrite Eg; repeat split;
       intros; congruence.
Qed.

(** One tool call of a round, and the message it leaves in the history. *)
Lemma runToolCall_records round (modern : bool) session toolCall l s :
  exists l' s' id out,
    runToolCall round modern session toolCall l s = (Ok l', s')
    /\ history l'
       = history l ++ [if modern then MTool id out
                       else MFunction (fn_name (tc_function toolCall)) out]
    /\ (forall i, tc_id toolCall = Some i -> i <> [] -> id = i)
    /\ out = output (match fst (executeCalendarTool toolCall
                                  (optional_string (user_email session))
                                  (set_console
                                     (console s
                                      ++ [LogToolCallStart (round + 1)
                                            (fn_name (tc_function toolCall))]) s)) with
                     | Ok r => r
                     | Throw _ => {| output := OutError []; didMutate := false |}
                     end).
Proof.
  destruct (executeCalendarTool_result toolCall (optional_string (user_email session))
              (set_console (console s ++ [LogToolCallStart (round + 1)
                                            (fn_name (tc_function toolCall))]) s))
    as (r & s1 & Er & _).
  set (s_c := set_console
                (console s1 ++ [LogToolCallResult (round + 1)
                                  (fn_name (tc_function toolCall)) (didMutate r)
                                  (outputError_of (output r))]) s1).
  set (s_d := if didMutate r
              then snd (refetchJobsStream_update (refetchJobs l + 1) s_c)
              else s_c).
  destruct (message_id modern toolCall (output r) s_d) as (id & s2 & Em & Hid & _).
  eexists _, s2, id, (output r). split; [| split; [| split]].
  - unfold runToolCall. cbv zeta.
    erewrite bind_run by reflexivity.
    erewrite bind_run by exact Er.
    erewrite bind_run by reflexivity.
    fold s_c.
    rewrite (bind_run _ _ s_c (if didMutate r then refetchJobs l + 1 else refetchJobs l) s_d)
      by (subst s_d; destruct (didMutate r); reflexivity).
    rewrite (bind_run _ _ s_d _ s2 Em). reflexivity.
  - reflexivity.
  - exact Hid.
  - rewrite Er. reflexivity.
Qed.

End ProgressFacts.

(** X27. The results of a round are recorded in the order of its calls,
    one message each, after what the history held: in the modern form a
    tool message, under the id of the call when it has one that is not
    empty; in the legacy form a function message under the name of the
    function. *)
Theorem tool_results_follow_the_calls `{Builtins} `{Collaborators}
    round modern session calls l s :
  exists l' s' results,
    runToolCalls round modern session calls l s = (Ok l', s')
    /\ history l' = history l ++ results
    /\ Forall2 (fun call message =>
                  if modern : bool
                  then exists id out,
                         message = MTool id out
                         /\ (forall i, tc_id call = Some i -> i <> [] -> id = i)
                  else exists out,
                         message = MFunction (fn_name (tc_function call)) out)
               calls results.
Proof.
  revert l s. induction calls as [| c calls IH]; intros l s.
  - exists l, s, []. rewrite app_nil_r. repeat split. constructor.
  - destruct (runToolCall_records round modern session c l s)
      as (l1 & s1 & id & out & E1 & Hh1 & Hid & _).
    destruct (IH l1 s1) as (l' & s' & results & E & Hh & Hall).
    eexists l', s', (_ :: results). split; [| split].
    + cbn [runToolCalls]. erewrite bind_run by exact E1. exact E.
    + rewrite Hh, Hh1, <- app_assoc. reflexivity.
    + constructor; [| exact Hall]. destruct modern; eauto.
Qed.

Example tool_results_follow_the_calls_example :
  let calls :=
    [ {| tc_id := Some (js "call_a");
         tc_function := {| fn_name := js "get_calendar"; fn_arguments := None |} |};
      {| tc_id := None;
         tc_function := {| fn_name := js "send_email"; fn_arguments := None |} |} ] in
  fst (runToolCalls (B := Demo.builtins) (C := Demo.collaborators)
         0 true Demo.the_session calls
         {| history := []; refetchJobs := 0 |} (Demo.boot []))
  = Ok {| history :=
            [ MTool (js "call_a") (OutError (js "Invalid time value"));
              MTool (js "id-0") (OutError (js "Unsupported tool: send_email")) ];
          refetchJobs := 0 |}.
Proof. vm_compute. reflexivity. Qed.

(** X28. The progress shown for a tool call is always resolved: a
    dispatch appends one progress line and replaces it exactly once, by
    the outcome of the tool when the output is data, by the failure with
    its detail when the tool failed, and by the notice of an unsupported
    tool when the name is unknown.  The line is named after the tool: it
    shows the text of each of the four tools and "Process" for another
    name, unless that name is a key every object inherits, for which the
    lookup finds the inherited member instead of a text. *)
Theorem tool_progress_is_always_resolved `{Builtins} `{Collaborators}
    toolCall userEmail s :
  let name := fn_name (tc_function toolCall) in
  exists r s' verb node,
    executeCalendarTool toolCall userEmail s = (Ok r, s')
    /\ emitted (gui (streams s'))
       = emitted (gui (streams s))
         ++ [GuiAppend (GuiProgress verb); GuiUpdate node]
    /\ (name = js "get_calendar" -> verb = VerbText (js "Consult"))
    /\ (name = js "schedule_event" -> verb = VerbText (js "Schedul"))
    /\ (name = js "edit_event" -> verb = VerbText (js "Edit"))
    /\ (name = js "delete_event" -> verb = VerbText (js "Delet"))
    /\ (includes knownTools name = false ->
        verb = if includes objectPrototypeKeys name
               then VerbInherited name else VerbText (js "Process"))
    /\ match node with
       | GuiProgress _ => False
       | GuiFailed detail =>
         exists d, detail = Some d /\ output r = OutError d /\ d <> []
       | GuiUnsupported unknown =>
         unknown = name /\ output r = OutError (js "Unsupported tool: " ++ name)
       | _ => forall detail, output r <> OutError detail
       end.
Proof.
  cbn zeta.
  assert (Hverb :
    let name := fn_name (tc_function toolCall) in
    let verb := default (VerbText (js "Process")) (actionTranslated name) in
    (name = js "get_calendar" -> verb = VerbText (js "Consult"))
    /\ (name = js "schedule_event" -> verb = VerbText (js "Schedul"))
    /\ (name = js "edit_event" -> verb = VerbText (js "Edit"))
    /\ (name = js "delete_event" -> verb = VerbText (js "Delet"))
    /\ (includes knownTools name = false ->
        verb = if includes objectPrototypeKeys name
               then VerbInherited name else VerbText (js "Process"))).
  { cbv zeta. repeat split; try (intros ->; vm_compute; reflexivity).
    unfold includes at 1, knownTools, actionTranslated. cbn [existsb].
    intros Hu. repeat (apply orb_false_elim in Hu; destruct Hu as [? Hu]).
    repeat match goal with E : str_eqb _ _ = false |- _ => rewrite E; clear E end.
    destruct (includes objectPrototypeKeys _); reflexivity. }
  cbv zeta in Hverb.
  unfold executeCalendarTool. cbv zeta.
  unfold mbind at 1, M_bind at 1. cbn [gui_emit on_streams modify].
  set (s0 := set_streams _ s). unfold try_catch.
  destruct (executeCalendarTool_try (fn_name (tc_function toolCall))
              (parseArgs (fn_arguments (tc_function toolCall))) userEmail s0)
    as [[r | e] s1] eqn:Etry;
    pose proof (executeCalendarTool_try_gui _ _ _ _ _ _ Etry) as Hgui;
    cbn beta iota in Hgui.
  - destruct Hgui as (node & He & Hnode).
    exists r, s1, (default (VerbText (js "Process"))
                     (actionTranslated (fn_name (tc_function toolCall)))), node.
    split; [reflexivity |]. split.
    { rewrite He. subst s0. cbn. rewrite <- app_assoc. reflexivity. }
    destruct Hverb as (V1 & V2 & V3 & V4 & V5).
    repeat (split; [assumption |]).
    destruct node; try exact Hnode; contradiction.
  - eexists; eexists;
      exists (default (VerbText (js "Process"))
                (actionTranslated (fn_name (tc_function toolCall)))),
             (GuiFailed (Some (formatToolError e))).
    split; [reflexivity |]. split.
    { cbn. rewrite Hgui. subst s0. cbn. rewrite <- app_assoc. reflexivity. }
    destruct Hverb as (V1 & V2 & V3 & V4 & V5).
    repeat (split; [assumption |]).
    eexists. split; [reflexivity |]. split; [reflexivity |].
    apply formatToolError_nonempty.
Qed.
